(** * Contact manager: a shallow embedding of [contacts_manager.py]

    The program is a console contact book: an in-memory list of contacts
    mirrored in a CSV file, with Add, View, Delete and Edit commands that
    read lines from standard input and print to standard output.

    Layout of this development:
    - [Unicode]: the character properties the Python string methods consult
      (CPython 3.11, Unicode 14.0.0), as range tables;
    - [PyStr]: Python's [str] as a list of code points, with [strip],
      [lower], [title], [isalpha], [isdigit], [int], [str], comparison and
      padding;
    - [Regex]: the fragment of [re] that [validate_email] uses;
    - [Csv]: [csv.writer] and [csv.reader] for the default (excel) dialect,
      and the line iteration of a text file opened with an empty newline
      argument;
    - the program itself: validators, the record store, the four commands;
    - the properties of the specification.

    Modelling conventions.  Standard input is the list of lines still to be
    read; [input] on an empty list raises [EOFError].  Standard output is
    the list of chunks written so far: [print s] writes [s] followed by a
    newline, [input p] writes the prompt [p].  The backing file is an
    optional string ([None]: no such file); text input and output are taken
    to succeed, so the permission and I/O handlers of [load_contacts] and
    [save_contacts] never fire.  The file is written and read in UTF-8,
    which encodes every code point but the surrogates; [save] stands for
    [save_contacts] on text that can be encoded, which the text of every
    validated field and of every loaded file is, and the round trip of
    saving and loading states this as a hypothesis.  A contact is the
    five-field dictionary that [add_contact] builds. *)

From Stdlib Require Import Ascii String DecimalString.
From Stdlib Require Import NArith ZArith Bool Lia List Permutation Sorted.
Import ListNotations.

Set Implicit Arguments.

(** A Python string is a sequence of Unicode code points. *)
Definition pystr := list N.

Module Unicode.

Local Open Scope N_scope.

(** Code points that [str.isspace] and [str.strip] treat as whitespace. *)
Definition space_ranges : list (N * N) :=
  [(9,13); (28,32); (133,133); (160,160); (5760,5760); (8192,8202); (8232,8233); (8239,8239);
   (8287,8287); (12288,12288)]%N.

(** Code points of general category L* ([str.isalpha]). *)
Definition alpha_ranges : list (N * N) :=
  [(65,90); (97,122); (170,170); (181,181); (186,186); (192,214); (216,246); (248,705);
   (710,721); (736,740); (748,748); (750,750); (880,884); (886,887); (890,893); (895,895);
   (902,902); (904,906); (908,908); (910,929); (931,1013); (1015,1153); (1162,1327);
   (1329,1366); (1369,1369); (1376,1416); (1488,1514); (1519,1522); (1568,1610); (1646,1647);
   (1649,1747); (1749,1749); (1765,1766); (1774,1775); (1786,1788); (1791,1791); (1808,1808);
   (1810,1839); (1869,1957); (1969,1969); (1994,2026); (2036,2037); (2042,2042); (2048,2069);
   (2074,2074); (2084,2084); (2088,2088); (2112,2136); (2144,2154); (2160,2183); (2185,2190);
   (2208,2249); (2308,2361); (2365,2365); (2384,2384); (2392,2401); (2417,2432); (2437,2444);
   (2447,2448); (2451,2472); (2474,2480); (2482,2482); (2486,2489); (2493,2493); (2510,2510);
   (2524,2525); (2527,2529); (2544,2545); (2556,2556); (2565,2570); (2575,2576); (2579,2600);
   (2602,2608); (2610,2611); (2613,2614); (2616,2617); (2649,2652); (2654,2654); (2674,2676);
   (2693,2701); (2703,2705); (2707,2728); (2730,2736); (2738,2739); (2741,2745); (2749,2749);
   (2768,2768); (2784,2785); (2809,2809); (2821,2828); (2831,2832); (2835,2856); (2858,2864);
   (2866,2867); (2869,2873); (2877,2877); (2908,2909); (2911,2913); (2929,2929); (2947,2947);
   (2949,2954); (2958,2960); (2962,2965); (2969,2970); (2972,2972); (2974,2975); (2979,2980);
   (2984,2986); (2990,3001); (3024,3024); (3077,3084); (3086,3088); (3090,3112); (3114,3129);
   (3133,3133); (3160,3162); (3165,3165); (3168,3169); (3200,3200); (3205,3212); (3214,3216);
   (3218,3240); (3242,3251); (3253,3257); (3261,3261); (3293,3294); (3296,3297); (3313,3314);
   (3332,3340); (3342,3344); (3346,3386); (3389,3389); (3406,3406); (3412,3414); (3423,3425);
   (3450,3455); (3461,3478); (3482,3505); (3507,3515); (3517,3517); (3520,3526); (3585,3632);
   (3634,3635); (3648,3654); (3713,3714); (3716,3716); (3718,3722); (3724,3747); (3749,3749);
   (3751,3760); (3762,3763); (3773,3773); (3776,3780); (3782,3782); (3804,3807); (3840,3840);
   (3904,3911); (3913,3948); (3976,3980); (4096,4138); (4159,4159); (4176,4181); (4186,4189);
   (4193,4193); (4197,4198); (4206,4208); (4213,4225); (4238,4238); (4256,4293); (4295,4295);
   (4301,4301); (4304,4346); (4348,4680); (4682,4685); (4688,4694); (4696,4696); (4698,4701);
   (4704,4744); (4746,4749); (4752,4784); (4786,4789); (4792,4798); (4800,4800); (4802,4805);
   (4808,4822); (4824,4880); (4882,4885); (4888,4954); (4992,5007); (5024,5109); (5112,5117);
   (5121,5740); (5743,5759); (5761,5786); (5792,5866); (5873,5880); (5888,5905); (5919,5937);
   (5952,5969); (5984,5996); (5998,6000); (6016,6067); (6103,6103); (6108,6108); (6176,6264);
   (6272,6276); (6279,6312); (6314,6314); (6320,6389); (6400,6430); (6480,6509); (6512,6516);
   (6528,6571); (6576,6601); (6656,6678); (6688,6740); (6823,6823); (6917,6963); (6981,6988);
   (7043,7072); (7086,7087); (7098,7141); (7168,7203); (7245,7247); (7258,7293); (7296,7304);
   (7312,7354); (7357,7359); (7401,7404); (7406,7411); (7413,7414); (7418,7418); (7424,7615);
   (7680,7957); (7960,7965); (7968,8005); (8008,8013); (8016,8023); (8025,8025); (8027,8027);
   (8029,8029); (8031,8061); (8064,8116); (8118,8124); (8126,8126); (8130,8132); (8134,8140);
   (8144,8147); (8150,8155); (8160,8172); (8178,8180); (8182,8188); (8305,8305); (8319,8319);
   (8336,8348); (8450,8450); (8455,8455); (8458,8467); (8469,8469); (8473,8477); (8484,8484);
   (8486,8486); (8488,8488); (8490,8493); (8495,8505); (8508,8511); (8517,8521); (8526,8526);
   (8579,8580); (11264,11492); (11499,11502); (11506,11507); (11520,11557); (11559,11559);
   (11565,11565); (11568,11623); (11631,11631); (11648,11670); (11680,11686); (11688,11694);
   (11696,11702); (11704,11710); (11712,11718); (11720,11726); (11728,11734); (11736,11742);
   (11823,11823); (12293,12294); (12337,12341); (12347,12348); (12353,12438); (12445,12447);
   (12449,12538); (12540,12543); (12549,12591); (12593,12686); (12704,12735); (12784,12799);
   (13312,19903); (19968,42124); (42192,42237); (42240,42508); (42512,42527); (42538,42539);
   (42560,42606); (42623,42653); (42656,42725); (42775,42783); (42786,42888); (42891,42954);
   (42960,42961); (42963,42963); (42965,42969); (42994,43009); (43011,43013); (43015,43018);
   (43020,43042); (43072,43123); (43138,43187); (43250,43255); (43259,43259); (43261,43262);
   (43274,43301); (43312,43334); (43360,43388); (43396,43442); (43471,43471); (43488,43492);
   (43494,43503); (43514,43518); (43520,43560); (43584,43586); (43588,43595); (43616,43638);
   (43642,43642); (43646,43695); (43697,43697); (43701,43702); (43705,43709); (43712,43712);
   (43714,43714); (43739,43741); (43744,43754); (43762,43764); (43777,43782); (43785,43790);
   (43793,43798); (43808,43814); (43816,43822); (43824,43866); (43868,43881); (43888,44002);
   (44032,55203); (55216,55238); (55243,55291); (63744,64109); (64112,64217); (64256,64262);
   (64275,64279); (64285,64285); (64287,64296); (64298,64310); (64312,64316); (64318,64318);
   (64320,64321); (64323,64324); (64326,64433); (64467,64829); (64848,64911); (64914,64967);
   (65008,65019); (65136,65140); (65142,65276); (65313,65338); (65345,65370); (65382,65470);
   (65474,65479); (65482,65487); (65490,65495); (65498,65500); (65536,65547); (65549,65574);
   (65576,65594); (65596,65597); (65599,65613); (65616,65629); (65664,65786); (66176,66204);
   (66208,66256); (66304,66335); (66349,66368); (66370,66377); (66384,66421); (66432,66461);
   (66464,66499); (66504,66511); (66560,66717); (66736,66771); (66776,66811); (66816,66855);
   (66864,66915); (66928,66938); (66940,66954); (66956,66962); (66964,66965); (66967,66977);
   (66979,66993); (66995,67001); (67003,67004); (67072,67382); (67392,67413); (67424,67431);
   (67456,67461); (67463,67504); (67506,67514); (67584,67589); (67592,67592); (67594,67637);
   (67639,67640); (67644,67644); (67647,67669); (67680,67702); (67712,67742); (67808,67826);
   (67828,67829); (67840,67861); (67872,67897); (67968,68023); (68030,68031); (68096,68096);
   (68112,68115); (68117,68119); (68121,68149); (68192,68220); (68224,68252); (68288,68295);
   (68297,68324); (68352,68405); (68416,68437); (68448,68466); (68480,68497); (68608,68680);
   (68736,68786); (68800,68850); (68864,68899); (69248,69289); (69296,69297); (69376,69404);
   (69415,69415); (69424,69445); (69488,69505); (69552,69572); (69600,69622); (69635,69687);
   (69745,69746); (69749,69749); (69763,69807); (69840,69864); (69891,69926); (69956,69956);
   (69959,69959); (69968,70002); (70006,70006); (70019,70066); (70081,70084); (70106,70106);
   (70108,70108); (70144,70161); (70163,70187); (70272,70278); (70280,70280); (70282,70285);
   (70287,70301); (70303,70312); (70320,70366); (70405,70412); (70415,70416); (70419,70440);
   (70442,70448); (70450,70451); (70453,70457); (70461,70461); (70480,70480); (70493,70497);
   (70656,70708); (70727,70730); (70751,70753); (70784,70831); (70852,70853); (70855,70855);
   (71040,71086); (71128,71131); (71168,71215); (71236,71236); (71296,71338); (71352,71352);
   (71424,71450); (71488,71494); (71680,71723); (71840,71903); (71935,71942); (71945,71945);
   (71948,71955); (71957,71958); (71960,71983); (71999,71999); (72001,72001); (72096,72103);
   (72106,72144); (72161,72161); (72163,72163); (72192,72192); (72203,72242); (72250,72250);
   (72272,72272); (72284,72329); (72349,72349); (72368,72440); (72704,72712); (72714,72750);
   (72768,72768); (72818,72847); (72960,72966); (72968,72969); (72971,73008); (73030,73030);
   (73056,73061); (73063,73064); (73066,73097); (73112,73112); (73440,73458); (73648,73648);
   (73728,74649); (74880,75075); (77712,77808); (77824,78894); (82944,83526); (92160,92728);
   (92736,92766); (92784,92862); (92880,92909); (92928,92975); (92992,92995); (93027,93047);
   (93053,93071); (93760,93823); (93952,94026); (94032,94032); (94099,94111); (94176,94177);
   (94179,94179); (94208,100343); (100352,101589); (101632,101640); (110576,110579);
   (110581,110587); (110589,110590); (110592,110882); (110928,110930); (110948,110951);
   (110960,111355); (113664,113770); (113776,113788); (113792,113800); (113808,113817);
   (119808,119892); (119894,119964); (119966,119967); (119970,119970); (119973,119974);
   (119977,119980); (119982,119993); (119995,119995); (119997,120003); (120005,120069);
   (120071,120074); (120077,120084); (120086,120092); (120094,120121); (120123,120126);
   (120128,120132); (120134,120134); (120138,120144); (120146,120485); (120488,120512);
   (120514,120538); (120540,120570); (120572,120596); (120598,120628); (120630,120654);
   (120656,120686); (120688,120712); (120714,120744); (120746,120770); (120772,120779);
   (122624,122654); (123136,123180); (123191,123197); (123214,123214); (123536,123565);
   (123584,123627); (124896,124902); (124904,124907); (124909,124910); (124912,124926);
   (124928,125124); (125184,125251); (125259,125259); (126464,126467); (126469,126495);
   (126497,126498); (126500,126500); (126503,126503); (126505,126514); (126516,126519);
   (126521,126521); (126523,126523); (126530,126530); (126535,126535); (126537,126537);
   (126539,126539); (126541,126543); (126545,126546); (126548,126548); (126551,126551);
   (126553,126553); (126555,126555); (126557,126557); (126559,126559); (126561,126562);
   (126564,126564); (126567,126570); (126572,126578); (126580,126583); (126585,126588);
   (126590,126590); (126592,126601); (126603,126619); (126625,126627); (126629,126633);
   (126635,126651); (131072,173791); (173824,177976); (177984,178205); (178208,183969);
   (183984,191456); (194560,195101); (196608,201546)]%N.

(** Code points with Numeric_Type=Decimal ([str.isdecimal]); every run starts at a digit zero. *)
Definition decimal_ranges : list (N * N) :=
  [(48,57); (1632,1641); (1776,1785); (1984,1993); (2406,2415); (2534,2543); (2662,2671);
   (2790,2799); (2918,2927); (3046,3055); (3174,3183); (3302,3311); (3430,3439); (3558,3567);
   (3664,3673); (3792,3801); (3872,3881); (4160,4169); (4240,4249); (6112,6121); (6160,6169);
   (6470,6479); (6608,6617); (6784,6793); (6800,6809); (6992,7001); (7088,7097); (7232,7241);
   (7248,7257); (42528,42537); (43216,43225); (43264,43273); (43472,43481); (43504,43513);
   (43600,43609); (44016,44025); (65296,65305); (66720,66729); (68912,68921); (69734,69743);
   (69872,69881); (69942,69951); (70096,70105); (70384,70393); (70736,70745); (70864,70873);
   (71248,71257); (71360,71369); (71472,71481); (71904,71913); (72016,72025); (72784,72793);
   (73040,73049); (73120,73129); (92768,92777); (92864,92873); (93008,93017); (120782,120831);
   (123200,123209); (123632,123641); (125264,125273); (130032,130041)]%N.

(** Code points with Numeric_Type=Digit or Decimal ([str.isdigit]). *)
Definition digit_ranges : list (N * N) :=
  [(48,57); (178,179); (185,185); (1632,1641); (1776,1785); (1984,1993); (2406,2415);
   (2534,2543); (2662,2671); (2790,2799); (2918,2927); (3046,3055); (3174,3183); (3302,3311);
   (3430,3439); (3558,3567); (3664,3673); (3792,3801); (3872,3881); (4160,4169); (4240,4249);
   (4969,4977); (6112,6121); (6160,6169); (6470,6479); (6608,6618); (6784,6793); (6800,6809);
   (6992,7001); (7088,7097); (7232,7241); (7248,7257); (8304,8304); (8308,8313); (8320,8329);
   (9312,9320); (9332,9340); (9352,9360); (9450,9450); (9461,9469); (9471,9471); (10102,10110);
   (10112,10120); (10122,10130); (42528,42537); (43216,43225); (43264,43273); (43472,43481);
   (43504,43513); (43600,43609); (44016,44025); (65296,65305); (66720,66729); (68160,68163);
   (68912,68921); (69216,69224); (69714,69722); (69734,69743); (69872,69881); (69942,69951);
   (70096,70105); (70384,70393); (70736,70745); (70864,70873); (71248,71257); (71360,71369);
   (71472,71481); (71904,71913); (72016,72025); (72784,72793); (73040,73049); (73120,73129);
   (92768,92777); (92864,92873); (93008,93017); (120782,120831); (123200,123209);
   (123632,123641); (125264,125273); (127232,127242); (130032,130041)]%N.

(** Code points with any Numeric_Type ([str.isnumeric]). *)
Definition numeric_ranges : list (N * N) :=
  [(48,57); (178,179); (185,185); (188,190); (1632,1641); (1776,1785); (1984,1993);
   (2406,2415); (2534,2543); (2548,2553); (2662,2671); (2790,2799); (2918,2927); (2930,2935);
   (3046,3058); (3174,3183); (3192,3198); (3302,3311); (3416,3422); (3430,3448); (3558,3567);
   (3664,3673); (3792,3801); (3872,3891); (4160,4169); (4240,4249); (4969,4988); (5870,5872);
   (6112,6121); (6128,6137); (6160,6169); (6470,6479); (6608,6618); (6784,6793); (6800,6809);
   (6992,7001); (7088,7097); (7232,7241); (7248,7257); (8304,8304); (8308,8313); (8320,8329);
   (8528,8578); (8581,8585); (9312,9371); (9450,9471); (10102,10131); (11517,11517);
   (12295,12295); (12321,12329); (12344,12346); (12690,12693); (12832,12841); (12872,12879);
   (12881,12895); (12928,12937); (12977,12991); (13317,13317); (13443,13443); (14378,14378);
   (15181,15181); (19968,19968); (19971,19971); (19975,19975); (19977,19977); (20061,20061);
   (20108,20108); (20116,20116); (20118,20118); (20159,20160); (20191,20191); (20200,20200);
   (20237,20237); (20336,20336); (20740,20740); (20806,20806); (20841,20841); (20843,20843);
   (20845,20845); (21313,21313); (21315,21317); (21324,21324); (21441,21444); (22235,22235);
   (22769,22769); (22777,22777); (24186,24186); (24318,24319); (24332,24334); (24336,24336);
   (25342,25342); (25420,25420); (26578,26578); (28422,28422); (29590,29590); (30334,30334);
   (32902,32902); (33836,33836); (36014,36014); (36019,36019); (36144,36144); (38433,38433);
   (38470,38470); (38476,38476); (38520,38520); (38646,38646); (42528,42537); (42726,42735);
   (43056,43061); (43216,43225); (43264,43273); (43472,43481); (43504,43513); (43600,43609);
   (44016,44025); (63851,63851); (63859,63859); (63864,63864); (63922,63922); (63953,63953);
   (63955,63955); (63997,63997); (65296,65305); (65799,65843); (65856,65912); (65930,65931);
   (66273,66299); (66336,66339); (66369,66369); (66378,66378); (66513,66517); (66720,66729);
   (67672,67679); (67705,67711); (67751,67759); (67835,67839); (67862,67867); (68028,68029);
   (68032,68047); (68050,68095); (68160,68168); (68221,68222); (68253,68255); (68331,68335);
   (68440,68447); (68472,68479); (68521,68527); (68858,68863); (68912,68921); (69216,69246);
   (69405,69414); (69457,69460); (69573,69579); (69714,69743); (69872,69881); (69942,69951);
   (70096,70105); (70113,70132); (70384,70393); (70736,70745); (70864,70873); (71248,71257);
   (71360,71369); (71472,71483); (71904,71922); (72016,72025); (72784,72812); (73040,73049);
   (73120,73129); (73664,73684); (74752,74862); (92768,92777); (92864,92873); (93008,93017);
   (93019,93025); (93824,93846); (119520,119539); (119648,119672); (120782,120831);
   (123200,123209); (123632,123641); (125127,125135); (125264,125273); (126065,126123);
   (126125,126127); (126129,126132); (126209,126253); (126255,126269); (127232,127244);
   (130032,130041); (131073,131073); (131172,131172); (131298,131298); (131361,131361);
   (133418,133418); (133507,133507); (133516,133516); (133532,133532); (133866,133866);
   (133885,133885); (133913,133913); (140176,140176); (141720,141720); (146203,146203);
   (156269,156269); (194704,194704)]%N.

(** Code points with the derived property Cased. *)
Definition cased_ranges : list (N * N) :=
  [(65,90); (97,122); (170,170); (181,181); (186,186); (192,214); (216,246); (248,442);
   (444,447); (452,659); (661,696); (704,705); (736,740); (837,837); (880,883); (886,887);
   (890,893); (895,895); (902,902); (904,906); (908,908); (910,929); (931,1013); (1015,1153);
   (1162,1327); (1329,1366); (1376,1416); (4256,4293); (4295,4295); (4301,4301); (4304,4346);
   (4349,4351); (5024,5109); (5112,5117); (7296,7304); (7312,7354); (7357,7359); (7424,7615);
   (7680,7957); (7960,7965); (7968,8005); (8008,8013); (8016,8023); (8025,8025); (8027,8027);
   (8029,8029); (8031,8061); (8064,8116); (8118,8124); (8126,8126); (8130,8132); (8134,8140);
   (8144,8147); (8150,8155); (8160,8172); (8178,8180); (8182,8188); (8305,8305); (8319,8319);
   (8336,8348); (8450,8450); (8455,8455); (8458,8467); (8469,8469); (8473,8477); (8484,8484);
   (8486,8486); (8488,8488); (8490,8493); (8495,8500); (8505,8505); (8508,8511); (8517,8521);
   (8526,8526); (8544,8575); (8579,8580); (9398,9449); (11264,11492); (11499,11502);
   (11506,11507); (11520,11557); (11559,11559); (11565,11565); (42560,42605); (42624,42653);
   (42786,42887); (42891,42894); (42896,42954); (42960,42961); (42963,42963); (42965,42969);
   (42997,42998); (43000,43002); (43824,43866); (43868,43880); (43888,43967); (64256,64262);
   (64275,64279); (65313,65338); (65345,65370); (66560,66639); (66736,66771); (66776,66811);
   (66928,66938); (66940,66954); (66956,66962); (66964,66965); (66967,66977); (66979,66993);
   (66995,67001); (67003,67004); (67456,67456); (67459,67461); (67463,67504); (67506,67514);
   (68736,68786); (68800,68850); (71840,71903); (93760,93823); (119808,119892);
   (119894,119964); (119966,119967); (119970,119970); (119973,119974); (119977,119980);
   (119982,119993); (119995,119995); (119997,120003); (120005,120069); (120071,120074);
   (120077,120084); (120086,120092); (120094,120121); (120123,120126); (120128,120132);
   (120134,120134); (120138,120144); (120146,120485); (120488,120512); (120514,120538);
   (120540,120570); (120572,120596); (120598,120628); (120630,120654); (120656,120686);
   (120688,120712); (120714,120744); (120746,120770); (120772,120779); (122624,122633);
   (122635,122654); (125184,125251); (127280,127305); (127312,127337); (127344,127369)]%N.

(** Code points with the derived property Case_Ignorable. *)
Definition case_ignorable_ranges : list (N * N) :=
  [(39,39); (46,46); (58,58); (94,94); (96,96); (168,168); (173,173); (175,175); (180,180);
   (183,184); (688,879); (884,885); (890,890); (900,901); (903,903); (1155,1161); (1369,1369);
   (1375,1375); (1425,1469); (1471,1471); (1473,1474); (1476,1477); (1479,1479); (1524,1524);
   (1536,1541); (1552,1562); (1564,1564); (1600,1600); (1611,1631); (1648,1648); (1750,1757);
   (1759,1768); (1770,1773); (1807,1807); (1809,1809); (1840,1866); (1958,1968); (2027,2037);
   (2042,2042); (2045,2045); (2070,2093); (2137,2139); (2184,2184); (2192,2193); (2200,2207);
   (2249,2306); (2362,2362); (2364,2364); (2369,2376); (2381,2381); (2385,2391); (2402,2403);
   (2417,2417); (2433,2433); (2492,2492); (2497,2500); (2509,2509); (2530,2531); (2558,2558);
   (2561,2562); (2620,2620); (2625,2626); (2631,2632); (2635,2637); (2641,2641); (2672,2673);
   (2677,2677); (2689,2690); (2748,2748); (2753,2757); (2759,2760); (2765,2765); (2786,2787);
   (2810,2815); (2817,2817); (2876,2876); (2879,2879); (2881,2884); (2893,2893); (2901,2902);
   (2914,2915); (2946,2946); (3008,3008); (3021,3021); (3072,3072); (3076,3076); (3132,3132);
   (3134,3136); (3142,3144); (3146,3149); (3157,3158); (3170,3171); (3201,3201); (3260,3260);
   (3263,3263); (3270,3270); (3276,3277); (3298,3299); (3328,3329); (3387,3388); (3393,3396);
   (3405,3405); (3426,3427); (3457,3457); (3530,3530); (3538,3540); (3542,3542); (3633,3633);
   (3636,3642); (3654,3662); (3761,3761); (3764,3772); (3782,3782); (3784,3789); (3864,3865);
   (3893,3893); (3895,3895); (3897,3897); (3953,3966); (3968,3972); (3974,3975); (3981,3991);
   (3993,4028); (4038,4038); (4141,4144); (4146,4151); (4153,4154); (4157,4158); (4184,4185);
   (4190,4192); (4209,4212); (4226,4226); (4229,4230); (4237,4237); (4253,4253); (4348,4348);
   (4957,4959); (5906,5908); (5938,5939); (5970,5971); (6002,6003); (6068,6069); (6071,6077);
   (6086,6086); (6089,6099); (6103,6103); (6109,6109); (6155,6159); (6211,6211); (6277,6278);
   (6313,6313); (6432,6434); (6439,6440); (6450,6450); (6457,6459); (6679,6680); (6683,6683);
   (6742,6742); (6744,6750); (6752,6752); (6754,6754); (6757,6764); (6771,6780); (6783,6783);
   (6823,6823); (6832,6862); (6912,6915); (6964,6964); (6966,6970); (6972,6972); (6978,6978);
   (7019,7027); (7040,7041); (7074,7077); (7080,7081); (7083,7085); (7142,7142); (7144,7145);
   (7149,7149); (7151,7153); (7212,7219); (7222,7223); (7288,7293); (7376,7378); (7380,7392);
   (7394,7400); (7405,7405); (7412,7412); (7416,7417); (7468,7530); (7544,7544); (7579,7679);
   (8125,8125); (8127,8129); (8141,8143); (8157,8159); (8173,8175); (8189,8190); (8203,8207);
   (8216,8217); (8228,8228); (8231,8231); (8234,8238); (8288,8292); (8294,8303); (8305,8305);
   (8319,8319); (8336,8348); (8400,8432); (11388,11389); (11503,11505); (11631,11631);
   (11647,11647); (11744,11775); (11823,11823); (12293,12293); (12330,12333); (12337,12341);
   (12347,12347); (12441,12446); (12540,12542); (40981,40981); (42232,42237); (42508,42508);
   (42607,42610); (42612,42621); (42623,42623); (42652,42655); (42736,42737); (42752,42785);
   (42864,42864); (42888,42890); (42994,42996); (43000,43001); (43010,43010); (43014,43014);
   (43019,43019); (43045,43046); (43052,43052); (43204,43205); (43232,43249); (43263,43263);
   (43302,43309); (43335,43345); (43392,43394); (43443,43443); (43446,43449); (43452,43453);
   (43471,43471); (43493,43494); (43561,43566); (43569,43570); (43573,43574); (43587,43587);
   (43596,43596); (43632,43632); (43644,43644); (43696,43696); (43698,43700); (43703,43704);
   (43710,43711); (43713,43713); (43741,43741); (43756,43757); (43763,43764); (43766,43766);
   (43867,43871); (43881,43883); (44005,44005); (44008,44008); (44013,44013); (64286,64286);
   (64434,64450); (65024,65039); (65043,65043); (65056,65071); (65106,65106); (65109,65109);
   (65279,65279); (65287,65287); (65294,65294); (65306,65306); (65342,65342); (65344,65344);
   (65392,65392); (65438,65439); (65507,65507); (65529,65531); (66045,66045); (66272,66272);
   (66422,66426); (67456,67461); (67463,67504); (67506,67514); (68097,68099); (68101,68102);
   (68108,68111); (68152,68154); (68159,68159); (68325,68326); (68900,68903); (69291,69292);
   (69446,69456); (69506,69509); (69633,69633); (69688,69702); (69744,69744); (69747,69748);
   (69759,69761); (69811,69814); (69817,69818); (69821,69821); (69826,69826); (69837,69837);
   (69888,69890); (69927,69931); (69933,69940); (70003,70003); (70016,70017); (70070,70078);
   (70089,70092); (70095,70095); (70191,70193); (70196,70196); (70198,70199); (70206,70206);
   (70367,70367); (70371,70378); (70400,70401); (70459,70460); (70464,70464); (70502,70508);
   (70512,70516); (70712,70719); (70722,70724); (70726,70726); (70750,70750); (70835,70840);
   (70842,70842); (70847,70848); (70850,70851); (71090,71093); (71100,71101); (71103,71104);
   (71132,71133); (71219,71226); (71229,71229); (71231,71232); (71339,71339); (71341,71341);
   (71344,71349); (71351,71351); (71453,71455); (71458,71461); (71463,71467); (71727,71735);
   (71737,71738); (71995,71996); (71998,71998); (72003,72003); (72148,72151); (72154,72155);
   (72160,72160); (72193,72202); (72243,72248); (72251,72254); (72263,72263); (72273,72278);
   (72281,72283); (72330,72342); (72344,72345); (72752,72758); (72760,72765); (72767,72767);
   (72850,72871); (72874,72880); (72882,72883); (72885,72886); (73009,73014); (73018,73018);
   (73020,73021); (73023,73029); (73031,73031); (73104,73105); (73109,73109); (73111,73111);
   (73459,73460); (78896,78904); (92912,92916); (92976,92982); (92992,92995); (94031,94031);
   (94095,94111); (94176,94177); (94179,94180); (110576,110579); (110581,110587);
   (110589,110590); (113821,113822); (113824,113827); (118528,118573); (118576,118598);
   (119143,119145); (119155,119170); (119173,119179); (119210,119213); (119362,119364);
   (121344,121398); (121403,121452); (121461,121461); (121476,121476); (121499,121503);
   (121505,121519); (122880,122886); (122888,122904); (122907,122913); (122915,122916);
   (122918,122922); (123184,123197); (123566,123566); (123628,123631); (125136,125142);
   (125252,125259); (127995,127999); (917505,917505); (917536,917631); (917760,917999)]%N.

(** Single code point lower-case mappings: [(lo, hi, step, delta)] maps every [c = lo + k*step <= hi] to [c + delta]. *)
Definition lower_ranges : list (Z * Z * Z * Z) :=
  [(65,90,1,32); (192,214,1,32); (216,222,1,32); (256,302,2,1); (306,310,2,1); (313,327,2,1);
   (330,374,2,1); (376,376,1,(-121)); (377,381,2,1); (385,385,1,210); (386,388,2,1);
   (390,390,1,206); (391,391,1,1); (393,394,1,205); (395,395,1,1); (398,398,1,79);
   (399,399,1,202); (400,400,1,203); (401,401,1,1); (403,403,1,205); (404,404,1,207);
   (406,406,1,211); (407,407,1,209); (408,408,1,1); (412,412,1,211); (413,413,1,213);
   (415,415,1,214); (416,420,2,1); (422,422,1,218); (423,423,1,1); (425,425,1,218);
   (428,428,1,1); (430,430,1,218); (431,431,1,1); (433,434,1,217); (435,437,2,1);
   (439,439,1,219); (440,440,1,1); (444,444,1,1); (452,452,1,2); (453,453,1,1); (455,455,1,2);
   (456,456,1,1); (458,458,1,2); (459,475,2,1); (478,494,2,1); (497,497,1,2); (498,500,2,1);
   (502,502,1,(-97)); (503,503,1,(-56)); (504,542,2,1); (544,544,1,(-130)); (546,562,2,1);
   (570,570,1,10795); (571,571,1,1); (573,573,1,(-163)); (574,574,1,10792); (577,577,1,1);
   (579,579,1,(-195)); (580,580,1,69); (581,581,1,71); (582,590,2,1); (880,882,2,1);
   (886,886,1,1); (895,895,1,116); (902,902,1,38); (904,906,1,37); (908,908,1,64);
   (910,911,1,63); (913,929,1,32); (931,939,1,32); (975,975,1,8); (984,1006,2,1);
   (1012,1012,1,(-60)); (1015,1015,1,1); (1017,1017,1,(-7)); (1018,1018,1,1);
   (1021,1023,1,(-130)); (1024,1039,1,80); (1040,1071,1,32); (1120,1152,2,1); (1162,1214,2,1);
   (1216,1216,1,15); (1217,1229,2,1); (1232,1326,2,1); (1329,1366,1,48); (4256,4293,1,7264);
   (4295,4295,1,7264); (4301,4301,1,7264); (5024,5103,1,38864); (5104,5109,1,8);
   (7312,7354,1,(-3008)); (7357,7359,1,(-3008)); (7680,7828,2,1); (7838,7838,1,(-7615));
   (7840,7934,2,1); (7944,7951,1,(-8)); (7960,7965,1,(-8)); (7976,7983,1,(-8));
   (7992,7999,1,(-8)); (8008,8013,1,(-8)); (8025,8031,2,(-8)); (8040,8047,1,(-8));
   (8072,8079,1,(-8)); (8088,8095,1,(-8)); (8104,8111,1,(-8)); (8120,8121,1,(-8));
   (8122,8123,1,(-74)); (8124,8124,1,(-9)); (8136,8139,1,(-86)); (8140,8140,1,(-9));
   (8152,8153,1,(-8)); (8154,8155,1,(-100)); (8168,8169,1,(-8)); (8170,8171,1,(-112));
   (8172,8172,1,(-7)); (8184,8185,1,(-128)); (8186,8187,1,(-126)); (8188,8188,1,(-9));
   (8486,8486,1,(-7517)); (8490,8490,1,(-8383)); (8491,8491,1,(-8262)); (8498,8498,1,28);
   (8544,8559,1,16); (8579,8579,1,1); (9398,9423,1,26); (11264,11311,1,48); (11360,11360,1,1);
   (11362,11362,1,(-10743)); (11363,11363,1,(-3814)); (11364,11364,1,(-10727));
   (11367,11371,2,1); (11373,11373,1,(-10780)); (11374,11374,1,(-10749));
   (11375,11375,1,(-10783)); (11376,11376,1,(-10782)); (11378,11378,1,1); (11381,11381,1,1);
   (11390,11391,1,(-10815)); (11392,11490,2,1); (11499,11501,2,1); (11506,11506,1,1);
   (42560,42604,2,1); (42624,42650,2,1); (42786,42798,2,1); (42802,42862,2,1);
   (42873,42875,2,1); (42877,42877,1,(-35332)); (42878,42886,2,1); (42891,42891,1,1);
   (42893,42893,1,(-42280)); (42896,42898,2,1); (42902,42920,2,1); (42922,42922,1,(-42308));
   (42923,42923,1,(-42319)); (42924,42924,1,(-42315)); (42925,42925,1,(-42305));
   (42926,42926,1,(-42308)); (42928,42928,1,(-42258)); (42929,42929,1,(-42282));
   (42930,42930,1,(-42261)); (42931,42931,1,928); (42932,42946,2,1); (42948,42948,1,(-48));
   (42949,42949,1,(-42307)); (42950,42950,1,(-35384)); (42951,42953,2,1); (42960,42960,1,1);
   (42966,42968,2,1); (42997,42997,1,1); (65313,65338,1,32); (66560,66599,1,40);
   (66736,66771,1,40); (66928,66938,1,39); (66940,66954,1,39); (66956,66962,1,39);
   (66964,66965,1,39); (68736,68786,1,64); (71840,71871,1,32); (93760,93791,1,32);
   (125184,125217,1,34)]%Z.

(** Lower-case mappings to several code points. *)
Definition lower_special : list (N * list N) :=
  [(304,[105;775])]%N.

(** Single code point title-case mappings, same layout as [lower_ranges]. *)
Definition title_ranges : list (Z * Z * Z * Z) :=
  [(97,122,1,(-32)); (181,181,1,743); (224,246,1,(-32)); (248,254,1,(-32)); (255,255,1,121);
   (257,303,2,(-1)); (305,305,1,(-232)); (307,311,2,(-1)); (314,328,2,(-1)); (331,375,2,(-1));
   (378,382,2,(-1)); (383,383,1,(-300)); (384,384,1,195); (387,389,2,(-1)); (392,392,1,(-1));
   (396,396,1,(-1)); (402,402,1,(-1)); (405,405,1,97); (409,409,1,(-1)); (410,410,1,163);
   (414,414,1,130); (417,421,2,(-1)); (424,424,1,(-1)); (429,429,1,(-1)); (432,432,1,(-1));
   (436,438,2,(-1)); (441,441,1,(-1)); (445,445,1,(-1)); (447,447,1,56); (452,452,1,1);
   (454,454,1,(-1)); (455,455,1,1); (457,457,1,(-1)); (458,458,1,1); (460,476,2,(-1));
   (477,477,1,(-79)); (479,495,2,(-1)); (497,497,1,1); (499,501,2,(-1)); (505,543,2,(-1));
   (547,563,2,(-1)); (572,572,1,(-1)); (575,576,1,10815); (578,578,1,(-1)); (583,591,2,(-1));
   (592,592,1,10783); (593,593,1,10780); (594,594,1,10782); (595,595,1,(-210));
   (596,596,1,(-206)); (598,599,1,(-205)); (601,601,1,(-202)); (603,603,1,(-203));
   (604,604,1,42319); (608,608,1,(-205)); (609,609,1,42315); (611,611,1,(-207));
   (613,613,1,42280); (614,614,1,42308); (616,616,1,(-209)); (617,617,1,(-211));
   (618,618,1,42308); (619,619,1,10743); (620,620,1,42305); (623,623,1,(-211));
   (625,625,1,10749); (626,626,1,(-213)); (629,629,1,(-214)); (637,637,1,10727);
   (640,640,1,(-218)); (642,642,1,42307); (643,643,1,(-218)); (647,647,1,42282);
   (648,648,1,(-218)); (649,649,1,(-69)); (650,651,1,(-217)); (652,652,1,(-71));
   (658,658,1,(-219)); (669,669,1,42261); (670,670,1,42258); (837,837,1,84); (881,883,2,(-1));
   (887,887,1,(-1)); (891,893,1,130); (940,940,1,(-38)); (941,943,1,(-37)); (945,961,1,(-32));
   (962,962,1,(-31)); (963,971,1,(-32)); (972,972,1,(-64)); (973,974,1,(-63));
   (976,976,1,(-62)); (977,977,1,(-57)); (981,981,1,(-47)); (982,982,1,(-54));
   (983,983,1,(-8)); (985,1007,2,(-1)); (1008,1008,1,(-86)); (1009,1009,1,(-80));
   (1010,1010,1,7); (1011,1011,1,(-116)); (1013,1013,1,(-96)); (1016,1016,1,(-1));
   (1019,1019,1,(-1)); (1072,1103,1,(-32)); (1104,1119,1,(-80)); (1121,1153,2,(-1));
   (1163,1215,2,(-1)); (1218,1230,2,(-1)); (1231,1231,1,(-15)); (1233,1327,2,(-1));
   (1377,1414,1,(-48)); (5112,5117,1,(-8)); (7296,7296,1,(-6254)); (7297,7297,1,(-6253));
   (7298,7298,1,(-6244)); (7299,7300,1,(-6242)); (7301,7301,1,(-6243)); (7302,7302,1,(-6236));
   (7303,7303,1,(-6181)); (7304,7304,1,35266); (7545,7545,1,35332); (7549,7549,1,3814);
   (7566,7566,1,35384); (7681,7829,2,(-1)); (7835,7835,1,(-59)); (7841,7935,2,(-1));
   (7936,7943,1,8); (7952,7957,1,8); (7968,7975,1,8); (7984,7991,1,8); (8000,8005,1,8);
   (8017,8023,2,8); (8032,8039,1,8); (8048,8049,1,74); (8050,8053,1,86); (8054,8055,1,100);
   (8056,8057,1,128); (8058,8059,1,112); (8060,8061,1,126); (8064,8071,1,8); (8080,8087,1,8);
   (8096,8103,1,8); (8112,8113,1,8); (8115,8115,1,9); (8126,8126,1,(-7205)); (8131,8131,1,9);
   (8144,8145,1,8); (8160,8161,1,8); (8165,8165,1,7); (8179,8179,1,9); (8526,8526,1,(-28));
   (8560,8575,1,(-16)); (8580,8580,1,(-1)); (9424,9449,1,(-26)); (11312,11359,1,(-48));
   (11361,11361,1,(-1)); (11365,11365,1,(-10795)); (11366,11366,1,(-10792));
   (11368,11372,2,(-1)); (11379,11379,1,(-1)); (11382,11382,1,(-1)); (11393,11491,2,(-1));
   (11500,11502,2,(-1)); (11507,11507,1,(-1)); (11520,11557,1,(-7264));
   (11559,11559,1,(-7264)); (11565,11565,1,(-7264)); (42561,42605,2,(-1));
   (42625,42651,2,(-1)); (42787,42799,2,(-1)); (42803,42863,2,(-1)); (42874,42876,2,(-1));
   (42879,42887,2,(-1)); (42892,42892,1,(-1)); (42897,42899,2,(-1)); (42900,42900,1,48);
   (42903,42921,2,(-1)); (42933,42947,2,(-1)); (42952,42954,2,(-1)); (42961,42961,1,(-1));
   (42967,42969,2,(-1)); (42998,42998,1,(-1)); (43859,43859,1,(-928));
   (43888,43967,1,(-38864)); (65345,65370,1,(-32)); (66600,66639,1,(-40));
   (66776,66811,1,(-40)); (66967,66977,1,(-39)); (66979,66993,1,(-39)); (66995,67001,1,(-39));
   (67003,67004,1,(-39)); (68800,68850,1,(-64)); (71872,71903,1,(-32)); (93792,93823,1,(-32));
   (125218,125251,1,(-34))]%Z.

(** Title-case mappings to several code points. *)
Definition title_special : list (N * list N) :=
  [(223,[83;115]); (329,[700;78]); (496,[74;780]); (912,[921;776;769]); (944,[933;776;769]);
   (1415,[1333;1410]); (7830,[72;817]); (7831,[84;776]); (7832,[87;778]); (7833,[89;778]);
   (7834,[65;702]); (8016,[933;787]); (8018,[933;787;768]); (8020,[933;787;769]);
   (8022,[933;787;834]); (8114,[8122;837]); (8116,[902;837]); (8118,[913;834]);
   (8119,[913;834;837]); (8130,[8138;837]); (8132,[905;837]); (8134,[919;834]);
   (8135,[919;834;837]); (8146,[921;776;768]); (8147,[921;776;769]); (8150,[921;834]);
   (8151,[921;776;834]); (8162,[933;776;768]); (8163,[933;776;769]); (8164,[929;787]);
   (8166,[933;834]); (8167,[933;776;834]); (8178,[8186;837]); (8180,[911;837]);
   (8182,[937;834]); (8183,[937;834;837]); (64256,[70;102]); (64257,[70;105]);
   (64258,[70;108]); (64259,[70;102;105]); (64260,[70;102;108]); (64261,[83;116]);
   (64262,[83;116]); (64275,[1348;1398]); (64276,[1348;1381]); (64277,[1348;1387]);
   (64278,[1358;1398]); (64279,[1348;1389])]%N.

Definition in_ranges (t : list (N * N)) (c : N) : bool :=
  existsb (fun r => (fst r <=? c) && (c <=? snd r)) t.

Definition is_space (c : N) : bool := in_ranges space_ranges c.
Definition is_alpha (c : N) : bool := in_ranges alpha_ranges c.
Definition is_decimal (c : N) : bool := in_ranges decimal_ranges c.
Definition is_digit (c : N) : bool := in_ranges digit_ranges c.
Definition is_numeric (c : N) : bool := in_ranges numeric_ranges c.
Definition is_cased (c : N) : bool := in_ranges cased_ranges c.
Definition is_case_ignorable (c : N) : bool := in_ranges case_ignorable_ranges c.

(** [Py_UNICODE_ISALNUM]. *)
Definition is_alnum (c : N) : bool :=
  is_alpha c || is_decimal c || is_digit c || is_numeric c.

(** [Py_UNICODE_TODECIMAL]: the value of a decimal digit. *)
Fixpoint decimal_in (t : list (N * N)) (c : N) : option N :=
  match t with
  | [] => None
  | (lo, hi) :: t' =>
      if (lo <=? c) && (c <=? hi) then Some ((c - lo) mod 10)
      else decimal_in t' c
  end.

Definition to_decimal (c : N) : option N := decimal_in decimal_ranges c.

Fixpoint assoc_special (t : list (N * list N)) (c : N) : option (list N) :=
  match t with
  | [] => None
  | (k, v) :: t' => if k =? c then Some v else assoc_special t' c
  end.

Fixpoint shift_in (t : list (Z * Z * Z * Z)) (c : Z) : Z :=
  match t with
  | [] => c
  | (lo, hi, step, delta) :: t' =>
      if ((lo <=? c) && (c <=? hi) && ((c - lo) mod step =? 0))%Z
      then (c + delta)%Z
      else shift_in t' c
  end.

Definition case_map (special : list (N * list N))
    (simple : list (Z * Z * Z * Z)) (c : N) : list N :=
  match assoc_special special c with
  | Some v => v
  | None => [Z.to_N (shift_in simple (Z.of_N c))]
  end.

(** [_PyUnicode_ToLowerFull] and [_PyUnicode_ToTitleFull]. *)
Definition to_lower_full (c : N) : list N := case_map lower_special lower_ranges c.
Definition to_title_full (c : N) : list N := case_map title_special title_ranges c.

Global Arguments is_space c : simpl never.
Global Arguments is_alpha c : simpl never.
Global Arguments is_decimal c : simpl never.
Global Arguments is_digit c : simpl never.
Global Arguments is_numeric c : simpl never.
Global Arguments is_cased c : simpl never.
Global Arguments is_case_ignorable c : simpl never.
Global Arguments to_decimal c : simpl never.
Global Arguments to_lower_full c : simpl never.
Global Arguments to_title_full c : simpl never.

End Unicode.

Module PyStr.

Import Unicode.
Local Open Scope N_scope.

(** String literals of the source, as code points. *)
Definition lit (s : string) : pystr := map N_of_ascii (list_ascii_of_string s).

Definition nl : pystr := [10].

(** [a == b] on strings. *)
Fixpoint str_eqb (a b : pystr) : bool :=
  match a, b with
  | [], [] => true
  | x :: a', y :: b' => (x =? y) && str_eqb a' b'
  | _, _ => false
  end.

(** [a < b] on strings: lexicographic on code points. *)
Fixpoint str_ltb (a b : pystr) : bool :=
  match a, b with
  | _, [] => false
  | [], _ :: _ => true
  | x :: a', y :: b' => (x <? y) || ((x =? y) && str_ltb a' b')
  end.

(** [s.lstrip()], [s.rstrip()], [s.strip()]. *)
Fixpoint lstrip (s : pystr) : pystr :=
  match s with
  | [] => []
  | c :: s' => if is_space c then lstrip s' else s
  end.

Definition rstrip (s : pystr) : pystr := rev' (lstrip (rev' s)).

Definition strip (s : pystr) : pystr := rstrip (lstrip s).

(** [s.isalpha()], [s.isdigit()]: every character has the property and
    there is at least one character. *)
Definition isalpha (s : pystr) : bool :=
  match s with [] => false | _ => forallb is_alpha s end.

Definition isdigit (s : pystr) : bool :=
  match s with [] => false | _ => forallb is_digit s end.

(** The first character that is not case-ignorable, if any, is cased. *)
Fixpoint next_is_cased (s : pystr) : bool :=
  match s with
  | [] => false
  | c :: s' => if is_case_ignorable c then next_is_cased s' else is_cased c
  end.

(** [handle_capital_sigma]: [before] is the text before the sigma, nearest
    character first; [after] is the text after it. *)
Definition capital_sigma (before after : pystr) : N :=
  if next_is_cased before && negb (next_is_cased after) then 962 else 963.

(** [lower_ucs4]. *)
Definition lower_char (before : pystr) (c : N) (after : pystr) : list N :=
  if c =? 931 then [capital_sigma before after] else to_lower_full c.

Fixpoint lower_from (before s : pystr) : pystr :=
  match s with
  | [] => []
  | c :: s' => lower_char before c s' ++ lower_from (c :: before) s'
  end.

(** [s.lower()]. *)
Definition lower (s : pystr) : pystr := lower_from [] s.

Fixpoint title_from (before : pystr) (previous_is_cased : bool) (s : pystr) : pystr :=
  match s with
  | [] => []
  | c :: s' =>
      (if previous_is_cased then lower_char before c s' else to_title_full c)
        ++ title_from (c :: before) (is_cased c) s'
  end.

(** [s.title()]. *)
Definition title (s : pystr) : pystr := title_from [] false s.

(** [s.ljust(width)], the padding of a [{:<width}] format field. *)
Definition ljust (width : nat) (s : pystr) : pystr :=
  s ++ repeat 32 (width - length s).

(** [str(n)] for a natural number. *)
Definition str_of_nat (n : nat) : pystr :=
  lit (NilZero.string_of_uint (Nat.to_uint n)).

(** ** [int(s)]

    [int] first maps Unicode white space to a blank and Unicode decimal
    digits to ASCII digits ([_PyUnicode_TransformDecimalAndSpaceToASCII];
    any other character above ASCII becomes [?], which cannot be parsed),
    then reads optional blanks, an optional sign, decimal digits with
    single underscores between them, and optional blanks
    ([PyLong_FromString]).  More than 4300 digits are refused.  [None]
    stands for [ValueError]. *)

Definition to_ascii (c : N) : N :=
  if c <? 127 then c
  else if is_space c then 32
  else match to_decimal c with
       | Some d => 48 + d
       | None => 63
       end.

(** [Py_ISSPACE]. *)
Definition is_c_space (c : N) : bool := ((9 <=? c) && (c <=? 13)) || (c =? 32).

Definition is_c_digit (c : N) : bool := (48 <=? c) && (c <=? 57).

Fixpoint skip_c_space (s : pystr) : pystr :=
  match s with
  | [] => []
  | c :: s' => if is_c_space c then skip_c_space s' else s
  end.

(** The digit run of [long_from_string_base]: [prev_us] tells that the
    previous character was an underscore; the result is the value, the
    number of digits and the rest of the text. *)
Fixpoint digit_run (s : pystr) (prev_us : bool) (acc : Z) (digits : nat)
    : option (Z * nat * pystr) :=
  match s with
  | [] => if prev_us then None else Some (acc, digits, [])
  | c :: s' =>
      if is_c_digit c then digit_run s' false (10 * acc + Z.of_N (c - 48))%Z (S digits)
      else if c =? 95 then
        if prev_us then None else digit_run s' true acc digits
      else if prev_us then None else Some (acc, digits, s)
  end.

Definition max_str_digits : nat := 4300.

Definition parse_digits (s : pystr) : option Z :=
  match s with
  | [] => None
  | c :: _ =>
      if c =? 95 then None
      else match digit_run s false 0%Z 0%nat with
           | Some (v, digits, rest) =>
               match digits, skip_c_space rest with
               | O, _ => None
               | _, [] => if Nat.ltb max_str_digits digits then None else Some v
               | _, _ :: _ => None
               end
           | None => None
           end
  end.

Definition py_int (s : pystr) : option Z :=
  match skip_c_space (map to_ascii s) with
  | 43 :: s' => parse_digits s'
  | 45 :: s' => option_map Z.opp (parse_digits s')
  | s' => parse_digits s'
  end.

End PyStr.

Module Regex.

Import Unicode PyStr.
Local Open Scope N_scope.

(** The members of a character set: the class [\w] or one character. *)
Inductive atom : Type :=
| Word : atom
| Chr : N -> atom.

(** The pieces of a pattern: [^], [$], one literal character, and a
    character set under [+]. *)
Inductive item : Type :=
| Bol : item
| Eol : item
| Lit : N -> item
| SetPlus : list atom -> item.

(** [\w] in a [str] pattern: alphanumeric or underscore. *)
Definition is_word (c : N) : bool := is_alnum c || (c =? 95).

Definition in_atom (c : N) (a : atom) : bool :=
  match a with
  | Word => is_word c
  | Chr d => d =? c
  end.

Definition in_set (set : list atom) (c : N) : bool := existsb (in_atom c) set.

(** [$] without MULTILINE: at the end, or just before a newline that ends
    the string. *)
Definition at_eol (s : pystr) : bool :=
  match s with
  | [] => true
  | [10] => true
  | _ => false
  end.

(** The rest of a greedy [+] over a character set, after its first
    character: take one more character and go on, or else hand over to the
    continuation [k], the match of the rest of the pattern. *)
Fixpoint plus_loop (set : list atom) (k : pystr -> bool) (t : pystr) : bool :=
  match t with
  | y :: t' => (in_set set y && plus_loop set k t') || k t
  | [] => k t
  end.

(** Backtracking match of the pattern at the current position; [at_start]
    tells that nothing was consumed yet. *)
Fixpoint match_here (p : list item) : bool -> pystr -> bool :=
  match p with
  | [] => fun _ _ => true
  | Bol :: p' => fun at_start s => at_start && match_here p' at_start s
  | Eol :: p' => fun at_start s => at_eol s && match_here p' at_start s
  | Lit c :: p' => fun _ s =>
      match s with
      | x :: s' => (x =? c) && match_here p' false s'
      | [] => false
      end
  | SetPlus set :: p' => fun _ s =>
      match s with
      | x :: s' => in_set set x && plus_loop set (match_here p' false) s'
      | [] => false
      end
  end.

(** [re.match(p, s) is not None]. *)
Definition re_match (p : list item) (s : pystr) : bool := match_here p true s.

End Regex.

Module Csv.

Import PyStr.
Local Open Scope N_scope.

(** ** The excel dialect *)

Definition delimiter : N := 44.
Definition quotechar : N := 34.
Definition lineterminator : pystr := [13; 10].

(** [csv.field_size_limit()]. *)
Definition field_limit : N := 131072.

(** ** Writer (QUOTE_MINIMAL, doublequote) *)

(** A field is quoted when it holds the delimiter, the quote character or
    a character of the line terminator. *)
Definition needs_quotes (c : N) : bool :=
  (c =? delimiter) || (c =? quotechar) || existsb (N.eqb c) lineterminator.

Definition escape_char (c : N) : pystr :=
  if c =? quotechar then [quotechar; c] else [c].

Definition write_field (f : pystr) : pystr :=
  if existsb needs_quotes f
  then quotechar :: flat_map escape_char f ++ [quotechar]
  else flat_map escape_char f.

Fixpoint join_fields (fs : list pystr) : pystr :=
  match fs with
  | [] => []
  | [f] => write_field f
  | f :: fs' => write_field f ++ delimiter :: join_fields fs'
  end.

(** [writer.writerow]: a row made of one empty field is written as a pair
    of quotes. *)
Definition write_row (row : list pystr) : pystr :=
  match row with
  | [[]] => [quotechar; quotechar] ++ lineterminator
  | _ => join_fields row ++ lineterminator
  end.

(** ** Lines of a text file opened with [newline=""]: split after [\n],
    [\r\n] or a lone [\r], terminators kept. *)

Fixpoint lines_from (cur : pystr) (text : pystr) : list pystr :=
  match text with
  | [] => match cur with [] => [] | _ => [rev' cur] end
  | c :: text' =>
      if c =? 10 then rev' (c :: cur) :: lines_from [] text'
      else if c =? 13 then
        match text' with
        | d :: text'' =>
            if d =? 10 then rev' (d :: c :: cur) :: lines_from [] text''
            else rev' (c :: cur) :: lines_from [] text'
        | [] => [rev' (c :: cur)]
        end
      else lines_from (c :: cur) text'
  end.

Definition file_lines (text : pystr) : list pystr := lines_from [] text.

(** ** Reader *)

Inductive parser_state : Type :=
| START_RECORD | START_FIELD | IN_FIELD | IN_QUOTED_FIELD
| QUOTE_IN_QUOTED_FIELD | EAT_CRNL.

(** The fields of the record read so far and the characters of the
    current field, both latest first. *)
Record parser : Type := {
  state : parser_state;
  fields : list pystr;
  field : pystr;
  field_len : N
}.

Definition parse_reset : parser :=
  {| state := START_RECORD; fields := []; field := []; field_len := 0 |}.

Definition set_state (st : parser_state) (p : parser) : parser :=
  {| state := st; fields := fields p; field := field p; field_len := field_len p |}.

(** [parse_add_char]: [None] is the error "field larger than field limit". *)
Definition parse_add_char (c : N) (p : parser) : option parser :=
  if field_limit <=? field_len p then None
  else Some {| state := state p; fields := fields p;
               field := c :: field p; field_len := field_len p + 1 |}.

Definition parse_save_field (p : parser) : parser :=
  {| state := state p; fields := rev' (field p) :: fields p;
     field := []; field_len := 0 |}.

Definition is_newline (c : N) : bool := (c =? 10) || (c =? 13).

(** [parse_process_char]; the character [None] is the end-of-line mark the
    reader feeds after every line.  The result [None] is [csv.Error].  The
    dialect has no escape character, does not skip initial blanks and is
    not strict, which leaves six of the parser's states. *)
Definition parse_process_char (p : parser) (c : option N) : option parser :=
  match state p, c with
  | START_RECORD, None => Some p
  | EAT_CRNL, None => Some (set_state START_RECORD p)
  | IN_QUOTED_FIELD, None => Some p
  | (START_FIELD | IN_FIELD | QUOTE_IN_QUOTED_FIELD), None =>
      Some (set_state START_RECORD (parse_save_field p))
  | START_RECORD, Some ch =>
      if is_newline ch then Some (set_state EAT_CRNL p)
      else if ch =? quotechar then Some (set_state IN_QUOTED_FIELD p)
      else if ch =? delimiter then Some (set_state START_FIELD (parse_save_field p))
      else option_map (set_state IN_FIELD) (parse_add_char ch p)
  | START_FIELD, Some ch =>
      if is_newline ch then Some (set_state EAT_CRNL (parse_save_field p))
      else if ch =? quotechar then Some (set_state IN_QUOTED_FIELD p)
      else if ch =? delimiter then Some (parse_save_field p)
      else option_map (set_state IN_FIELD) (parse_add_char ch p)
  | IN_FIELD, Some ch =>
      if is_newline ch then Some (set_state EAT_CRNL (parse_save_field p))
      else if ch =? delimiter then Some (set_state START_FIELD (parse_save_field p))
      else parse_add_char ch p
  | IN_QUOTED_FIELD, Some ch =>
      if ch =? quotechar then Some (set_state QUOTE_IN_QUOTED_FIELD p)
      else parse_add_char ch p
  | QUOTE_IN_QUOTED_FIELD, Some ch =>
      if ch =? quotechar then option_map (set_state IN_QUOTED_FIELD) (parse_add_char ch p)
      else if ch =? delimiter then Some (set_state START_FIELD (parse_save_field p))
      else if is_newline ch then Some (set_state EAT_CRNL (parse_save_field p))
      else option_map (set_state IN_FIELD) (parse_add_char ch p)
  | EAT_CRNL, Some ch =>
      if is_newline ch then Some p else None
  end.

Fixpoint feed_chars (p : parser) (s : pystr) : option parser :=
  match s with
  | [] => Some p
  | c :: s' =>
      match parse_process_char p (Some c) with
      | Some p' => feed_chars p' s'
      | None => None
      end
  end.

(** One round of the loop of [Reader_iternext]: the characters of a line,
    then the end-of-line mark. *)
Definition feed_line (p : parser) (line : pystr) : option parser :=
  match feed_chars p line with
  | Some p' => parse_process_char p' None
  | None => None
  end.

(** How the iteration over a reader ends. *)
Inductive stop : Type :=
| StopIteration : stop
| Error : stop.

Definition is_start_record (st : parser_state) : bool :=
  match st with START_RECORD => true | _ => false end.

Definition is_in_quoted_field (st : parser_state) : bool :=
  match st with IN_QUOTED_FIELD => true | _ => false end.

(** The records that successive calls of [next(reader)] return, and how
    the iteration ends.  A record is complete when the parser is back in
    [START_RECORD] after a line; at the end of the input a record left
    open inside a quoted field is returned as it stands. *)
Fixpoint read_from (p : parser) (lines : list pystr) : list (list pystr) * stop :=
  match lines with
  | [] =>
      if negb (field_len p =? 0) || is_in_quoted_field (state p)
      then ([rev' (fields (parse_save_field p))], StopIteration)
      else ([], StopIteration)
  | line :: lines' =>
      match feed_line p line with
      | None => ([], Error)
      | Some p' =>
          if is_start_record (state p')
          then let (rows, e) := read_from parse_reset lines' in
               (rev' (fields p') :: rows, e)
          else read_from p' lines'
      end
  end.

Definition reader (text : pystr) : list (list pystr) * stop :=
  read_from parse_reset (file_lines text).

End Csv.

(** * The program *)

Import Unicode PyStr.

(** ** Data *)

(** The dictionary [add_contact] builds, with [FIELDNAMES] as keys. *)
Record Contact : Type := {
  first_name : pystr;
  middle_name : pystr;
  last_name : pystr;
  number : pystr;
  email : pystr
}.

Definition FIELDNAMES : list pystr :=
  [lit "first_name"; lit "middle_name"; lit "last_name"; lit "number"; lit "email"].

(** Equality of rows of strings and of contacts ([==] on lists and on
    dictionaries compares values). *)
Fixpoint row_eqb (a b : list pystr) : bool :=
  match a, b with
  | [], [] => true
  | x :: a', y :: b' => str_eqb x y && row_eqb a' b'
  | _, _ => false
  end.

Definition contact_row (c : Contact) : list pystr :=
  [first_name c; middle_name c; last_name c; number c; email c].

Definition contact_eqb (a b : Contact) : bool :=
  row_eqb (contact_row a) (contact_row b).

(** The dictionary [DictReader] makes of a row with as many fields as
    [FIELDNAMES]. *)
Definition row_contact (row : list pystr) : option Contact :=
  match row with
  | [f; m; l; n; e] =>
      Some {| first_name := f; middle_name := m; last_name := l;
              number := n; email := e |}
  | _ => None
  end.

(** The memory of the process ([contacts]), the backing file
    ([CONTACTS_FILE]; [None] when it does not exist) and what was written
    to standard output. *)
Record State : Type := {
  contacts : list Contact;
  file : option pystr;
  stdout : list pystr
}.

Definition set_contacts (cs : list Contact) (s : State) : State :=
  {| contacts := cs; file := file s; stdout := stdout s |}.

Definition set_file (f : option pystr) (s : State) : State :=
  {| contacts := contacts s; file := f; stdout := stdout s |}.

Definition write (chunk : pystr) (s : State) : State :=
  {| contacts := contacts s; file := file s; stdout := stdout s ++ [chunk] |}.

(** [print(text)]. *)
Definition print (text : pystr) (s : State) : State := write (text ++ nl) s.

(** Exceptions that leave a command.  [RaggedRow] is not a Python
    exception: it marks that [load_contacts] met a data row with fewer or
    more than five fields, for which [DictReader] builds a dictionary with
    a [None] value or a [None] key; the contact record does not represent
    those, and the model stops there. *)
Inductive exn : Type :=
| EOFError : exn
| CsvError : exn
| IndexError : exn
| RaggedRow : exn.

(** The result of running a piece of the program on the lines waiting on
    standard input: a value, the lines left and the new state, or an
    exception. *)
Inductive result (A : Type) : Type :=
| Ret : A -> list pystr -> State -> result A
| Exc : exn -> list pystr -> State -> result A.

Arguments Exc {A} _ _ _.

(** The state a run ends in, returned or raised. *)
Definition final_state {A : Type} (r : result A) : State :=
  match r with
  | Ret _ _ s => s
  | Exc _ _ s => s
  end.

Definition M (A : Type) : Type := list pystr -> State -> result A.

Definition ret {A : Type} (a : A) : M A := fun lines s => Ret a lines s.

Definition bind {A B : Type} (m : M A) (k : A -> M B) : M B :=
  fun lines s =>
    match m lines s with
    | Ret a lines' s' => k a lines' s'
    | Exc e lines' s' => Exc e lines' s'
    end.

Notation "x <- m ;; k" := (bind m (fun x => k))
  (at level 61, m at next level, right associativity).
Notation "m ;;; k" := (bind m (fun _ => k))
  (at level 61, right associativity).

Definition lift (f : State -> State) : M unit := fun lines s => Ret tt lines (f s).

Definition get_contacts : M (list Contact) := fun lines s => Ret (contacts s) lines s.

(** [input(prompt)]. *)
Definition input (prompt : pystr) : M pystr :=
  fun lines s =>
    match lines with
    | [] => Exc EOFError [] (write prompt s)
    | line :: lines' => Ret line lines' (write prompt s)
    end.

(** ** Validators *)

Definition validate_name (name : pystr) (allow_blank : bool) : bool :=
  if allow_blank && str_eqb name [] then true
  else isalpha name.

Definition validate_number (number : pystr) (allow_blank : bool) : bool :=
  if allow_blank && str_eqb number [] then true
  else isdigit number && (length number =? 10)%nat.

(** The pattern [^[\w\.-]+@[\w\.-]+\.\w+$]. *)
Definition email_pattern : list Regex.item :=
  [Regex.Bol;
   Regex.SetPlus [Regex.Word; Regex.Chr 46%N; Regex.Chr 45%N];
   Regex.Lit 64%N;
   Regex.SetPlus [Regex.Word; Regex.Chr 46%N; Regex.Chr 45%N];
   Regex.Lit 46%N;
   Regex.SetPlus [Regex.Word];
   Regex.Eol].

Definition validate_email (email : pystr) (allow_blank : bool) : bool :=
  if allow_blank && str_eqb email [] then true
  else Regex.re_match email_pattern email.

(** ** Record store *)

Definition csv_text (cs : list Contact) : pystr :=
  Csv.write_row FIELDNAMES ++ flat_map (fun c => Csv.write_row (contact_row c)) cs.

(** [sep.join(l)]. *)
Fixpoint str_join (sep : pystr) (l : list pystr) : pystr :=
  match l with
  | [] => []
  | [x] => x
  | x :: l' => x ++ sep ++ str_join sep l'
  end.

(** [f"Invalid CSV format. Expected headers: {', '.join(FIELDNAMES)}"]. *)
Definition invalid_format_message : pystr :=
  lit "Invalid CSV format. Expected headers: " ++ str_join (lit ", ") FIELDNAMES.

(** The loop [for row in reader: contacts.append(row)]; [DictReader] skips
    empty rows. *)
Fixpoint append_rows (rows : list (list pystr)) (e : Csv.stop) : M unit :=
  fun lines s =>
    match rows with
    | [] =>
        match e with
        | Csv.StopIteration => Ret tt lines s
        | Csv.Error => Exc CsvError lines s
        end
    | [] :: rows' => append_rows rows' e lines s
    | row :: rows' =>
        match row_contact row with
        | Some c => append_rows rows' e lines (set_contacts (contacts s ++ [c]) s)
        | None => Exc RaggedRow lines s
        end
    end.

Definition load_contacts : M unit :=
  fun lines s =>
    let s := set_contacts [] s in
    match file s with
    | None => Ret tt lines s
    | Some text =>
        match Csv.reader text with
        | ([], Csv.Error) => Exc CsvError lines s
        | ([], Csv.StopIteration) => Ret tt lines (print invalid_format_message s)
        | (header :: rows, e) =>
            if negb (row_eqb header FIELDNAMES)
            then Ret tt lines (print invalid_format_message s)
            else append_rows rows e lines s
        end
    end.

(** [save_contacts] when the file can be opened and its text encoded (the
    conventions of the header): the file becomes the header line and one
    line for each contact, and the success is reported. *)
Definition save (s : State) : State :=
  print (lit "Changes saved.") (set_file (Some (csv_text (contacts s))) s).

Definition save_contacts : M unit := lift save.

Definition init_contacts : M unit :=
  fun lines s =>
    match file s with
    | None => load_contacts lines (set_file (Some (Csv.write_row FIELDNAMES)) s)
    | Some _ => load_contacts lines s
    end.

(** ** Display *)

(** [f"{first} {middle} {last}".strip()]. *)
Definition full_name (c : Contact) : pystr :=
  strip (first_name c ++ lit " " ++ middle_name c ++ lit " " ++ last_name c).

(** The sort key and uniqueness key of a contact. *)
Definition name_key (c : Contact) : pystr := lower (full_name c).

(** The format ["{:<4} {:<27} {:<15} {:<30}"]. *)
Definition table_row (a b c d : pystr) : pystr :=
  ljust 4 a ++ lit " " ++ ljust 27 b ++ lit " " ++ ljust 15 c ++ lit " " ++ ljust 30 d.

Fixpoint print_rows (i : nat) (l : list Contact) (s : State) : State :=
  match l with
  | [] => s
  | c :: l' =>
      print_rows (S i) l'
        (print (table_row (str_of_nat i ++ lit ".") (full_name c) (number c) (email c)) s)
  end.

Definition print_contacts (contact_list : list Contact) (s : State) : State :=
  match contact_list with
  | [] => print (lit "No contacts to display.") s
  | _ =>
      print []
        (print_rows 1 contact_list
           (print (nl ++ table_row [] (lit "Name") (lit "Number") (lit "Email")) s))
  end.

(** ** [sorted(l, key=...)]: a stable sort; insertion from the right keeps
    the order of elements with equal keys. *)
Section Sorted.
Variable A : Type.
Variable key : A -> pystr.

Fixpoint insert_by (x : A) (l : list A) : list A :=
  match l with
  | [] => [x]
  | y :: l' => if str_ltb (key y) (key x) then y :: insert_by x l' else x :: l
  end.

Fixpoint py_sorted (l : list A) : list A :=
  match l with
  | [] => []
  | x :: l' => insert_by x (py_sorted l')
  end.
End Sorted.

Definition sorted_contacts (cs : list Contact) : list Contact :=
  py_sorted name_key cs.

(** The same listing with, for every entry, its position in [contacts]:
    the entries of the sorted list are the very dictionaries of
    [contacts], and [edit_contact] writes through them. *)
Definition sorted_entries (cs : list Contact) : list (nat * Contact) :=
  py_sorted (fun e => name_key (snd e)) (combine (seq 0 (length cs)) cs).

(** The numbered names that View, Delete and Edit list. *)
Fixpoint print_names (i : nat) (l : list Contact) (s : State) : State :=
  match l with
  | [] => s
  | c :: l' => print_names (S i) l' (print (str_of_nat i ++ lit ". " ++ full_name c) s)
  end.

Definition in_range (choice : Z) (n : nat) : bool :=
  ((1 <=? choice) && (choice <=? Z.of_nat n))%Z.

Definition index_of (choice : Z) : nat := Z.to_nat (choice - 1).

(** ** Add *)

(** The three name loops: read a line, trim it, put it in title case, and
    ask again until it is a valid name. *)
Fixpoint ask_name (prompt err : pystr) (allow_blank : bool)
    (lines : list pystr) (s : State) : result pystr :=
  match lines with
  | [] => Exc EOFError [] (write prompt s)
  | line :: lines' =>
      let name := title (strip line) in
      if validate_name name allow_blank
      then Ret name lines' (write prompt s)
      else ask_name prompt err allow_blank lines' (print err (write prompt s))
  end.

(** The number loop: [None] when the number is taken, which ends the whole
    command. *)
Fixpoint ask_number (lines : list pystr) (s : State) : result (option pystr) :=
  match lines with
  | [] => Exc EOFError [] (write (lit "Enter phone number: ") s)
  | line :: lines' =>
      let s1 := write (lit "Enter phone number: ") s in
      let number' := strip line in
      if negb (validate_number number' false)
      then ask_number lines' (print (lit "Invalid phone number. Must be exactly 10 digits.") s1)
      else if existsb (fun c => str_eqb (number c) number') (contacts s)
      then Ret None lines' (print (lit "This phone number already exists.") s1)
      else Ret (Some number') lines' s1
  end.

Fixpoint ask_email (lines : list pystr) (s : State) : result (option pystr) :=
  match lines with
  | [] => Exc EOFError [] (write (lit "Enter email: ") s)
  | line :: lines' =>
      let s1 := write (lit "Enter email: ") s in
      let email' := strip line in
      if negb (validate_email email' false)
      then ask_email lines' (print (lit "Invalid email format.") s1)
      else if existsb (fun c => str_eqb (lower (email c)) (lower email')) (contacts s)
      then Ret None lines' (print (lit "This email already exists.") s1)
      else Ret (Some email') lines' s1
  end.

Definition add_contact : M unit :=
  lift (print (nl ++ lit "--- Add Contact ---")) ;;;
  first <- ask_name (lit "Enter first name: ")
             (lit "Invalid first name. Use alphabetic characters only.") false ;;
  middle <- ask_name (lit "Enter middle name (press Enter to skip): ")
              (lit "Invalid middle name. Use alphabetic characters only.") true ;;
  last <- ask_name (lit "Enter last name: ")
            (lit "Invalid last name. Use alphabetic characters only.") false ;;
  cs <- get_contacts ;;
  let full := strip (first ++ lit " " ++ middle ++ lit " " ++ last) in
  if existsb (str_eqb (lower full)) (map name_key cs)
  then lift (print (lit "This contact name already exists."))
  else
    n <- ask_number ;;
    match n with
    | None => ret tt
    | Some number' =>
        e <- ask_email ;;
        match e with
        | None => ret tt
        | Some email' =>
            lift (fun s =>
                    set_contacts
                      (contacts s ++
                         [{| first_name := first; middle_name := middle;
                             last_name := last; number := number';
                             email := email' |}]) s) ;;;
            save_contacts ;;;
            lift (print (lit "Contact '" ++ full ++ lit "' added successfully!"))
        end
    end.

(** ** View *)

Fixpoint view_loop (listing : list Contact) (lines : list pystr) (s : State)
    : result unit :=
  match lines with
  | [] => Exc EOFError [] (write (nl ++ lit "Enter the index of the contact to view details: ") s)
  | line :: lines' =>
      let s1 := write (nl ++ lit "Enter the index of the contact to view details: ") s in
      match py_int line with
      | Some choice =>
          if in_range choice (length listing) then
            match nth_error listing (index_of choice) with
            | Some selected => Ret tt lines' (print_contacts [selected] s1)
            | None => Exc IndexError lines' s1
            end
          else view_loop listing lines' (print (lit "Invalid index.") s1)
      | None => view_loop listing lines' (print (lit "Please enter a valid number.") s1)
      end
  end.

Definition view_contacts : M unit :=
  fun lines s =>
    match contacts s with
    | [] => Ret tt lines (print (lit "No contacts to display.") s)
    | _ =>
        let listing := sorted_contacts (contacts s) in
        view_loop listing lines
          (print_names 1 listing (print (nl ++ lit "Contacts:") s))
    end.

(** ** Delete *)

(** [contacts.remove(contact)]: the first element equal to [contact] goes;
    the command only removes an element of the list. *)
Fixpoint remove_first (c : Contact) (cs : list Contact) : list Contact :=
  match cs with
  | [] => []
  | x :: cs' => if contact_eqb x c then cs' else x :: remove_first c cs'
  end.

Definition confirm_prompt (c : Contact) : pystr :=
  lit "Are you sure you want to delete " ++ full_name c ++ lit "'s contact? (y/n): ".

Fixpoint delete_loop (listing : list Contact) (lines : list pystr) (s : State)
    : result unit :=
  match lines with
  | [] => Exc EOFError [] (write (lit "Enter the index of the contact to delete: ") s)
  | line :: lines1 =>
      let s1 := write (lit "Enter the index of the contact to delete: ") s in
      match py_int line with
      | Some choice =>
          if in_range choice (length listing) then
            match nth_error listing (index_of choice) with
            | Some contact =>
                match lines1 with
                | [] => Exc EOFError [] (write (confirm_prompt contact) s1)
                | answer :: lines2 =>
                    let s2 := write (confirm_prompt contact) s1 in
                    if str_eqb (lower (strip answer)) (lit "y") then
                      Ret tt lines2
                        (print (lit "Contact for " ++ full_name contact ++ lit " deleted successfully.")
                           (save (set_contacts (remove_first contact (contacts s2)) s2)))
                    else Ret tt lines2 (print (lit "Deletion cancelled.") s2)
                end
            | None => Exc IndexError lines1 s1
            end
          else delete_loop listing lines1 (print (lit "Invalid index.") s1)
      | None => delete_loop listing lines1 (print (lit "Invalid input. Please enter a number.") s1)
      end
  end.

Definition delete_contact : M unit :=
  fun lines s =>
    match contacts s with
    | [] => Ret tt lines (print (lit "No contacts to delete.") s)
    | _ =>
        let listing := sorted_contacts (contacts s) in
        delete_loop listing lines
          (print_names 1 listing (print (nl ++ lit "Contacts:") s))
    end.

(** ** Edit *)

Definition with_first_name (v : pystr) (c : Contact) : Contact :=
  {| first_name := v; middle_name := middle_name c; last_name := last_name c;
     number := number c; email := email c |}.

Definition with_middle_name (v : pystr) (c : Contact) : Contact :=
  {| first_name := first_name c; middle_name := v; last_name := last_name c;
     number := number c; email := email c |}.

Definition with_last_name (v : pystr) (c : Contact) : Contact :=
  {| first_name := first_name c; middle_name := middle_name c; last_name := v;
     number := number c; email := email c |}.

Definition with_number (v : pystr) (c : Contact) : Contact :=
  {| first_name := first_name c; middle_name := middle_name c;
     last_name := last_name c; number := v; email := email c |}.

Definition with_email (v : pystr) (c : Contact) : Contact :=
  {| first_name := first_name c; middle_name := middle_name c;
     last_name := last_name c; number := number c; email := v |}.

(** Assignment to a key of the dictionary at position [j] of [contacts]. *)
Fixpoint set_nth (j : nat) (c : Contact) (cs : list Contact) : list Contact :=
  match cs, j with
  | [], _ => []
  | _ :: cs', O => c :: cs'
  | x :: cs', S j' => x :: set_nth j' c cs'
  end.

Definition assign (j : nat) (c : Contact) (s : State) : State :=
  set_contacts (set_nth j c (contacts s)) s.

Definition print_menu (s : State) : State :=
  print (lit "6. Done")
    (print (lit "5. Email")
       (print (lit "4. Number")
          (print (lit "3. Last name")
             (print (lit "2. Middle name")
                (print (lit "1. First name")
                   (print (nl ++ lit "Choose what to edit:") s)))))).

(** The field loop; [j] is the position in [contacts] of the dictionary
    being edited.  Every pass shows the menu and reads a choice; the
    choices 1 to 5 read one more line. *)
Fixpoint edit_loop (j : nat) (lines : list pystr) (s : State) : result unit :=
  match lines with
  | [] => Exc EOFError [] (write (lit "Enter choice: ") (print_menu s))
  | line :: lines1 =>
      let s1 := write (lit "Enter choice: ") (print_menu s) in
      match py_int line, nth_error (contacts s) j with
      | None, _ => edit_loop j lines1 (print (lit "Enter a valid option!") s1)
      | Some _, None => Exc IndexError lines1 s1
      | Some option, Some contact_to_edit =>
          if (option =? 1)%Z then
            let s2 := print (lit "Current first name: " ++ first_name contact_to_edit) s1 in
            match lines1 with
            | [] => Exc EOFError [] (write (lit "Enter new first name: ") s2)
            | line2 :: lines2 =>
                let s3 := write (lit "Enter new first name: ") s2 in
                let new_first := title (strip line2) in
                if validate_name new_first false
                then edit_loop j lines2
                       (print (lit "First name updated.")
                          (save (assign j (with_first_name new_first contact_to_edit) s3)))
                else edit_loop j lines2 (print (lit "Invalid first name.") s3)
            end
          else if (option =? 2)%Z then
            let s2 := print (lit "Current middle name: " ++
                               match middle_name contact_to_edit with
                               | [] => lit "(empty)"
                               | m => m
                               end) s1 in
            match lines1 with
            | [] => Exc EOFError [] (write (lit "Enter new middle name: ") s2)
            | line2 :: lines2 =>
                let s3 := write (lit "Enter new middle name: ") s2 in
                let new_middle := title (strip line2) in
                if str_eqb new_middle [] || validate_name new_middle false
                then edit_loop j lines2
                       (print (lit "Middle name updated.")
                          (save (assign j (with_middle_name new_middle contact_to_edit) s3)))
                else edit_loop j lines2 (print (lit "Invalid middle name.") s3)
            end
          else if (option =? 3)%Z then
            let s2 := print (lit "Current last name: " ++ last_name contact_to_edit) s1 in
            match lines1 with
            | [] => Exc EOFError [] (write (lit "Enter new last name: ") s2)
            | line2 :: lines2 =>
                let s3 := write (lit "Enter new last name: ") s2 in
                let new_last := title (strip line2) in
                if validate_name new_last false
                then edit_loop j lines2
                       (print (lit "Last name updated.")
                          (save (assign j (with_last_name new_last contact_to_edit) s3)))
                else edit_loop j lines2 (print (lit "Invalid last name.") s3)
            end
          else if (option =? 4)%Z then
            let s2 := print (lit "Current number: " ++ number contact_to_edit) s1 in
            match lines1 with
            | [] => Exc EOFError [] (write (lit "Enter new number: ") s2)
            | line2 :: lines2 =>
                let s3 := write (lit "Enter new number: ") s2 in
                let new_number := strip line2 in
                if negb (validate_number new_number false)
                then edit_loop j lines2 (print (lit "Invalid number! Must be exactly 10 digits.") s3)
                else if existsb (fun contact => str_eqb (number contact) new_number
                                                && negb (contact_eqb contact contact_to_edit))
                          (contacts s)
                then edit_loop j lines2 (print (lit "This phone number already exists.") s3)
                else edit_loop j lines2
                       (print (lit "Number updated.")
                          (save (assign j (with_number new_number contact_to_edit) s3)))
            end
          else if (option =? 5)%Z then
            let s2 := print (lit "Current email: " ++ email contact_to_edit) s1 in
            match lines1 with
            | [] => Exc EOFError [] (write (lit "Enter new email: ") s2)
            | line2 :: lines2 =>
                let s3 := write (lit "Enter new email: ") s2 in
                let new_email := strip line2 in
                if negb (validate_email new_email false)
                then edit_loop j lines2 (print (lit "Invalid email format.") s3)
                else if existsb (fun contact => str_eqb (lower (email contact)) (lower new_email)
                                                && negb (contact_eqb contact contact_to_edit))
                          (contacts s)
                then edit_loop j lines2 (print (lit "This email already exists.") s3)
                else edit_loop j lines2
                       (print (lit "Email updated.")
                          (save (assign j (with_email new_email contact_to_edit) s3)))
            end
          else if (option =? 6)%Z then
            Ret tt lines1 (print (lit "Finished editing contact.") (save s1))
          else edit_loop j lines1 (print (lit "Invalid option. Try again.") s1)
      end
  end.

Definition edit_contact : M unit :=
  fun lines s =>
    match contacts s with
    | [] => Ret tt lines (print (lit "No contacts to edit.") s)
    | _ =>
        let entries := sorted_entries (contacts s) in
        let s1 := print_names 1 (map snd entries) (print (nl ++ lit "Contacts:") s) in
        match lines with
        | [] => Exc EOFError [] (write (lit "Enter the index of the contact to edit: ") s1)
        | line :: lines' =>
            let s2 := write (lit "Enter the index of the contact to edit: ") s1 in
            match py_int line with
            | Some choice =>
                if in_range choice (length entries) then
                  match nth_error entries (index_of choice) with
                  | Some (j, _) => edit_loop j lines' s2
                  | None => Exc IndexError lines' s2
                  end
                else Ret tt lines' (print (lit "Invalid index.") s2)
            | None => Ret tt lines' (print (lit "Invalid input. Please enter a number.") s2)
            end
        end
    end.

(** * Vocabulary of the properties *)

(** ** Uniqueness of names *)

(** No two contacts have the same trimmed, lower-cased full name. *)
Definition unique_names (cs : list Contact) : Prop := NoDup (map name_key cs).

(** ** Index selection *)

(** A line that the index prompts of View and Delete refuse: not a number,
    or a number outside [1 .. n]. *)
Definition refused_choice (n : nat) (line : pystr) : bool :=
  match py_int line with
  | Some choice => negb (in_range choice n)
  | None => true
  end.

(** What the numbered listing writes for the contacts [l], numbered from [i]. *)
Fixpoint names_listing (i : nat) (l : list Contact) : list pystr :=
  match l with
  | [] => []
  | c :: l' => (str_of_nat i ++ lit ". " ++ full_name c ++ nl) :: names_listing (S i) l'
  end.

(** The table of [print_contacts], spelled out.  A value in a column is
    followed by the spaces it lacks to fill the column and is never cut;
    a row has four columns of 4, 27, 15 and 30 characters with one space
    between them; the heading names the last three. *)
Definition column (width : nat) (value : pystr) : pystr :=
  value ++ repeat 32%N (width - length value).

Definition detail_row (index name phone mail : pystr) : pystr :=
  column 4 index ++ [32%N] ++ column 27 name ++ [32%N]
    ++ column 15 phone ++ [32%N] ++ column 30 mail.

Definition table_heading : pystr :=
  lit "     Name                        Number          Email                         ".

(** The name a row shows: the three names joined by spaces and trimmed. *)
Definition shown_name (c : Contact) : pystr :=
  strip (first_name c ++ [32%N] ++ middle_name c ++ [32%N] ++ last_name c).

(** What [print_contacts] writes for one contact: an empty line and the
    heading, the row with name, number and email, and an empty line. *)
Definition detail_table (c : Contact) : list pystr :=
  [ [10%N] ++ table_heading ++ [10%N];
    detail_row (lit "1.") (shown_name c) (number c) (email c) ++ [10%N];
    [10%N] ].

(** What View writes for a run of refused lines. *)
Definition view_prompt : pystr :=
  nl ++ lit "Enter the index of the contact to view details: ".

Fixpoint view_retries (bad : list pystr) : list pystr :=
  match bad with
  | [] => []
  | line :: bad' =>
      view_prompt ::
      (match py_int line with
       | Some _ => lit "Invalid index." ++ nl
       | None => lit "Please enter a valid number." ++ nl
       end) :: view_retries bad'
  end.

Definition delete_prompt : pystr := lit "Enter the index of the contact to delete: ".

Fixpoint delete_retries (bad : list pystr) : list pystr :=
  match bad with
  | [] => []
  | line :: bad' =>
      delete_prompt ::
      (match py_int line with
       | Some _ => lit "Invalid index." ++ nl
       | None => lit "Invalid input. Please enter a number." ++ nl
       end) :: delete_retries bad'
  end.

(** [a <= b] on strings. *)
Definition str_leb (a b : pystr) : bool := negb (str_ltb b a).

(** Ascending order of the sort keys. *)
Definition key_le (A : Type) (key : A -> pystr) (a b : A) : Prop :=
  str_leb (key a) (key b) = true.

(** The state after the chunks [out] were written. *)
Definition emit (out : list pystr) (s : State) : State :=
  {| contacts := contacts s; file := file s; stdout := stdout s ++ out |}.

(** ** Numbers *)

(** A decimal digit in the widest sense, any Unicode decimal digit, and in
    the narrowest, one of [0] to [9]. *)
Definition decimal_digit (c : N) : Prop := is_decimal c = true.
Definition ascii_digit (c : N) : Prop := (48 <= c <= 57)%N.

(** ** Email addresses *)

(** A character of the set [[\w\.-]]: a letter, a digit or an underscore
    (a word character), a dot or a hyphen. *)
Definition email_char (c : N) : bool :=
  Regex.is_word c || (c =? 46)%N || (c =? 45)%N.

(** The wording of the specification: a local part, an at sign and a
    domain whose segments use the characters above, the segment after the
    last dot being non-empty. *)
Definition spec_email (s : pystr) : Prop :=
  exists local domain tld : pystr,
    s = local ++ [64%N] ++ domain ++ [46%N] ++ tld /\
    local <> [] /\ domain <> [] /\ tld <> [] /\
    Forall (fun c => email_char c = true) local /\
    Forall (fun c => email_char c = true) domain /\
    Forall (fun c => email_char c = true) tld /\
    ~ In 46%N tld.

(** What the pattern accepts, up to a final newline: the last segment is
    made of word characters only. *)
Definition email_shape (s : pystr) : Prop :=
  exists local domain tld : pystr,
    s = local ++ [64%N] ++ domain ++ [46%N] ++ tld /\
    local <> [] /\ domain <> [] /\ tld <> [] /\
    Forall (fun c => email_char c = true) local /\
    Forall (fun c => email_char c = true) domain /\
    Forall (fun c => Regex.is_word c = true) tld.

(** ** The backing file *)

(** A field within the field size limit of the CSV reader. *)
Definition field_fits (f : pystr) : Prop :=
  (N.of_nat (length f) <= Csv.field_limit)%N.

(** Every field of every contact is within that limit. *)
Definition fields_fit (cs : list Contact) : Prop :=
  Forall (fun c => Forall field_fits (contact_row c)) cs.

(** A character that UTF-8, the encoding of the file, can write: a code
    point that is not a surrogate.  A string can be written when all its
    characters can. *)
Definition utf8_char (c : N) : bool :=
  ((c <? 55296) || ((57343 <? c) && (c <? 1114112)))%N.

Definition encodable (text : pystr) : Prop :=
  Forall (fun c => utf8_char c = true) text.

Definition fields_encodable (cs : list Contact) : Prop :=
  Forall (fun c => Forall encodable (contact_row c)) cs.

(** [reader.fieldnames]: the first record of the file, if the reader gets
    that far. *)
Definition header_row (text : pystr) : option (list pystr) :=
  hd_error (fst (Csv.reader text)).

(** ** A one-pass view of the reader, for the proofs

    The reader works line by line; [csv_stream] reads the text character
    by character and closes a line where the file iteration would end one.
    [pending] tells that the current line already has characters. *)

Definition close_line (p : option Csv.parser)
    (k : Csv.parser -> list (list pystr) * Csv.stop) : list (list pystr) * Csv.stop :=
  match p with
  | None => ([], Csv.Error)
  | Some q =>
      if Csv.is_start_record (Csv.state q)
      then let (rows, e) := k Csv.parse_reset in (rev' (Csv.fields q) :: rows, e)
      else k q
  end.

Fixpoint csv_stream (p : Csv.parser) (pending : bool) (text : pystr)
    : list (list pystr) * Csv.stop :=
  match text with
  | [] =>
      if pending
      then close_line (Csv.parse_process_char p None) (fun q => Csv.read_from q [])
      else Csv.read_from p []
  | c :: text' =>
      if (c =? 10)%N then
        close_line (Csv.feed_line p [c]) (fun q => csv_stream q false text')
      else if (c =? 13)%N then
        match text' with
        | d :: text'' =>
            if (d =? 10)%N
            then close_line (Csv.feed_line p [c; d]) (fun q => csv_stream q false text'')
            else close_line (Csv.feed_line p [c]) (fun q => csv_stream q false text')
        | [] => close_line (Csv.feed_line p [c]) (fun q => Csv.read_from q [])
        end
      else
        match Csv.parse_process_char p (Some c) with
        | None => ([], Csv.Error)
        | Some p1 => csv_stream p1 true text'
        end
  end.

(** The parser after [g] was added to the current field. *)
Definition grow (g : pystr) (p : Csv.parser) : Csv.parser :=
  {| Csv.state := Csv.state p; Csv.fields := Csv.fields p;
     Csv.field := rev g ++ Csv.field p;
     Csv.field_len := (Csv.field_len p + N.of_nat (length g))%N |}.

Definition parser_at (st : Csv.parser_state) (fs : list pystr) (fl : pystr) (n : N)
    : Csv.parser :=
  {| Csv.state := st; Csv.fields := fs; Csv.field := fl; Csv.field_len := n |}.

(** The states in which the text of a field can end. *)
Definition field_end (st : Csv.parser_state) : Prop :=
  st = Csv.START_FIELD \/ st = Csv.IN_FIELD \/ st = Csv.QUOTE_IN_QUOTED_FIELD.

(** ** Add *)

(** A name as Add and Edit take it from a line: trimmed, in title case. *)
Definition clean_name (line : pystr) : pystr := title (strip line).

(** The contact Add builds from five input lines. *)
Definition new_contact (f m l n e : pystr) : Contact :=
  {| first_name := clean_name f; middle_name := clean_name m;
     last_name := clean_name l; number := strip n; email := strip e |}.

(** The key of the name entered on three lines. *)
Definition entered_key (f m l : pystr) : pystr :=
  lower (strip (clean_name f ++ lit " " ++ clean_name m ++ lit " " ++ clean_name l)).

(** The three uniqueness checks of Add against a collection. *)
Definition name_taken (cs : list Contact) (key : pystr) : bool :=
  existsb (str_eqb key) (map name_key cs).

Definition number_taken (cs : list Contact) (n : pystr) : bool :=
  existsb (fun c => str_eqb (number c) n) cs.

Definition email_taken (cs : list Contact) (e : pystr) : bool :=
  existsb (fun c => str_eqb (lower (email c)) (lower e)) cs.

(** What Add writes while it reads three valid names. *)
Definition add_name_prompts : list pystr :=
  [ (nl ++ lit "--- Add Contact ---") ++ nl;
    lit "Enter first name: ";
    lit "Enter middle name (press Enter to skip): ";
    lit "Enter last name: " ].

(** ** Edit *)

Definition edit_prompt : pystr := lit "Enter the index of the contact to edit: ".

(** What the field menu writes, with the prompt for the choice. *)
Definition menu_chunks : list pystr :=
  [ (nl ++ lit "Choose what to edit:") ++ nl;
    lit "1. First name" ++ nl; lit "2. Middle name" ++ nl; lit "3. Last name" ++ nl;
    lit "4. Number" ++ nl; lit "5. Email" ++ nl; lit "6. Done" ++ nl;
    lit "Enter choice: " ].


(** How many times a chunk was written. *)
Definition times_written (chunk : pystr) (out : list pystr) : nat :=
  length (filter (str_eqb chunk) out).

(** ** The menu *)

Definition print_main_menu (s : State) : State :=
  print (lit "5. Exit")
    (print (lit "4. Edit Contact")
       (print (lit "3. Delete Contact")
          (print (lit "2. View Contacts")
             (print (lit "1. Add Contact")
                (print (nl ++ lit "--- Contact Manager ---") s))))).

(** The loop of [menu].  A command may read any number of lines, so the
    loop is not structural in the input; [fuel] bounds the number of
    passes, and every pass reads at least one line ([menu_loop_total]
    below: one more pass than there are lines is always enough).  [None]
    means that the fuel ran out.  An exception of a command leaves the
    loop: [menu] catches nothing but the [ValueError] of [int]. *)
Fixpoint menu_loop (fuel : nat) (lines : list pystr) (s : State)
    : option (result unit) :=
  match fuel with
  | O => None
  | S fuel' =>
      match lines with
      | [] => Some (Exc EOFError [] (write (lit "Choose an option: ") (print_main_menu s)))
      | line :: lines1 =>
          let s1 := write (lit "Choose an option: ") (print_main_menu s) in
          let run (command : M unit) :=
            match command lines1 s1 with
            | Ret _ lines2 s2 => menu_loop fuel' lines2 s2
            | Exc e lines2 s2 => Some (Exc e lines2 s2)
            end in
          match py_int line with
          | None => menu_loop fuel' lines1 (print (lit "Enter a number (1-5).") s1)
          | Some choice =>
              if (choice =? 1)%Z then run add_contact
              else if (choice =? 2)%Z then run view_contacts
              else if (choice =? 3)%Z then run delete_contact
              else if (choice =? 4)%Z then run edit_contact
              else if (choice =? 5)%Z then Some (Ret tt lines1 (print (lit "Goodbye!") s1))
              else menu_loop fuel' lines1 (print (lit "Invalid choice.") s1)
          end
      end
  end.

(** [menu()], with fuel for one pass more than there are input lines. *)
Definition menu (lines : list pystr) (s : State) : option (result unit) :=
  match init_contacts lines s with
  | Ret _ lines1 s1 => menu_loop (S (length lines1)) lines1 s1
  | Exc e lines1 s1 => Some (Exc e lines1 s1)
  end.

(** ** Vocabulary of the store invariants *)

(** No two contacts share a number; no two share an email, compared in
    lower case. *)
Definition unique_numbers (cs : list Contact) : Prop := NoDup (map number cs).

Definition email_key (c : Contact) : pystr := lower (email c).

Definition unique_emails (cs : list Contact) : Prop := NoDup (map email_key cs).

(** The names and the number of the contact pass their validators, and
    the email has the shape of an address (which [validate_email]
    accepts). *)
Definition valid_contact (c : Contact) : Prop :=
  validate_name (first_name c) false = true /\
  validate_name (middle_name c) true = true /\
  validate_name (last_name c) false = true /\
  validate_number (number c) false = true /\
  email_shape (email c).

(** The backing file is the text that [save_contacts] writes for the
    collection in memory. *)
Definition mirrored (s : State) : Prop := file s = Some (csv_text (contacts s)).

Definition store_ok (s : State) : Prop :=
  unique_numbers (contacts s) /\ unique_emails (contacts s) /\
  Forall valid_contact (contacts s) /\ mirrored s.

(** The collection and the file are those of [s]. *)
Definition unchanged (s s' : State) : Prop :=
  contacts s' = contacts s /\ file s' = file s.

(** [rest] is what is left of [lines] after some lines were read. *)
Definition left_of (lines rest : list pystr) : Prop :=
  exists used, lines = used ++ rest.

(** The state [s'] is [s] with one contact appended and saved: a contact
    with valid fields whose name, number and email no contact of [s] has. *)
Definition added (s s' : State) : Prop :=
  exists c,
    contacts s' = contacts s ++ [c] /\
    file s' = Some (csv_text (contacts s')) /\
    valid_contact c /\
    name_taken (contacts s) (name_key c) = false /\
    number_taken (contacts s) (number c) = false /\
    email_taken (contacts s) (email c) = false.

(** The state [s'] is [s] with one contact of the listing removed and
    saved. *)
Definition removed (s s' : State) : Prop :=
  exists c,
    In c (contacts s) /\
    contacts s' = remove_first c (contacts s) /\
    file s' = Some (csv_text (contacts s')).

(** What one pass of the field loop of Edit can do to the state, for the
    contact at position [j]: write output, save, or assign one field that
    passed its checks and save. *)
Inductive edit_step (j : nat) : State -> State -> Prop :=
| step_output : forall s out, edit_step j s (emit out s)
| step_save : forall s, edit_step j s (save s)
| step_first_name : forall s c v,
    nth_error (contacts s) j = Some c ->
    validate_name v false = true ->
    edit_step j s (save (assign j (with_first_name v c) s))
| step_middle_name : forall s c v,
    nth_error (contacts s) j = Some c ->
    validate_name v true = true ->
    edit_step j s (save (assign j (with_middle_name v c) s))
| step_last_name : forall s c v,
    nth_error (contacts s) j = Some c ->
    validate_name v false = true ->
    edit_step j s (save (assign j (with_last_name v c) s))
| step_number : forall s c v,
    nth_error (contacts s) j = Some c ->
    validate_number v false = true ->
    existsb (fun x => str_eqb (number x) v && negb (contact_eqb x c)) (contacts s) = false ->
    edit_step j s (save (assign j (with_number v c) s))
| step_email : forall s c v,
    nth_error (contacts s) j = Some c ->
    email_shape v ->
    existsb (fun x => str_eqb (email_key x) (lower v) && negb (contact_eqb x c))
      (contacts s) = false ->
    edit_step j s (save (assign j (with_email v c) s)).

(** Any number of such passes. *)
Inductive edit_steps (j : nat) : State -> State -> Prop :=
| steps_none : forall s, edit_steps j s s
| steps_more : forall s s1 s2, edit_step j s s1 -> edit_steps j s1 s2 -> edit_steps j s s2.

(** The other contacts are where they were. *)
Definition same_elsewhere (j : nat) (cs cs' : list Contact) : Prop :=
  length cs' = length cs /\
  forall i, i <> j -> nth_error cs' i = nth_error cs i.

(** What the main menu writes, with the prompt for the choice. *)
Definition main_menu_chunks : list pystr :=
  [ (nl ++ lit "--- Contact Manager ---") ++ nl;
    lit "1. Add Contact" ++ nl; lit "2. View Contacts" ++ nl;
    lit "3. Delete Contact" ++ nl; lit "4. Edit Contact" ++ nl;
    lit "5. Exit" ++ nl; lit "Choose an option: " ].

(** A line of text without delimiter, quote or line end: the five fields
    joined by commas, and the line terminator. *)
Definition plain_record (c : Contact) : pystr :=
  first_name c ++ lit "," ++ middle_name c ++ lit "," ++ last_name c ++ lit ","
    ++ number c ++ lit "," ++ email c ++ [13%N; 10%N].

(** The setter of the name field that the choices 1, 2 and 3 of Edit
    assign, whether the field may be blank, and the words used for it. *)
Definition name_setter (option : Z) : pystr -> Contact -> Contact :=
  if (option =? 1)%Z then with_first_name
  else if (option =? 2)%Z then with_middle_name
  else with_last_name.

Definition name_getter (option : Z) : Contact -> pystr :=
  if (option =? 1)%Z then first_name
  else if (option =? 2)%Z then middle_name
  else last_name.

Definition name_word (option : Z) : pystr :=
  if (option =? 1)%Z then lit "first"
  else if (option =? 2)%Z then lit "middle"
  else lit "last".

Definition name_title (option : Z) : pystr :=
  if (option =? 1)%Z then lit "First"
  else if (option =? 2)%Z then lit "Middle"
  else lit "Last".

(** What Add writes for the lines it refuses at a prompt. *)
Fixpoint retries (prompt err : pystr) (bad : list pystr) : list pystr :=
  match bad with
  | [] => []
  | _ :: bad' => prompt :: (err ++ nl) :: retries prompt err bad'
  end.

(** A command that reads a tail of its input, is left only by [EOFError]
    and keeps the store sound. *)
Definition well_behaved (command : M unit) : Prop :=
  (forall lines s,
     match command lines s with
     | Ret _ rest _ => left_of lines rest
     | Exc e _ _ => e = EOFError
     end) /\
  (forall lines s, store_ok s -> store_ok (final_state (command lines s))).


(** A line that the main menu refuses: not a number, or a number that is
    none of the five choices; and what the menu writes for a run of such
    lines. *)
Definition refused_menu_choice (line : pystr) : bool :=
  match py_int line with
  | Some choice => negb ((1 <=? choice) && (choice <=? 5))%Z
  | None => true
  end.

Fixpoint main_menu_retries (bad : list pystr) : list pystr :=
  match bad with
  | [] => []
  | line :: bad' =>
      main_menu_chunks ++
      (match py_int line with
       | Some _ => lit "Invalid choice." ++ nl
       | None => lit "Enter a number (1-5)." ++ nl
       end) :: main_menu_retries bad'
  end.

(** The text of a backing file that holds the header alone. *)
Definition header_text : pystr :=
  lit "first_name,middle_name,last_name,number,email" ++ [13%N; 10%N].

(** What Add writes up to the prompt for the number when it refuses the
    lines [bf], [bm] and [bl] at the prompts for the names and the lines
    [bn] at the prompt for the number. *)
Definition add_number_dialogue (bf bm bl bn : list pystr) : list pystr :=
  [(nl ++ lit "--- Add Contact ---") ++ nl]
    ++ retries (lit "Enter first name: ")
         (lit "Invalid first name. Use alphabetic characters only.") bf
    ++ [lit "Enter first name: "]
    ++ retries (lit "Enter middle name (press Enter to skip): ")
         (lit "Invalid middle name. Use alphabetic characters only.") bm
    ++ [lit "Enter middle name (press Enter to skip): "]
    ++ retries (lit "Enter last name: ")
         (lit "Invalid last name. Use alphabetic characters only.") bl
    ++ [lit "Enter last name: "]
    ++ retries (lit "Enter phone number: ")
         (lit "Invalid phone number. Must be exactly 10 digits.") bn
    ++ [lit "Enter phone number: "].

(** What Add writes up to the last prompt when it refuses the lines [bf],
    [bm], [bl], [bn] and [be] at its five prompts. *)
Definition add_dialogue (bf bm bl bn be : list pystr) : list pystr :=
  [(nl ++ lit "--- Add Contact ---") ++ nl]
    ++ retries (lit "Enter first name: ")
         (lit "Invalid first name. Use alphabetic characters only.") bf
    ++ [lit "Enter first name: "]
    ++ retries (lit "Enter middle name (press Enter to skip): ")
         (lit "Invalid middle name. Use alphabetic characters only.") bm
    ++ [lit "Enter middle name (press Enter to skip): "]
    ++ retries (lit "Enter last name: ")
         (lit "Invalid last name. Use alphabetic characters only.") bl
    ++ [lit "Enter last name: "]
    ++ retries (lit "Enter phone number: ")
         (lit "Invalid phone number. Must be exactly 10 digits.") bn
    ++ [lit "Enter phone number: "]
    ++ retries (lit "Enter email: ") (lit "Invalid email format.") be
    ++ [lit "Enter email: "].

(** What View, Delete and Edit write first: the heading and the numbered
    names in sorted order. *)
Definition listing_chunks (cs : list Contact) : list pystr :=
  [nl ++ lit "Contacts:" ++ nl] ++ names_listing 1 (sorted_contacts cs).

(** What Edit shows of the current name for the choices 1, 2 and 3 (a
    blank middle name reads "(empty)"), and what it writes from the menu
    up to the point where the new value has been read. *)
Definition current_name (option : Z) (c : Contact) : pystr :=
  if (option =? 2)%Z then
    match middle_name c with
    | [] => lit "(empty)"
    | shown => shown
    end
  else name_getter option c.

Definition edit_name_chunks (option : Z) (c : Contact) : list pystr :=
  menu_chunks ++
  [(lit "Current " ++ name_word option ++ lit " name: " ++ current_name option c) ++ nl;
   lit "Enter new " ++ name_word option ++ lit " name: "].


(** A line that the field menu of Edit refuses: not a number, or a number
    that is none of the six choices; and what Edit writes for a run of
    such lines. *)
Definition refused_edit_option (line : pystr) : bool :=
  match py_int line with
  | Some option => negb ((1 <=? option) && (option <=? 6))%Z
  | None => true
  end.

Fixpoint edit_retries (bad : list pystr) : list pystr :=
  match bad with
  | [] => []
  | line :: bad' =>
      menu_chunks ++
      (match py_int line with
       | Some _ => lit "Invalid option. Try again." ++ nl
       | None => lit "Enter a valid option!" ++ nl
       end) :: edit_retries bad'
  end.

(** One of the letters [A] to [Z] and [a] to [z]. *)
Definition ascii_letter (c : N) : Prop := (65 <= c <= 90)%N \/ (97 <= c <= 122)%N.

(** The contacts whose sort key is [k], in the order of the list. *)
Definition with_key (k : pystr) (l : list Contact) : list Contact :=
  filter (fun c => str_eqb (name_key c) k) l.

(** * Properties *)

Unset Implicit Arguments.

(** ** Strings *)

Lemma rev'_rev : forall (A : Type) (l : list A), rev' l = rev l.
Proof. intros A l. unfold rev'. symmetry. apply rev_alt. Qed.

Lemma str_eqb_eq : forall a b, str_eqb a b = true <-> a = b.
Proof.
  induction a as [|x a IH]; destruct b as [|y b]; simpl; split; intro H;
    try reflexivity; try discriminate.
  - apply andb_true_iff in H. destruct H as [Hx Hab].
    apply N.eqb_eq in Hx. apply IH in Hab. now subst.
  - injection H as -> ->. apply andb_true_iff. split.
    + apply N.eqb_refl.
    + now apply IH.
Qed.

Lemma str_eqb_refl : forall a, str_eqb a a = true.
Proof. intro a. now apply str_eqb_eq. Qed.

Lemma str_eqb_neq : forall a b, str_eqb a b = false <-> a <> b.
Proof.
  intros a b. split.
  - intros H E. apply str_eqb_eq in E. congruence.
  - intro H. destruct (str_eqb a b) eqn:E; [|reflexivity].
    apply str_eqb_eq in E. contradiction.
Qed.

Lemma row_eqb_eq : forall a b, row_eqb a b = true <-> a = b.
Proof.
  induction a as [|x a IH]; destruct b as [|y b]; simpl; split; intro H;
    try reflexivity; try discriminate.
  - apply andb_true_iff in H. destruct H as [Hx Hab].
    apply str_eqb_eq in Hx. apply IH in Hab. now subst.
  - injection H as -> ->. apply andb_true_iff. split.
    + apply str_eqb_refl.
    + now apply IH.
Qed.

Lemma contact_row_inj : forall a b, contact_row a = contact_row b -> a = b.
Proof.
  intros [f1 m1 l1 n1 e1] [f2 m2 l2 n2 e2]. unfold contact_row. simpl.
  intro H. now injection H as -> -> -> -> ->.
Qed.

Lemma contact_eqb_eq : forall a b, contact_eqb a b = true <-> a = b.
Proof.
  intros a b. unfold contact_eqb. rewrite row_eqb_eq. split.
  - apply contact_row_inj.
  - now intros ->.
Qed.

Lemma contact_eqb_refl : forall a, contact_eqb a a = true.
Proof. intro a. now apply contact_eqb_eq. Qed.

Lemma contact_eqb_neq : forall a b, contact_eqb a b = false <-> a <> b.
Proof.
  intros a b. split.
  - intros H E. apply contact_eqb_eq in E. congruence.
  - intro H. destruct (contact_eqb a b) eqn:E; [|reflexivity].
    apply contact_eqb_eq in E. contradiction.
Qed.

(** A property checked on the 128 ASCII code points holds below 128. *)
Lemma ascii_cases :
  forall P : N -> bool,
    forallb P (map N.of_nat (seq 0 128)) = true ->
    forall c, (c < 128)%N -> P c = true.
Proof.
  intros P H c Hc. rewrite forallb_forall in H. apply H.
  apply in_map_iff. exists (N.to_nat c). split.
  - apply N2Nat.id.
  - apply in_seq. lia.
Qed.

Lemma is_digit_ascii : forall c, (c < 128)%N -> (is_digit c = true <-> ascii_digit c).
Proof.
  intros c Hc. unfold ascii_digit.
  pose proof (@ascii_cases
                (fun c => Bool.eqb (is_digit c) ((48 <=? c) && (c <=? 57))%N)
                ltac:(vm_compute; reflexivity) c Hc) as H.
  simpl in H. apply eqb_prop in H. rewrite H.
  rewrite andb_true_iff, !N.leb_le. reflexivity.
Qed.

(** ** [validate_number] *)

Lemma isdigit_spec :
  forall s, isdigit s = true <-> s <> [] /\ Forall (fun c => is_digit c = true) s.
Proof.
  intro s. unfold isdigit. destruct s as [|c s].
  - split; [discriminate | intros [H _]; congruence].
  - rewrite forallb_forall, Forall_forall. split.
    + intro H. split; [discriminate | exact H].
    + intros [_ H]. exact H.
Qed.

Lemma validate_number_iff :
  forall s,
    validate_number s false = true <->
    length s = 10%nat /\ Forall (fun c => is_digit c = true) s.
Proof.
  intro s. unfold validate_number. simpl.
  rewrite andb_true_iff, isdigit_spec, Nat.eqb_eq. split.
  - intros [[_ H] L]. now split.
  - intros [L H]. repeat split; try assumption.
    intros ->. discriminate.
Qed.

(** ** [validate_email] *)

Section RegexFacts.
Import Regex.

Lemma plus_loop_spec :
  forall set k t,
    plus_loop set k t = true <->
    exists a b, t = a ++ b /\ Forall (fun c => in_set set c = true) a /\ k b = true.
Proof.
  intros set k. induction t as [|y t IH]; simpl.
  - split.
    + intro H. exists [], []. auto.
    + intros (a & b & E & _ & H). symmetry in E.
      apply app_eq_nil in E. destruct E as [_ ->]. exact H.
  - rewrite orb_true_iff, andb_true_iff, IH. split.
    + intros [[Hy (a & b & E & Fa & H)] | H].
      * exists (y :: a), b. subst t. repeat split; auto.
      * exists [], (y :: t). auto.
    + intros (a & b & E & Fa & H). destruct a as [|x a]; simpl in E.
      * right. now subst b.
      * left. injection E as <- ->. inversion Fa; subst.
        split; [assumption|]. now exists a, b.
Qed.

Lemma match_set_plus :
  forall set p at_start s,
    match_here (SetPlus set :: p) at_start s = true <->
    exists a r, s = a ++ r /\ a <> [] /\
                Forall (fun c => in_set set c = true) a /\
                match_here p false r = true.
Proof.
  intros set p at_start s. simpl. destruct s as [|x s].
  - split; [discriminate|].
    intros (a & r & E & Na & _). destruct a; [congruence | discriminate].
  - rewrite andb_true_iff, plus_loop_spec. split.
    + intros [Hx (a & b & E & Fa & H)]. exists (x :: a), b. subst s.
      repeat split; auto. discriminate.
    + intros (a & r & E & Na & Fa & H). destruct a as [|y a]; [congruence|].
      simpl in E. injection E as <- ->. inversion Fa; subst.
      split; [assumption|]. now exists a, r.
Qed.

Lemma match_lit :
  forall c p at_start s,
    match_here (Lit c :: p) at_start s = true <->
    exists r, s = c :: r /\ match_here p false r = true.
Proof.
  intros c p at_start s. simpl. destruct s as [|x s].
  - split; [discriminate | intros (r & E & _); discriminate].
  - rewrite andb_true_iff, N.eqb_eq. split.
    + intros [-> H]. now exists s.
    + intros (r & E & H). injection E as -> ->. auto.
Qed.

Lemma at_eol_spec : forall s, at_eol s = true <-> s = [] \/ s = [10%N].
Proof.
  intros [|c [|d s]]; simpl.
  - intuition.
  - destruct (N.eq_dec c 10) as [->|Hc].
    + intuition.
    + split.
      * intro H. destruct c as [|p]; try discriminate.
        repeat (destruct p as [p|p|]; try discriminate). congruence.
      * intros [H|H]; [discriminate | congruence].
  - split.
    + intro H. destruct c as [|p]; try discriminate.
      repeat (destruct p as [p|p|]; try discriminate).
    + intros [H|H]; discriminate.
Qed.

Lemma in_set_email : forall c, in_set [Word; Chr 46%N; Chr 45%N] c = email_char c.
Proof.
  intro c. unfold in_set, email_char, existsb, in_atom.
  rewrite orb_false_r, orb_assoc, (N.eqb_sym 46 c), (N.eqb_sym 45 c). reflexivity.
Qed.

Lemma in_set_word : forall c, in_set [Word] c = is_word c.
Proof. intro c. unfold in_set, existsb, in_atom. apply orb_false_r. Qed.
End RegexFacts.

Lemma Forall_ext_bool :
  forall (f g : N -> bool) l,
    (forall c, f c = g c) ->
    Forall (fun c => f c = true) l -> Forall (fun c => g c = true) l.
Proof.
  intros f g l E H. eapply Forall_impl; [|exact H].
  intros c Hc. now rewrite <- E.
Qed.

(** What [re.match] accepts for the pattern of [validate_email]. *)
Lemma validate_email_iff :
  forall s,
    validate_email s false = true <->
    email_shape s \/ exists s0, s = s0 ++ [10%N] /\ email_shape s0.
Proof.
  intro s. unfold validate_email, Regex.re_match, email_pattern. simpl andb. cbv iota.
  change (Regex.match_here (Regex.Bol :: ?p) true s) with (true && Regex.match_here p true s).
  rewrite andb_true_l, match_set_plus. split.
  - intros (local & r1 & E1 & Nl & Fl & H1).
    apply match_lit in H1. destruct H1 as (r2 & E2 & H2).
    apply match_set_plus in H2. destruct H2 as (domain & r3 & E3 & Nd & Fd & H3).
    apply match_lit in H3. destruct H3 as (r4 & E4 & H4).
    apply match_set_plus in H4. destruct H4 as (tld & r5 & E5 & Nt & Ft & H5).
    simpl in H5. rewrite andb_true_r in H5. apply at_eol_spec in H5.
    assert (Sh : email_shape (local ++ [64%N] ++ domain ++ [46%N] ++ tld)).
    { exists local, domain, tld. repeat split; auto.
      - eapply Forall_ext_bool; [apply in_set_email | exact Fl].
      - eapply Forall_ext_bool; [apply in_set_email | exact Fd].
      - eapply Forall_ext_bool; [apply in_set_word | exact Ft]. }
    subst s r1 r2 r3 r4. destruct H5 as [-> | ->].
    + left. rewrite app_nil_r. exact Sh.
    + right. exists (local ++ [64%N] ++ domain ++ [46%N] ++ tld). split; [|exact Sh].
      simpl. rewrite <- !app_assoc. simpl. rewrite <- !app_assoc. reflexivity.
  - intro H.
    assert (G : exists s0 r5, s = s0 ++ r5 /\ email_shape s0 /\ (r5 = [] \/ r5 = [10%N])).
    { destruct H as [H | (s0 & E & H)].
      - exists s, []. rewrite app_nil_r. auto.
      - exists s0, [10%N]. auto. }
    destruct G as (s0 & r5 & E & (local & domain & tld & E0 & Nl & Nd & Nt & Fl & Fd & Ft) & H5).
    exists local, ([64%N] ++ domain ++ [46%N] ++ tld ++ r5). repeat split; auto.
    + subst s s0. rewrite <- !app_assoc. reflexivity.
    + eapply Forall_ext_bool; [intro c; symmetry; apply in_set_email | exact Fl].
    + apply match_lit. exists (domain ++ [46%N] ++ tld ++ r5). split; [reflexivity|].
      apply match_set_plus. exists domain, ([46%N] ++ tld ++ r5). repeat split; auto.
      * eapply Forall_ext_bool; [intro c; symmetry; apply in_set_email | exact Fd].
      * apply match_lit. exists (tld ++ r5). split; [reflexivity|].
        apply match_set_plus. exists tld, r5. repeat split; auto.
        -- eapply Forall_ext_bool; [intro c; symmetry; apply in_set_word | exact Ft].
        -- simpl. rewrite andb_true_r. now apply at_eol_spec.
Qed.

(** C3, as the specification words it, fails: ten superscript twos
    (U+00B2) pass [validate_number], because [str.isdigit] accepts every
    character whose Unicode Numeric_Type is Digit or Decimal, yet a
    superscript two is no decimal digit, neither in the Unicode sense nor
    as one of 0 to 9. *)
Lemma validate_number_superscript_digits :
  let s := repeat 178%N 10 in
  ~ (validate_number s false = true <-> length s = 10%nat /\ Forall decimal_digit s) /\
  ~ (validate_number s false = true <-> length s = 10%nat /\ Forall ascii_digit s).
Proof.
  assert (V : validate_number (repeat 178%N 10) false = true) by (vm_compute; reflexivity).
  split; intros [H _]; destruct (H V) as [_ F]; inversion F as [|c l Hc _]; subst.
  - unfold decimal_digit in Hc. vm_compute in Hc. discriminate.
  - unfold ascii_digit in Hc. lia.
Qed.

(** C3, amended: [validate_number s] is true exactly when [s] has ten
    characters and every one of them is a digit for [str.isdigit] (Unicode
    Numeric_Type Digit or Decimal); among the ASCII characters those are
    the decimal digits 0 to 9.  It is false for "12345", "12345678901" and
    "12345abcde" and true for "0123456789". *)
Theorem validate_number_ten_digits :
  (forall s, validate_number s false = true <->
             length s = 10%nat /\ Forall (fun c => is_digit c = true) s) /\
  (forall c, (c < 128)%N -> (is_digit c = true <-> ascii_digit c)) /\
  validate_number (lit "12345") false = false /\
  validate_number (lit "12345678901") false = false /\
  validate_number (lit "12345abcde") false = false /\
  validate_number (lit "0123456789") false = true.
Proof.
  split; [exact validate_number_iff|].
  split; [exact is_digit_ascii|].
  repeat split; vm_compute; reflexivity.
Qed.

Lemma validate_number_ten_digits_witness :
  (is_digit 48 = true <-> ascii_digit 48) /\
  validate_number (lit "0123456789") false = true.
Proof.
  split.
  - apply (proj1 (proj2 validate_number_ten_digits) 48%N). reflexivity.
  - apply (proj2 (proj2 validate_number_ten_digits)).
Defined.

(** C4, as the specification words it, fails in both directions:
    [validate_email] accepts an address followed by a newline, because [$]
    also matches just before a final newline, and it rejects "a@b.c-d",
    whose last segment is non-empty and uses only the characters the
    wording allows, because the pattern ends in [\w+], which has no
    hyphen. *)
Lemma validate_email_differs_from_wording :
  (validate_email (lit "a@b.com" ++ nl) false = true /\
   ~ spec_email (lit "a@b.com" ++ nl)) /\
  (validate_email (lit "a@b.c-d") false = false /\
   spec_email (lit "a@b.c-d")).
Proof.
  split; split.
  - vm_compute. reflexivity.
  - intros (local & domain & tld & E & _ & _ & Nt & _ & _ & Ft & _).
    destruct (exists_last Nt) as (tld' & x & ->).
    unfold nl in E.
    replace (local ++ [64%N] ++ domain ++ [46%N] ++ tld' ++ [x])
      with ((local ++ [64%N] ++ domain ++ [46%N] ++ tld') ++ [x]) in E
      by (rewrite <- !app_assoc; reflexivity).
    apply app_inj_tail in E. destruct E as [_ <-].
    apply Forall_app in Ft. destruct Ft as [_ Fx].
    inversion Fx as [|c l Hc _]; subst. vm_compute in Hc. discriminate.
  - vm_compute. reflexivity.
  - exists (lit "a"), (lit "b"), (lit "c-d").
    split; [reflexivity|].
    split; [discriminate|]. split; [discriminate|]. split; [discriminate|].
    split; [repeat constructor|].
    split; [repeat constructor|].
    split; [repeat constructor|].
    vm_compute. intros [H|[H|[H|[]]]]; discriminate.
Qed.

(** C4, amended: [validate_email s] is true exactly when [s], or [s]
    without one final newline, is a non-empty local part, an at sign, a
    non-empty domain part, a dot and a non-empty last segment, where the
    local and domain parts are made of word characters (letters, digits,
    underscore), dots and hyphens and the last segment of word characters
    only.  It is true for "x.y-z_1@sub.domain.com" and false for
    "no-at-sign.com" and "a@b". *)
Theorem validate_email_pattern :
  (forall s, validate_email s false = true <->
             email_shape s \/ exists s0, s = s0 ++ [10%N] /\ email_shape s0) /\
  validate_email (lit "x.y-z_1@sub.domain.com") false = true /\
  validate_email (lit "no-at-sign.com") false = false /\
  validate_email (lit "a@b") false = false.
Proof.
  split; [exact validate_email_iff|].
  repeat split; vm_compute; reflexivity.
Qed.

Lemma validate_email_pattern_witness :
  email_shape (lit "x.y-z_1@sub.domain.com") \/
  exists s0, lit "x.y-z_1@sub.domain.com" = s0 ++ [10%N] /\ email_shape s0.
Proof.
  apply (proj1 (proj1 validate_email_pattern (lit "x.y-z_1@sub.domain.com"))).
  apply (proj1 (proj2 validate_email_pattern)).
Defined.

(** ** The CSV reader reads back what the writer wrote *)

Section CsvFacts.
Import Csv.
Local Open Scope N_scope.

Lemma feed_chars_app :
  forall a b p,
    feed_chars p (a ++ b) =
    match feed_chars p a with
    | Some p' => feed_chars p' b
    | None => None
    end.
Proof.
  induction a as [|c a IH]; intros b p; simpl.
  - reflexivity.
  - destruct (parse_process_char p (Some c)); [apply IH | reflexivity].
Qed.

Lemma feed_line_app :
  forall a b p,
    feed_line p (a ++ b) =
    match feed_chars p a with
    | Some p' => feed_line p' b
    | None => None
    end.
Proof.
  intros a b p. unfold feed_line. rewrite feed_chars_app.
  destruct (feed_chars p a); reflexivity.
Qed.

Lemma read_from_cons :
  forall p line lines,
    read_from p (line :: lines) =
    close_line (feed_line p line) (fun q => read_from q lines).
Proof. reflexivity. Qed.

Lemma rev'_cons : forall (c : N) cur, rev' (c :: cur) = rev' cur ++ [c].
Proof. intros c cur. rewrite !rev'_rev. reflexivity. Qed.

Lemma close_line_ext :
  forall p k1 k2, (forall q, k1 q = k2 q) -> close_line p k1 = close_line p k2.
Proof.
  intros [q|] k1 k2 H; simpl; [|reflexivity].
  destruct (is_start_record (state q)); rewrite H; reflexivity.
Qed.

(** The line-by-line reader and the one-pass view agree. *)
Lemma read_from_stream_len :
  forall n text, (length text <= n)%nat ->
  forall cur p0,
    read_from p0 (lines_from cur text) =
    match feed_chars p0 (rev' cur) with
    | Some p => csv_stream p (negb (match cur with [] => true | _ => false end)) text
    | None => ([], Error)
    end.
Proof.
  assert (End : forall cur p0,
             read_from p0 (lines_from cur []) =
             match feed_chars p0 (rev' cur) with
             | Some p => csv_stream p (negb (match cur with [] => true | _ => false end)) []
             | None => ([], Error)
             end).
  { intros [|c cur] p0; [reflexivity|].
    cbn [lines_from csv_stream negb]. rewrite read_from_cons.
    unfold feed_line. destruct (feed_chars p0 (rev' (c :: cur))); reflexivity. }
  induction n as [|n IH]; intros text Hn cur p0.
  - destruct text; [apply End | simpl in Hn; lia].
  - destruct text as [|c text]; [apply End|].
    simpl in Hn.
    assert (Next : forall t, (length t <= n)%nat ->
               forall q, read_from q (lines_from [] t) = csv_stream q false t).
    { intros t Ht q. apply (IH t Ht [] q). }
    cbn [lines_from csv_stream].
    destruct (c =? 10) eqn:E10.
    { rewrite read_from_cons, rev'_cons, feed_line_app.
      destruct (feed_chars p0 (rev' cur)) as [p|]; [|reflexivity].
      apply close_line_ext. apply Next. lia. }
    destruct (c =? 13) eqn:E13.
    { destruct text as [|d text].
      - rewrite read_from_cons, rev'_cons, feed_line_app.
        destruct (feed_chars p0 (rev' cur)) as [p|]; reflexivity.
      - simpl in Hn. destruct (d =? 10) eqn:D10.
        + rewrite read_from_cons, !rev'_cons, <- app_assoc, feed_line_app.
          destruct (feed_chars p0 (rev' cur)) as [p|]; [|reflexivity].
          apply close_line_ext. apply Next. lia.
        + rewrite read_from_cons, rev'_cons, feed_line_app.
          destruct (feed_chars p0 (rev' cur)) as [p|]; [|reflexivity].
          apply close_line_ext. apply Next. simpl. lia. }
    rewrite (IH text ltac:(lia) (c :: cur) p0), rev'_cons, feed_chars_app.
    destruct (feed_chars p0 (rev' cur)) as [p|]; [|reflexivity].
    simpl. destruct (parse_process_char p (Some c)); reflexivity.
Qed.

Lemma reader_stream : forall text, reader text = csv_stream parse_reset false text.
Proof.
  intro text. unfold reader, file_lines.
  apply (@read_from_stream_len (length text) text (le_n _) [] parse_reset).
Qed.

Lemma needs_quotes_false :
  forall c, needs_quotes c = false ->
    (c =? 44) = false /\ (c =? 34) = false /\ (c =? 13) = false /\ (c =? 10) = false.
Proof.
  intros c H. unfold needs_quotes, delimiter, quotechar, lineterminator in H.
  simpl in H. rewrite !orb_false_iff in H. tauto.
Qed.

Lemma escape_plain :
  forall g, existsb needs_quotes g = false -> flat_map escape_char g = g.
Proof.
  induction g as [|c g IH]; cbn [flat_map existsb]; intro H; [reflexivity|].
  apply orb_false_iff in H. destruct H as [Hc Hg].
  apply needs_quotes_false in Hc. destruct Hc as (_ & Q & _ & _).
  rewrite (IH Hg). unfold escape_char, quotechar. rewrite Q. reflexivity.
Qed.

(** Characters without special meaning are added to the open field. *)
Lemma stream_in_field :
  forall g p pending tail,
    state p = IN_FIELD ->
    existsb needs_quotes g = false ->
    field_len p + N.of_nat (length g) <= field_limit ->
    exists b, csv_stream p pending (g ++ tail) = csv_stream (grow g p) b tail.
Proof.
  induction g as [|c g IH]; intros p pending tail St Pl Len.
  - exists pending. simpl. destruct p as [st fs fl n]. unfold grow. simpl.
    now rewrite N.add_0_r.
  - simpl in Pl. apply orb_false_iff in Pl. destruct Pl as [Hc Hg].
    apply needs_quotes_false in Hc. destruct Hc as (C44 & C34 & C13 & C10).
    destruct p as [st fs fl n]. simpl in St, Len. subst st.
    assert (Lim : (field_limit <=? n) = false) by (apply N.leb_gt; lia).
    destruct (IH {| state := IN_FIELD; fields := fs; field := c :: fl; field_len := n + 1 |}
                 true tail eq_refl Hg) as [b Hb].
    { simpl. lia. }
    exists b. rewrite <- app_comm_cons. cbn [csv_stream]. rewrite C10, C13.
    unfold parse_process_char, parse_add_char, is_newline, delimiter. simpl.
    rewrite C10, C13, C44, Lim. simpl. rewrite Hb.
    f_equal. unfold grow. simpl. f_equal.
    + now rewrite <- app_assoc.
    + lia.
Qed.

Lemma grow_cons :
  forall c g st fs fl n,
    grow g {| state := st; fields := fs; field := c :: fl; field_len := n + 1 |} =
    grow (c :: g) {| state := st; fields := fs; field := fl; field_len := n |}.
Proof.
  intros. unfold grow. simpl. f_equal.
  - now rewrite <- app_assoc.
  - lia.
Qed.

Ltac step_char :=
  unfold parser_at, parse_process_char, parse_add_char, set_state, parse_save_field,
    is_newline, quotechar, delimiter;
  cbn [state fields field field_len option_map].

Lemma add_in_quoted :
  forall c fs fl n, (c =? 34) = false -> n < field_limit ->
    parse_process_char (parser_at IN_QUOTED_FIELD fs fl n) (Some c) =
    Some (parser_at IN_QUOTED_FIELD fs (c :: fl) (n + 1)).
Proof.
  intros c fs fl n C L. apply N.leb_gt in L. step_char. now rewrite C, L.
Qed.

Lemma quote_in_quoted :
  forall fs fl n,
    parse_process_char (parser_at IN_QUOTED_FIELD fs fl n) (Some 34) =
    Some (parser_at QUOTE_IN_QUOTED_FIELD fs fl n).
Proof. reflexivity. Qed.

Lemma quote_after_quote :
  forall fs fl n, n < field_limit ->
    parse_process_char (parser_at QUOTE_IN_QUOTED_FIELD fs fl n) (Some 34) =
    Some (parser_at IN_QUOTED_FIELD fs (34 :: fl) (n + 1)).
Proof.
  intros fs fl n L. apply N.leb_gt in L. step_char. cbn [N.eqb Pos.eqb]. now rewrite L.
Qed.

Lemma eol_in_quoted :
  forall fs fl n,
    parse_process_char (parser_at IN_QUOTED_FIELD fs fl n) None = Some (parser_at IN_QUOTED_FIELD fs fl n).
Proof. reflexivity. Qed.

Lemma escape_other : forall c, (c =? 34) = false -> escape_char c = [c].
Proof. intros c H. unfold escape_char, quotechar. now rewrite H. Qed.

Lemma escape_quote : escape_char 34 = [34; 34].
Proof. reflexivity. Qed.

Lemma grow_mk :
  forall c g st fs fl n, grow g (parser_at st fs (c :: fl) (n + 1)) = grow (c :: g) (parser_at st fs fl n).
Proof. intros. apply grow_cons. Qed.

(** Inside quotes every character, line ends included, is added to the
    field, and a doubled quote stands for one quote. *)
Lemma stream_in_quoted_len :
  forall k g, (length g <= k)%nat ->
  forall fs fl n pending tail,
    n + N.of_nat (length g) <= field_limit ->
    csv_stream (parser_at IN_QUOTED_FIELD fs fl n) pending (flat_map escape_char g ++ 34 :: tail) =
    csv_stream (set_state QUOTE_IN_QUOTED_FIELD (grow g (parser_at IN_QUOTED_FIELD fs fl n)))
      true tail.
Proof.
  assert (Base : forall fs fl n pending tail,
             csv_stream (parser_at IN_QUOTED_FIELD fs fl n) pending (34 :: tail) =
             csv_stream (set_state QUOTE_IN_QUOTED_FIELD (grow [] (parser_at IN_QUOTED_FIELD fs fl n)))
               true tail).
  { intros. cbn [csv_stream N.eqb Pos.eqb]. rewrite quote_in_quoted.
    unfold set_state, grow, parser_at. cbn [state fields field field_len length rev app].
    now rewrite N.add_0_r. }
  induction k as [|k IH]; intros g Hk fs fl n pending tail Len.
  - destruct g; [apply Base | simpl in Hk; lia].
  - destruct g as [|c g]; [apply Base|].
    cbn [length] in Hk, Len.
    assert (Lim : n < field_limit) by lia.
    assert (Len' : n + 1 + N.of_nat (length g) <= field_limit) by lia.
    rewrite <- grow_mk.
    cbn [flat_map].
    destruct (c =? 34) eqn:C34.
    { apply N.eqb_eq in C34. subst c. rewrite escape_quote.
      rewrite <- (IH g ltac:(lia) fs (34 :: fl) (n + 1) true tail Len').
      cbn [app csv_stream N.eqb Pos.eqb].
      rewrite quote_in_quoted. cbn [csv_stream N.eqb Pos.eqb].
      now rewrite quote_after_quote. }
    rewrite (escape_other _ C34).
    destruct (c =? 10) eqn:C10.
    { rewrite <- (IH g ltac:(lia) fs (c :: fl) (n + 1) false tail Len').
      cbn [app csv_stream]. rewrite C10.
      unfold feed_line. cbn [feed_chars]. rewrite (add_in_quoted _ _ _ _ C34 Lim).
      rewrite eol_in_quoted. reflexivity. }
    destruct (c =? 13) eqn:C13.
    { cbn [app csv_stream]. rewrite C10, C13.
      assert (Step : feed_line (parser_at IN_QUOTED_FIELD fs fl n) [c] =
                     Some (parser_at IN_QUOTED_FIELD fs (c :: fl) (n + 1))).
      { unfold feed_line. cbn [feed_chars]. rewrite (add_in_quoted _ _ _ _ C34 Lim).
        apply eol_in_quoted. }
      destruct g as [|d g].
      - rewrite <- (IH [] ltac:(simpl; lia) fs (c :: fl) (n + 1) false tail Len').
        cbn [flat_map app N.eqb Pos.eqb]. rewrite Step. reflexivity.
      - cbn [flat_map].
        destruct (d =? 34) eqn:D34.
        + apply N.eqb_eq in D34. subst d. rewrite escape_quote.
          rewrite <- (IH (34 :: g) ltac:(simpl in *; lia) fs (c :: fl) (n + 1) false tail Len').
          cbn [flat_map]. rewrite escape_quote.
          cbn [app N.eqb Pos.eqb]. rewrite Step. reflexivity.
        + rewrite (escape_other _ D34). cbn [app]. destruct (d =? 10) eqn:D10.
          * cbn [length] in Len.
            assert (Lim2 : n + 1 < field_limit) by lia.
            rewrite <- grow_mk.
            rewrite <- (IH g ltac:(simpl in *; lia) fs (d :: c :: fl) (n + 1 + 1) false tail
                          ltac:(lia)).
            unfold feed_line. cbn [feed_chars]. rewrite (add_in_quoted _ _ _ _ C34 Lim).
            rewrite (add_in_quoted _ _ _ _ D34 Lim2).
            rewrite eol_in_quoted. reflexivity.
          * rewrite <- (IH (d :: g) ltac:(simpl in *; lia) fs (c :: fl) (n + 1) false tail Len').
            cbn [flat_map]. rewrite (escape_other _ D34). cbn [app].
            rewrite Step. reflexivity. }
    rewrite <- (IH g ltac:(lia) fs (c :: fl) (n + 1) true tail Len').
    cbn [app csv_stream]. rewrite C10, C13.
    now rewrite (add_in_quoted _ _ _ _ C34 Lim).
Qed.

(** Reading the text of one written field, from the start of a record
    or of a field. *)
Lemma stream_field_content :
  forall f st fs pending tail,
    st = START_RECORD \/ st = START_FIELD ->
    N.of_nat (length f) <= field_limit ->
    exists st' n b,
      csv_stream (parser_at st fs [] 0) pending (write_field f ++ tail) =
      csv_stream (parser_at st' fs (rev f) n) b tail /\
      (field_end st' \/ (st' = START_RECORD /\ st = START_RECORD /\ write_field f = [])).
Proof.
  intros f st fs pending tail St Len. unfold write_field, quotechar.
  destruct (existsb needs_quotes f) eqn:Q.
  - exists QUOTE_IN_QUOTED_FIELD, (0 + N.of_nat (length f)), true. split.
    + rewrite <- app_comm_cons, <- app_assoc. cbn [app csv_stream N.eqb Pos.eqb].
      replace (parse_process_char (parser_at st fs [] 0) (Some 34))
        with (Some (parser_at IN_QUOTED_FIELD fs [] 0))
        by (destruct St as [-> | ->]; reflexivity).
      rewrite (@stream_in_quoted_len (length f) f (le_n _) fs [] 0 true tail Len).
      unfold set_state, grow, parser_at. cbn [state fields field field_len].
      now rewrite app_nil_r.
    + left. unfold field_end. auto.
  - rewrite (escape_plain _ Q). destruct f as [|c g].
    + exists st, 0, pending. split; [reflexivity|].
      destruct St as [-> | ->]; [right | left; unfold field_end]; auto.
    + cbn [existsb] in Q. apply orb_false_iff in Q. destruct Q as [Hc Hg].
      apply needs_quotes_false in Hc. destruct Hc as (C44 & C34 & C13 & C10).
      cbn [length] in Len.
      destruct (@stream_in_field g (parser_at IN_FIELD fs [c] (0 + 1)) true tail eq_refl Hg) as [b Hb].
      { cbn [field_len parser_at]. lia. }
      exists IN_FIELD, (0 + 1 + N.of_nat (length g)), b. split.
      * rewrite <- app_comm_cons. cbn [csv_stream]. rewrite C10, C13.
        replace (parse_process_char (parser_at st fs [] 0) (Some c))
          with (Some (parser_at IN_FIELD fs [c] (0 + 1))).
        { rewrite Hb. unfold grow, parser_at. cbn [state fields field field_len rev]. reflexivity. }
        destruct St as [-> | ->]; step_char; rewrite C10, C13, C34, C44; reflexivity.
      * left. unfold field_end. auto.
Qed.

Lemma stream_delimiter :
  forall st fs fl n b tail,
    field_end st \/ st = START_RECORD ->
    csv_stream (parser_at st fs fl n) b (44 :: tail) =
    csv_stream (parser_at START_FIELD (rev fl :: fs) [] 0) true tail.
Proof.
  intros st fs fl n b tail St. cbn [csv_stream N.eqb Pos.eqb].
  replace (parse_process_char (parser_at st fs fl n) (Some 44))
    with (Some (parser_at START_FIELD (rev' fl :: fs) [] 0)).
  - now rewrite rev'_rev.
  - destruct St as [[-> | [-> | ->]] | ->]; reflexivity.
Qed.

Lemma stream_crlf :
  forall st fs fl n b tail,
    field_end st ->
    csv_stream (parser_at st fs fl n) b (13 :: 10 :: tail) =
    (let (rows, e) := csv_stream parse_reset false tail in
     (rev (rev fl :: fs) :: rows, e)).
Proof.
  intros st fs fl n b tail St. cbn [csv_stream N.eqb Pos.eqb].
  replace (feed_line (parser_at st fs fl n) [13; 10])
    with (Some (parser_at START_RECORD (rev' fl :: fs) [] 0)).
  - unfold close_line. cbn [parser_at state fields is_start_record].
    now rewrite !rev'_rev.
  - destruct St as [-> | [-> | ->]]; reflexivity.
Qed.

Lemma join_fields_cons :
  forall f f' fs,
    join_fields (f :: f' :: fs) = write_field f ++ 44 :: join_fields (f' :: fs).
Proof. reflexivity. Qed.

Lemma stream_fields :
  forall fs f st acc pending tail,
    st = START_FIELD \/ (st = START_RECORD /\ (fs <> [] \/ write_field f <> [])) ->
    Forall field_fits (f :: fs) ->
    csv_stream (parser_at st acc [] 0) pending (join_fields (f :: fs) ++ 13 :: 10 :: tail) =
    (let (rows, e) := csv_stream parse_reset false tail in
     ((rev acc ++ f :: fs) :: rows, e)).
Proof.
  induction fs as [|f' fs IH]; intros f st acc pending tail St Fit;
    inversion Fit as [|x l Ff Ffs]; subst.
  - cbn [join_fields].
    destruct (@stream_field_content f st acc pending (13 :: 10 :: tail)) as (st' & n & b & E & Hst');
      [tauto | exact Ff |].
    rewrite E. rewrite stream_crlf.
    + rewrite rev_involutive. reflexivity.
    + destruct Hst' as [H | (_ & -> & W)]; [exact H|].
      destruct St as [H | (_ & [H | H])]; [discriminate | congruence | contradiction].
  - rewrite join_fields_cons, <- app_assoc, <- app_comm_cons.
    destruct (@stream_field_content f st acc pending
                (44 :: join_fields (f' :: fs) ++ 13 :: 10 :: tail))
      as (st' & n & b & E & Hst'); [tauto | exact Ff |].
    rewrite E, stream_delimiter by tauto.
    rewrite rev_involutive.
    rewrite IH; [| left; reflexivity | exact Ffs].
    cbn [rev]. rewrite <- app_assoc. reflexivity.
Qed.

(** A written row reads back as itself. *)
Lemma stream_row :
  forall row tail,
    row <> [] -> Forall field_fits row ->
    csv_stream parse_reset false (write_row row ++ tail) =
    (let (rows, e) := csv_stream parse_reset false tail in (row :: rows, e)).
Proof.
  intros row tail Ne Fit.
  destruct row as [|f fs]; [congruence|].
  assert (G : forall text, text = join_fields (f :: fs) ++ lineterminator ->
              (fs <> [] \/ write_field f <> []) ->
              csv_stream parse_reset false (text ++ tail) =
              (let (rows, e) := csv_stream parse_reset false tail in ((f :: fs) :: rows, e))).
  { intros text -> H. unfold lineterminator. rewrite <- app_assoc. cbn [app].
    apply (@stream_fields fs f START_RECORD [] false tail); auto. }
  destruct f as [|c f]; [destruct fs as [|f' fs]|].
  - reflexivity.
  - apply G; [reflexivity | left; discriminate].
  - apply G.
    + destruct fs; reflexivity.
    + right. unfold write_field.
      destruct (existsb needs_quotes (c :: f)); [discriminate|].
      cbn [flat_map]. unfold escape_char. destruct (c =? quotechar); discriminate.
Qed.

Lemma stream_rows :
  forall rows,
    Forall (fun row => row <> [] /\ Forall field_fits row) rows ->
    csv_stream parse_reset false (flat_map write_row rows) = (rows, StopIteration).
Proof.
  induction rows as [|row rows IH]; intro H.
  - reflexivity.
  - inversion H as [|x l [Ne Fit] Hrows]; subst.
    cbn [flat_map]. rewrite (stream_row _ _ Ne Fit), (IH Hrows). reflexivity.
Qed.

(** The reader returns the rows the writer was given. *)
Lemma reader_write_rows :
  forall rows,
    Forall (fun row => row <> [] /\ Forall field_fits row) rows ->
    reader (flat_map write_row rows) = (rows, StopIteration).
Proof. intros rows H. rewrite reader_stream. now apply stream_rows. Qed.
End CsvFacts.

(** ** The record store *)

Lemma row_contact_row : forall c, row_contact (contact_row c) = Some c.
Proof. intros [f m l n e]. reflexivity. Qed.

Lemma append_rows_contacts :
  forall cs lines s,
    append_rows (map contact_row cs) Csv.StopIteration lines s =
    Ret tt lines (set_contacts (contacts s ++ cs) s).
Proof.
  induction cs as [|c cs IH]; intros lines s.
  - simpl. rewrite app_nil_r. destruct s. reflexivity.
  - cbn [map append_rows]. unfold contact_row at 1.
    change [first_name c; middle_name c; last_name c; number c; email c]
      with (contact_row c).
    rewrite row_contact_row, IH. unfold set_contacts. simpl.
    now rewrite <- app_assoc.
Qed.

Lemma fieldnames_fit : Forall field_fits FIELDNAMES.
Proof.
  unfold FIELDNAMES, field_fits, Csv.field_limit.
  repeat constructor; simpl; lia.
Qed.

Lemma reader_csv_text :
  forall cs,
    fields_fit cs ->
    Csv.reader (csv_text cs) = (FIELDNAMES :: map contact_row cs, Csv.StopIteration).
Proof.
  intros cs Fit. unfold csv_text.
  change (Csv.write_row FIELDNAMES ++ flat_map (fun c => Csv.write_row (contact_row c)) cs)
    with (flat_map Csv.write_row (FIELDNAMES :: nil) ++
          flat_map (fun c => Csv.write_row (contact_row c)) cs).
  replace (flat_map (fun c => Csv.write_row (contact_row c)) cs)
    with (flat_map Csv.write_row (map contact_row cs))
    by (rewrite flat_map_concat_map, map_map, <- flat_map_concat_map; reflexivity).
  rewrite <- flat_map_app. apply reader_write_rows.
  constructor.
  - split; [discriminate | exact fieldnames_fit].
  - apply Forall_forall. intros row Hrow. apply in_map_iff in Hrow.
    destruct Hrow as (c & <- & Hc). split; [discriminate|].
    unfold fields_fit in Fit. rewrite Forall_forall in Fit. now apply Fit.
Qed.

Lemma load_after_save :
  forall lines s,
    fields_fit (contacts s) ->
    load_contacts lines (save s) = Ret tt lines (save s).
Proof.
  intros lines s Fit. unfold load_contacts.
  cbn [save print write set_file set_contacts file contacts].
  rewrite (reader_csv_text _ Fit).
  replace (row_eqb FIELDNAMES FIELDNAMES) with true by (symmetry; now apply row_eqb_eq).
  cbn [negb]. rewrite append_rows_contacts. reflexivity.
Qed.

(** C10, as stated, fails: the CSV reader refuses a field of more than
    131072 characters ([csv.field_size_limit]) with [csv.Error], which
    [load_contacts] does not catch; a contact with such a field is saved
    but not loaded back, and the collection is left empty. *)
Lemma save_load_long_field :
  let c := {| first_name := lit "Ann"; middle_name := []; last_name := lit "Lee";
              number := lit "0123456789"; email := repeat 97%N (N.to_nat 131073) |} in
  let s := {| contacts := [c]; file := None; stdout := [] |} in
  match (save_contacts ;;; load_contacts) [] s with
  | Ret _ _ _ => False
  | Exc e _ s' => e = CsvError /\ contacts s' = []
  end.
Proof. vm_compute. split; reflexivity. Qed.

(** The text that is saved can be encoded when the fields can: the
    writer adds commas, quotes and line ends only. *)
Lemma encodable_app :
  forall a b, encodable a -> encodable b -> encodable (a ++ b).
Proof. intros a b Ha Hb. apply Forall_app. now split. Qed.

Lemma write_field_encodable :
  forall f, encodable f -> encodable (Csv.write_field f).
Proof.
  intros f H.
  assert (E : encodable (flat_map Csv.escape_char f)).
  { induction H as [|c f Hc Hf IH]; [constructor|].
    cbn [flat_map]. apply encodable_app; [|exact IH].
    unfold Csv.escape_char. destruct (c =? Csv.quotechar)%N.
    - constructor; [reflexivity|]. constructor; [exact Hc | constructor].
    - constructor; [exact Hc | constructor]. }
  unfold Csv.write_field. destruct (existsb Csv.needs_quotes f); [|exact E].
  constructor; [reflexivity|]. apply encodable_app; [exact E|].
  constructor; [reflexivity | constructor].
Qed.

Lemma join_fields_encodable :
  forall fs, Forall encodable fs -> encodable (Csv.join_fields fs).
Proof.
  intros fs H. induction H as [|f fs Hf Hfs IH]; [constructor|].
  cbn [Csv.join_fields]. destruct fs as [|g fs]; [now apply write_field_encodable|].
  apply encodable_app; [now apply write_field_encodable|].
  constructor; [reflexivity | exact IH].
Qed.

Lemma write_row_encodable :
  forall row, Forall encodable row -> encodable (Csv.write_row row).
Proof.
  intros row H.
  assert (J : encodable (Csv.join_fields row ++ Csv.lineterminator)).
  { apply encodable_app; [now apply join_fields_encodable|].
    constructor; [reflexivity|]. constructor; [reflexivity | constructor]. }
  unfold Csv.write_row. destruct row as [|f row]; [exact J|].
  destruct f as [|c f]; [|exact J]. destruct row as [|g row]; [|exact J].
  constructor; [reflexivity|]. constructor; [reflexivity|].
  constructor; [reflexivity|]. constructor; [reflexivity | constructor].
Qed.

Lemma fieldnames_encodable : Forall encodable FIELDNAMES.
Proof.
  assert (H : forallb (forallb utf8_char) FIELDNAMES = true) by (vm_compute; reflexivity).
  apply Forall_forall. intros f Hf. apply Forall_forall. intros c Hc.
  rewrite forallb_forall in H. specialize (H f Hf). rewrite forallb_forall in H.
  now apply H.
Qed.

Lemma csv_text_encodable :
  forall cs, fields_encodable cs -> encodable (csv_text cs).
Proof.
  intros cs H. unfold csv_text.
  apply encodable_app; [apply write_row_encodable, fieldnames_encodable|].
  induction H as [|c cs Hc Hcs IH]; [constructor|].
  cbn [flat_map]. apply encodable_app; [now apply write_row_encodable | exact IH].
Qed.

(** C10, amended: for every collection in which no field is longer than
    131072 characters and every field can be written in the encoding of
    the file (no character is a surrogate), the text to save can be
    encoded, and save followed by load returns normally with exactly the
    same contacts in the same (stored, not sorted) order, the file holding
    the saved text. *)
Theorem save_load_roundtrip :
  forall lines s,
    fields_fit (contacts s) ->
    fields_encodable (contacts s) ->
    encodable (csv_text (contacts s)) /\
    exists s',
      (save_contacts ;;; load_contacts) lines s = Ret tt lines s' /\
      contacts s' = contacts s /\
      file s' = Some (csv_text (contacts s)).
Proof.
  intros lines s Fit Enc. split; [now apply csv_text_encodable|].
  exists (save s). split.
  - unfold bind, save_contacts, lift. now apply load_after_save.
  - split; reflexivity.
Qed.

Lemma save_load_roundtrip_witness :
  let zed := {| first_name := lit "Zed"; middle_name := []; last_name := lit "Young";
                number := lit "0123456789"; email := lit "zed@x.org" |} in
  let amy := {| first_name := lit "Amy, "; middle_name := [13; 10; 34; 233; 128512]%N;
                last_name := lit "Adams"; number := lit "1111111111";
                email := lit "amy@x.org" |} in
  let s := {| contacts := [zed; amy]; file := None; stdout := [] |} in
  encodable (csv_text [zed; amy]) /\
  exists s',
    (save_contacts ;;; load_contacts) [] s = Ret tt [] s' /\
    contacts s' = [zed; amy] /\
    file s' = Some (csv_text [zed; amy]).
Proof.
  intros zed amy s. apply (save_load_roundtrip [] s).
  - unfold fields_fit, field_fits, Csv.field_limit.
    repeat constructor; simpl; lia.
  - assert (H : forallb (fun c => forallb (forallb utf8_char) (contact_row c)) (contacts s)
                = true) by (vm_compute; reflexivity).
    apply Forall_forall. intros c Hc. apply Forall_forall. intros f Hf.
    apply Forall_forall. intros x Hx.
    rewrite forallb_forall in H. specialize (H c Hc).
    rewrite forallb_forall in H. specialize (H f Hf).
    rewrite forallb_forall in H. now apply H.
Defined.

(** C6, as stated, fails: a header row with a field of more than 131072
    characters differs from the five-column list, yet the CSV reader
    refuses it with [csv.Error], which [load_contacts] does not catch:
    the exception reaches the caller and no message is printed. *)
Lemma load_long_header_raises :
  let text := repeat 97%N (N.to_nat 131073) ++ lit ",phone" ++ [13; 10]%N in
  let s := {| contacts := []; file := Some text; stdout := [] |} in
  match load_contacts [] s with
  | Ret _ _ _ => False
  | Exc e _ s' => e = CsvError /\ contacts s' = [] /\ stdout s' = []
  end.
Proof. vm_compute. repeat split. Qed.

(** C6, amended: when the backing file is empty, or the first record that
    the CSV reader returns for it is not the five-column list,
    [load_contacts] returns normally (nothing is raised), leaves the
    collection empty, whatever it held, prints the message 'Invalid CSV
    format. Expected headers: first_name, middle_name, last_name, number,
    email' and does not touch the file. *)
Theorem load_rejects_other_header :
  forall text lines s,
    file s = Some text ->
    text = [] \/ (exists header, header_row text = Some header /\ header <> FIELDNAMES) ->
    load_contacts lines s =
    Ret tt lines
      {| contacts := []; file := Some text;
         stdout := stdout s ++
           [lit "Invalid CSV format. Expected headers: first_name, middle_name, last_name, number, email"
              ++ [10%N]] |}.
Proof.
  intros text lines s Hfile Hhdr.
  assert (Msg : print invalid_format_message (set_contacts [] s) =
                {| contacts := []; file := Some text;
                   stdout := stdout s ++
                     [lit "Invalid CSV format. Expected headers: first_name, middle_name, last_name, number, email"
                        ++ [10%N]] |}).
  { unfold print, write, set_contacts. cbn [contacts file stdout]. rewrite Hfile.
    f_equal. }
  unfold load_contacts. cbn [set_contacts file]. rewrite Hfile.
  destruct Hhdr as [-> | (header & Hhdr & Hne)].
  - change (Csv.reader []) with (@nil (list pystr), Csv.StopIteration).
    cbv iota. rewrite <- Msg. reflexivity.
  - unfold header_row in Hhdr.
    destruct (Csv.reader text) as [[|h rows] e]; cbn [fst hd_error] in Hhdr; [discriminate|].
    injection Hhdr as ->.
    replace (row_eqb header FIELDNAMES) with false.
    + cbn [negb]. rewrite <- Msg. reflexivity.
    + symmetry. destruct (row_eqb header FIELDNAMES) eqn:E; [|reflexivity].
      apply row_eqb_eq in E. contradiction.
Qed.

Lemma load_rejects_other_header_witness :
  let text := lit "name,phone" ++ [13; 10]%N ++ lit "Ann,0123456789" ++ [13; 10]%N in
  let message :=
    lit "Invalid CSV format. Expected headers: first_name, middle_name, last_name, number, email"
      ++ [10%N] in
  let bob := {| first_name := lit "Bob"; middle_name := []; last_name := lit "Smith";
                number := lit "0123456789"; email := lit "bob@x.org" |} in
  load_contacts [] {| contacts := [bob]; file := Some text; stdout := [] |} =
    Ret tt [] {| contacts := []; file := Some text; stdout := [message] |} /\
  load_contacts [] {| contacts := [bob]; file := Some []; stdout := [] |} =
    Ret tt [] {| contacts := []; file := Some []; stdout := [message] |}.
Proof.
  intros text message bob. split.
  - apply (load_rejects_other_header text []
             {| contacts := [bob]; file := Some text; stdout := [] |}).
    + reflexivity.
    + right. exists [lit "name"; lit "phone"]. split; [vm_compute; reflexivity | discriminate].
  - apply (load_rejects_other_header [] []
             {| contacts := [bob]; file := Some []; stdout := [] |}).
    + reflexivity.
    + left. reflexivity.
Defined.

(** ** Order on strings and [sorted] *)

Lemma str_ltb_asym : forall a b, str_ltb a b = true -> str_ltb b a = false.
Proof.
  induction a as [|x a IH]; destruct b as [|y b]; simpl; intro H;
    try reflexivity; try discriminate.
  apply orb_true_iff in H. apply orb_false_iff.
  destruct H as [H | H].
  - apply N.ltb_lt in H. split.
    + apply N.ltb_ge. lia.
    + apply andb_false_iff. left. apply N.eqb_neq. lia.
  - apply andb_true_iff in H. destruct H as [E H]. apply N.eqb_eq in E. subst y. split.
    + apply N.ltb_irrefl.
    + apply andb_false_iff. right. now apply IH.
Qed.

Lemma str_ltb_false_trans :
  forall a b c, str_ltb b a = false -> str_ltb c b = false -> str_ltb c a = false.
Proof.
  induction a as [|x a IH]; intros b c Hba Hcb.
  - destruct c; reflexivity.
  - destruct b as [|y b].
    + simpl in Hba. discriminate.
    + destruct c as [|z c]; [simpl in Hcb; discriminate|].
      simpl in *. apply orb_false_iff in Hba, Hcb. apply orb_false_iff.
      destruct Hba as [Hyx Hba], Hcb as [Hzy Hcb].
      apply N.ltb_ge in Hyx, Hzy.
      split; [apply N.ltb_ge; lia|].
      apply andb_false_iff.
      destruct (N.eqb_spec z x) as [->|Hzx]; [|now left].
      right. assert (y = x) by lia. subst y.
      rewrite N.eqb_refl in Hba, Hcb. simpl in Hba, Hcb.
      now apply (IH b c).
Qed.

Lemma str_leb_trans :
  forall a b c, str_leb a b = true -> str_leb b c = true -> str_leb a c = true.
Proof.
  unfold str_leb. intros a b c Hab Hbc.
  apply negb_true_iff in Hab, Hbc. apply negb_true_iff.
  now apply (@str_ltb_false_trans a b c).
Qed.

Section SortedFacts.
Variable A : Type.
Variable key : A -> pystr.

Lemma insert_by_perm : forall x l, Permutation (insert_by key x l) (x :: l).
Proof.
  intros x l. induction l as [|y l IH]; simpl.
  - apply Permutation_refl.
  - destruct (str_ltb (key y) (key x)).
    + eapply perm_trans; [apply perm_skip, IH | apply perm_swap].
    + apply Permutation_refl.
Qed.

Lemma py_sorted_perm : forall l, Permutation (py_sorted key l) l.
Proof.
  induction l as [|x l IH]; simpl.
  - apply perm_nil.
  - eapply perm_trans; [apply insert_by_perm | now apply perm_skip].
Qed.

Lemma py_sorted_length : forall l, length (py_sorted key l) = length l.
Proof. intro l. apply Permutation_length, py_sorted_perm. Qed.

Lemma py_sorted_in : forall l x, In x (py_sorted key l) <-> In x l.
Proof.
  intros l x. split; apply Permutation_in;
    [apply py_sorted_perm | apply Permutation_sym, py_sorted_perm].
Qed.

Lemma insert_by_sorted :
  forall x l,
    StronglySorted (key_le key) l -> StronglySorted (key_le key) (insert_by key x l).
Proof.
  intros x l. induction l as [|y l IH]; intro S; simpl.
  - repeat constructor.
  - inversion S as [|y' l' Sl Fy]; subst.
    destruct (str_ltb (key y) (key x)) eqn:E.
    + constructor; [now apply IH|].
      apply Forall_forall. intros z Hz.
      apply (Permutation_in _ (insert_by_perm x l)) in Hz.
      destruct Hz as [<- | Hz].
      * unfold key_le, str_leb. apply negb_true_iff. now apply str_ltb_asym.
      * rewrite Forall_forall in Fy. now apply Fy.
    + assert (Hxy : key_le key x y) by (unfold key_le, str_leb; now rewrite E).
      constructor; [exact S|].
      constructor; [exact Hxy|].
      eapply Forall_impl; [|exact Fy].
      intros z Hyz. unfold key_le in *. now apply (@str_leb_trans (key x) (key y) (key z)).
Qed.

Lemma py_sorted_sorted : forall l, StronglySorted (key_le key) (py_sorted key l).
Proof.
  induction l as [|x l IH]; simpl.
  - constructor.
  - now apply insert_by_sorted.
Qed.
End SortedFacts.

(** Sorting the entries with their positions sorts the contacts the same
    way. *)
Lemma insert_by_snd :
  forall (e : nat * Contact) l,
    map snd (insert_by (fun e => name_key (snd e)) e l) =
    insert_by name_key (snd e) (map snd l).
Proof.
  intros e l. induction l as [|y l IH]; simpl; [reflexivity|].
  destruct (str_ltb (name_key (snd y)) (name_key (snd e))); simpl; [now rewrite IH | reflexivity].
Qed.

Lemma py_sorted_snd :
  forall l : list (nat * Contact),
    map snd (py_sorted (fun e => name_key (snd e)) l) = py_sorted name_key (map snd l).
Proof.
  induction l as [|e l IH]; simpl; [reflexivity|].
  now rewrite insert_by_snd, IH.
Qed.

Lemma map_snd_combine_seq :
  forall (cs : list Contact) k, map snd (combine (seq k (length cs)) cs) = cs.
Proof.
  induction cs as [|c cs IH]; intro k; simpl; [reflexivity|]. now rewrite IH.
Qed.

Lemma sorted_entries_contacts :
  forall cs, map snd (sorted_entries cs) = sorted_contacts cs.
Proof.
  intro cs. unfold sorted_entries, sorted_contacts.
  now rewrite py_sorted_snd, map_snd_combine_seq.
Qed.

Lemma in_combine_seq :
  forall (cs : list Contact) k j c,
    In (j, c) (combine (seq k (length cs)) cs) ->
    (k <= j)%nat /\ nth_error cs (j - k) = Some c.
Proof.
  induction cs as [|x cs IH]; intros k j c H; simpl in H; [contradiction|].
  destruct H as [H | H].
  - injection H as <- <-. split; [lia|]. now rewrite Nat.sub_diag.
  - apply IH in H. destruct H as [Hk Hn]. split; [lia|].
    replace (j - k)%nat with (S (j - S k)) by lia. exact Hn.
Qed.

(** Every entry of the sorted listing is the contact stored at its
    position. *)
Lemma sorted_entries_position :
  forall cs j c, In (j, c) (sorted_entries cs) -> nth_error cs j = Some c.
Proof.
  intros cs j c H. unfold sorted_entries in H.
  apply py_sorted_in in H. apply in_combine_seq in H.
  destruct H as [_ H]. now rewrite Nat.sub_0_r in H.
Qed.

(** ** Output bookkeeping *)

Lemma emit_emit : forall a b s, emit b (emit a s) = emit (a ++ b) s.
Proof. intros a b s. unfold emit. simpl. now rewrite <- app_assoc. Qed.

Lemma write_emit : forall chunk s, write chunk s = emit [chunk] s.
Proof. reflexivity. Qed.

Lemma print_emit : forall text s, print text s = emit [text ++ nl] s.
Proof. reflexivity. Qed.

Lemma emit_nil : forall s, emit [] s = s.
Proof. intros [cs f out]. unfold emit. simpl. now rewrite app_nil_r. Qed.

Lemma print_names_emit :
  forall l i s, print_names i l s = emit (names_listing i l) s.
Proof.
  induction l as [|c l IH]; intros i s; simpl.
  - symmetry. apply emit_nil.
  - rewrite IH, print_emit, emit_emit. rewrite <- !app_assoc. reflexivity.
Qed.

Lemma print_contacts_one :
  forall c s, print_contacts [c] s = emit (detail_table c) s.
Proof.
  intros c s. unfold print_contacts, print_rows, detail_table.
  rewrite !print_emit, !emit_emit.
  unfold table_row, ljust, detail_row, column, shown_name, full_name. reflexivity.
Qed.

(** ** Index selection *)

Lemma in_range_nth :
  forall (A : Type) (l : list A) z,
    in_range z (length l) = true -> exists x, nth_error l (index_of z) = Some x.
Proof.
  intros A l z H. unfold in_range in H. apply andb_true_iff in H.
  destruct H as [H1 H2]. apply Z.leb_le in H1, H2.
  destruct (nth_error l (index_of z)) as [x|] eqn:E; [now exists x|].
  apply nth_error_None in E. unfold index_of in E. lia.
Qed.

Lemma view_loop_retries :
  forall listing bad lines s,
    Forall (fun line => refused_choice (length listing) line = true) bad ->
    view_loop listing (bad ++ lines) s =
    view_loop listing lines (emit (view_retries bad) s).
Proof.
  intros listing bad lines. induction bad as [|line bad IH]; intros s H.
  - simpl. now rewrite emit_nil.
  - inversion H as [|x l Hline Hbad]; subst.
    cbn [app view_loop view_retries]. unfold refused_choice in Hline.
    destruct (py_int line) as [z|].
    + apply negb_true_iff in Hline. rewrite Hline.
      rewrite IH by exact Hbad. rewrite print_emit, write_emit, !emit_emit. reflexivity.
    + rewrite (IH _ Hbad), print_emit, write_emit, !emit_emit. reflexivity.
Qed.

Lemma view_loop_select :
  forall listing good rest s z c,
    py_int good = Some z ->
    in_range z (length listing) = true ->
    nth_error listing (index_of z) = Some c ->
    view_loop listing (good :: rest) s =
    Ret tt rest (emit (view_prompt :: detail_table c) s).
Proof.
  intros listing good rest s z c Hint Hrange Hnth.
  cbn [view_loop]. rewrite Hint, Hrange, Hnth.
  rewrite print_contacts_one, write_emit, emit_emit. reflexivity.
Qed.

(** A run of View: refused lines, then a valid index. *)
Lemma view_contacts_run :
  forall s bad good rest z c,
    contacts s <> [] ->
    Forall (fun line => refused_choice (length (contacts s)) line = true) bad ->
    py_int good = Some z ->
    in_range z (length (contacts s)) = true ->
    nth_error (sorted_contacts (contacts s)) (index_of z) = Some c ->
    view_contacts (bad ++ good :: rest) s =
    Ret tt rest
      (emit ([nl ++ lit "Contacts:" ++ nl] ++ names_listing 1 (sorted_contacts (contacts s))
               ++ view_retries bad ++ [view_prompt] ++ detail_table c) s).
Proof.
  intros s bad good rest z c Hne Hbad Hint Hrange Hc.
  set (listing := sorted_contacts (contacts s)) in *.
  assert (Hlen : length listing = length (contacts s)) by apply py_sorted_length.
  rewrite <- Hlen in Hbad, Hrange.
  unfold view_contacts. destruct (contacts s) as [|c0 cs] eqn:E; [congruence|].
  fold listing. rewrite (view_loop_retries listing bad _ _ Hbad).
  rewrite (view_loop_select listing good rest _ z c Hint Hrange Hc).
  rewrite print_names_emit, print_emit, !emit_emit. reflexivity.
Qed.

(** C8: on a non-empty collection View lists every contact's full name,
    in ascending order of the lower-cased full name; it asks again after
    every line that is not a number or is out of range; at the first valid
    index it shows the name, number and email of the contact at that place
    of the listing, in one row under the heading, each value followed by
    the spaces that fill its column; the collection and the file stay as
    they were. *)
Theorem view_lists_sorted_and_shows_selection :
  forall s bad good rest z,
    contacts s <> [] ->
    Forall (fun line => refused_choice (length (contacts s)) line = true) bad ->
    py_int good = Some z ->
    in_range z (length (contacts s)) = true ->
    let listing := sorted_contacts (contacts s) in
    Permutation listing (contacts s) /\
    StronglySorted (key_le name_key) listing /\
    exists c s',
      nth_error listing (index_of z) = Some c /\
      view_contacts (bad ++ good :: rest) s = Ret tt rest s' /\
      contacts s' = contacts s /\
      file s' = file s /\
      stdout s' =
        stdout s ++ [nl ++ lit "Contacts:" ++ nl] ++ names_listing 1 listing
          ++ view_retries bad
          ++ [view_prompt;
              [10%N] ++ table_heading ++ [10%N];
              detail_row (lit "1.")
                (strip (first_name c ++ lit " " ++ middle_name c ++ lit " " ++ last_name c))
                (number c) (email c) ++ [10%N];
              [10%N]].
Proof.
  intros s bad good rest z Hne Hbad Hint Hrange listing.
  split; [apply py_sorted_perm|]. split; [apply py_sorted_sorted|].
  assert (Hr : in_range z (length listing) = true).
  { unfold listing, sorted_contacts. now rewrite py_sorted_length. }
  destruct (in_range_nth _ listing z Hr) as [c Hc].
  exists c. eexists. split; [exact Hc|]. split.
  - apply (view_contacts_run s bad good rest z c Hne Hbad Hint Hrange Hc).
  - cbn [emit contacts file stdout]. repeat split.
Qed.

Lemma view_lists_sorted_and_shows_selection_witness :
  let bob := {| first_name := lit "Bob"; middle_name := []; last_name := lit "Smith";
                number := lit "0123456789"; email := lit "bob@x.org" |} in
  let amy := {| first_name := lit "amy"; middle_name := lit "Jo"; last_name := lit "Adams";
                number := lit "1111111111"; email := lit "amy@x.org" |} in
  let s := {| contacts := [bob; amy]; file := None; stdout := [] |} in
  let bad := [lit "one"; lit "3"; lit "0"] in
  exists s',
    view_contacts (bad ++ [lit " 2 "; lit "left"]) s = Ret tt [lit "left"] s' /\
    contacts s' = contacts s /\
    stdout s' =
      [nl ++ lit "Contacts:" ++ nl; lit "1. amy Jo Adams" ++ nl; lit "2. Bob  Smith" ++ nl]
        ++ view_retries bad
        ++ [view_prompt;
            nl ++ lit "     Name                        Number          Email                         "
               ++ nl;
            lit "1.   Bob  Smith                  0123456789      bob@x.org                     "
              ++ nl;
            nl].
Proof.
  intros bob amy s bad.
  destruct (view_lists_sorted_and_shows_selection s bad (lit " 2 ") [lit "left"] 2)
    as (_ & _ & c & s' & Hc & Hrun & Hcs & _ & Hout).
  - discriminate.
  - repeat constructor.
  - reflexivity.
  - reflexivity.
  - exists s'. split; [exact Hrun|]. split; [exact Hcs|].
    vm_compute in Hc. injection Hc as <-. rewrite Hout. vm_compute. reflexivity.
Defined.

(** ** Delete *)

Lemma delete_loop_retries :
  forall listing bad lines s,
    Forall (fun line => refused_choice (length listing) line = true) bad ->
    delete_loop listing (bad ++ lines) s =
    delete_loop listing lines (emit (delete_retries bad) s).
Proof.
  intros listing bad lines. induction bad as [|line bad IH]; intros s H.
  - simpl. now rewrite emit_nil.
  - inversion H as [|x l Hline Hbad]; subst.
    cbn [app delete_loop delete_retries]. unfold refused_choice in Hline.
    destruct (py_int line) as [z|].
    + apply negb_true_iff in Hline. rewrite Hline.
      rewrite (IH _ Hbad), print_emit, write_emit, !emit_emit. reflexivity.
    + rewrite (IH _ Hbad), print_emit, write_emit, !emit_emit. reflexivity.
Qed.

Lemma remove_first_length :
  forall c cs, In c cs -> S (length (remove_first c cs)) = length cs.
Proof.
  intros c cs. induction cs as [|x cs IH]; intro H; simpl in *; [contradiction|].
  destruct (contact_eqb x c) eqn:E; [reflexivity|].
  destruct H as [-> | H].
  - rewrite contact_eqb_refl in E. discriminate.
  - simpl. now rewrite IH.
Qed.

(** C5, as stated, fails: the answer is trimmed before it is compared, so
    the answer " y", which is not the letter y in either case, deletes the
    contact and rewrites the file. *)
Lemma delete_accepts_padded_answer :
  let ann := {| first_name := lit "Ann"; middle_name := []; last_name := lit "Lee";
                number := lit "0123456789"; email := lit "ann@x.org" |} in
  let s := {| contacts := [ann]; file := None; stdout := [] |} in
  lower (lit " y") <> lit "y" /\
  exists s',
    delete_contact [lit "1"; lit " y"] s = Ret tt [] s' /\
    contacts s' = [] /\
    file s' <> file s.
Proof.
  split.
  - vm_compute. discriminate.
  - eexists. split; [vm_compute; reflexivity|].
    split; [reflexivity | discriminate].
Qed.

(** C5, amended: on a non-empty collection, once a valid index is given
    (after any number of refused lines), Delete reads one answer.  If the
    answer, trimmed and lower-cased, is not "y", the collection and the
    file stay as they were and the deletion is reported as cancelled.  If
    it is "y", the selected contact is removed from the collection and the
    file is rewritten from the new collection. *)
Theorem delete_needs_confirmation :
  forall s bad good answer rest z,
    contacts s <> [] ->
    Forall (fun line => refused_choice (length (contacts s)) line = true) bad ->
    py_int good = Some z ->
    in_range z (length (contacts s)) = true ->
    exists c s',
      nth_error (sorted_contacts (contacts s)) (index_of z) = Some c /\
      In c (contacts s) /\
      delete_contact (bad ++ good :: answer :: rest) s = Ret tt rest s' /\
      if str_eqb (lower (strip answer)) (lit "y")
      then contacts s' = remove_first c (contacts s) /\
           S (length (contacts s')) = length (contacts s) /\
           file s' = Some (csv_text (contacts s'))
      else contacts s' = contacts s /\
           file s' = file s /\
           stdout s' =
             stdout s ++ [nl ++ lit "Contacts:" ++ nl]
               ++ names_listing 1 (sorted_contacts (contacts s))
               ++ delete_retries bad
               ++ [delete_prompt; confirm_prompt c; lit "Deletion cancelled." ++ nl].
Proof.
  intros s bad good answer rest z Hne Hbad Hint Hrange.
  set (listing := sorted_contacts (contacts s)).
  assert (Hlen : length listing = length (contacts s)) by apply py_sorted_length.
  rewrite <- Hlen in Hbad, Hrange.
  destruct (in_range_nth _ listing z Hrange) as [c Hc].
  assert (Hin : In c (contacts s)).
  { apply (py_sorted_in _ name_key). fold (sorted_contacts (contacts s)).
    apply nth_error_In with (n := index_of z). exact Hc. }
  assert (Run : delete_contact (bad ++ good :: answer :: rest) s =
                delete_loop listing (good :: answer :: rest)
                  (emit ([nl ++ lit "Contacts:" ++ nl] ++ names_listing 1 listing
                           ++ delete_retries bad) s)).
  { unfold delete_contact. destruct (contacts s) as [|c0 cs] eqn:E; [congruence|].
    fold listing. rewrite (delete_loop_retries listing bad _ _ Hbad).
    rewrite print_names_emit, print_emit, !emit_emit, <- !app_assoc. reflexivity. }
  exists c. rewrite Run. cbn [delete_loop]. rewrite Hint, Hrange, Hc.
  destruct (str_eqb (lower (strip answer)) (lit "y")) eqn:Y.
  - eexists. split; [reflexivity|]. split; [exact Hin|]. split; [reflexivity|].
    cbn [print write save set_file set_contacts emit contacts file stdout].
    split; [reflexivity|]. split; [|reflexivity].
    now apply remove_first_length.
  - eexists. split; [reflexivity|]. split; [exact Hin|]. split; [reflexivity|].
    rewrite !print_emit, !write_emit, !emit_emit.
    cbn [emit contacts file stdout]. repeat split.
    rewrite <- !app_assoc. reflexivity.
Qed.

Lemma delete_needs_confirmation_witness :
  let bob := {| first_name := lit "Bob"; middle_name := []; last_name := lit "Smith";
                number := lit "0123456789"; email := lit "bob@x.org" |} in
  let amy := {| first_name := lit "Amy"; middle_name := []; last_name := lit "Adams";
                number := lit "1111111111"; email := lit "amy@x.org" |} in
  let s := {| contacts := [bob; amy]; file := Some (csv_text [bob; amy]); stdout := [] |} in
  (exists s',
     delete_contact [lit "x"; lit "7"; lit "1"; lit "yes"; lit "left"] s =
       Ret tt [lit "left"] s' /\
     contacts s' = [bob; amy] /\ file s' = file s) /\
  (exists s',
     delete_contact [lit "1"; lit " Y "] s = Ret tt [] s' /\
     contacts s' = [bob] /\ file s' = Some (csv_text [bob])).
Proof.
  intros bob amy s. split.
  - destruct (delete_needs_confirmation s [lit "x"; lit "7"] (lit "1") (lit "yes")
                [lit "left"] 1) as (c & s' & _ & _ & Hrun & Hif).
    + discriminate.
    + repeat constructor.
    + reflexivity.
    + reflexivity.
    + replace (str_eqb (lower (strip (lit "yes"))) (lit "y")) with false in Hif
        by (vm_compute; reflexivity).
      destruct Hif as (Hcs & Hfile & _).
      exists s'. split; [exact Hrun|]. split; assumption.
  - destruct (delete_needs_confirmation s [] (lit "1") (lit " Y ") [] 1)
      as (c & s' & Hc & _ & Hrun & Hif).
    + discriminate.
    + constructor.
    + reflexivity.
    + reflexivity.
    + replace (str_eqb (lower (strip (lit " Y "))) (lit "y")) with true in Hif
        by (vm_compute; reflexivity).
      destruct Hif as (Hcs & _ & Hfile).
      vm_compute in Hc. injection Hc as <-.
      exists s'. split; [exact Hrun|]. rewrite Hfile, Hcs. split; reflexivity.
Defined.

(** ** Add *)

Lemma ask_name_valid :
  forall prompt err allow_blank line rest s,
    validate_name (clean_name line) allow_blank = true ->
    ask_name prompt err allow_blank (line :: rest) s =
    Ret (clean_name line) rest (write prompt s).
Proof.
  intros prompt err allow_blank line rest s H. cbn [ask_name].
  fold (clean_name line). now rewrite H.
Qed.

(** Add after three valid names: the name check, then the rest. *)
Lemma add_contact_names :
  forall s f m l rest,
    validate_name (clean_name f) false = true ->
    validate_name (clean_name m) true = true ->
    validate_name (clean_name l) false = true ->
    add_contact (f :: m :: l :: rest) s =
    let s3 := emit add_name_prompts s in
    let full := strip (clean_name f ++ lit " " ++ clean_name m ++ lit " " ++ clean_name l) in
    if existsb (str_eqb (lower full)) (map name_key (contacts s))
    then Ret tt rest (print (lit "This contact name already exists.") s3)
    else
      (n <- ask_number ;;
       match n with
       | None => ret tt
       | Some number' =>
           e <- ask_email ;;
           match e with
           | None => ret tt
           | Some email' =>
               lift (fun s =>
                       set_contacts
                         (contacts s ++
                            [{| first_name := clean_name f; middle_name := clean_name m;
                                last_name := clean_name l; number := number';
                                email := email' |}]) s) ;;;
               save_contacts ;;;
               lift (print (lit "Contact '" ++ full ++ lit "' added successfully!"))
           end
       end) rest s3.
Proof.
  intros s f m l rest Hf Hm Hl. unfold add_contact.
  unfold bind at 1. unfold lift at 1.
  unfold bind at 1. rewrite (ask_name_valid _ _ _ _ _ _ Hf).
  unfold bind at 1. rewrite (ask_name_valid _ _ _ _ _ _ Hm).
  unfold bind at 1. rewrite (ask_name_valid _ _ _ _ _ _ Hl).
  unfold bind at 1. unfold get_contacts.
  rewrite print_emit, !write_emit, !emit_emit.
  cbn [emit contacts app]. cbv zeta.
  destruct (existsb _ _); reflexivity.
Qed.

Lemma number_taken_in :
  forall cs c, In c cs -> number_taken cs (number c) = true.
Proof.
  intros cs c H. unfold number_taken. apply existsb_exists.
  exists c. split; [exact H | apply str_eqb_refl].
Qed.

(** A successful Add. *)
Lemma add_contact_success :
  forall s f m l n e rest,
    validate_name (clean_name f) false = true ->
    validate_name (clean_name m) true = true ->
    validate_name (clean_name l) false = true ->
    name_taken (contacts s) (entered_key f m l) = false ->
    validate_number (strip n) false = true ->
    number_taken (contacts s) (strip n) = false ->
    validate_email (strip e) false = true ->
    email_taken (contacts s) (strip e) = false ->
    add_contact (f :: m :: l :: n :: e :: rest) s =
    Ret tt rest
      (print (lit "Contact '" ++ full_name (new_contact f m l n e) ++ lit "' added successfully!")
         (save
            (set_contacts (contacts s ++ [new_contact f m l n e])
               (emit (add_name_prompts ++ [lit "Enter phone number: "; lit "Enter email: "]) s)))).
Proof.
  intros s f m l n e rest Hf Hm Hl Hname Hn Hnt He Het.
  rewrite (add_contact_names s f m l _ Hf Hm Hl). cbv zeta.
  unfold name_taken, entered_key in Hname. rewrite Hname.
  unfold bind at 1. cbn [ask_number]. rewrite Hn. cbn [negb emit contacts].
  unfold number_taken in Hnt. rewrite Hnt.
  unfold bind at 1. cbn [ask_email]. rewrite He. cbn [negb write emit contacts].
  unfold email_taken in Het. rewrite Het.
  unfold bind, lift, save_contacts.
  rewrite !write_emit, !emit_emit. reflexivity.
Qed.

(** C7: when Add accepts five input lines (valid names, number and email,
    none of them taken), it stores the contact made of the trimmed,
    title-cased names and the trimmed number and email; that contact has a
    place in the sorted listing, and View with the index of that place
    shows exactly its name, number and email: after the heading, the row
    with the index, the trimmed full name, the number and the email, each
    followed by the spaces that fill its column. *)
Theorem add_then_view_roundtrip :
  forall s f m l n e rest,
    validate_name (clean_name f) false = true ->
    validate_name (clean_name m) true = true ->
    validate_name (clean_name l) false = true ->
    name_taken (contacts s) (entered_key f m l) = false ->
    validate_number (strip n) false = true ->
    number_taken (contacts s) (strip n) = false ->
    validate_email (strip e) false = true ->
    email_taken (contacts s) (strip e) = false ->
    let c := new_contact f m l n e in
    exists s1,
      add_contact (f :: m :: l :: n :: e :: rest) s = Ret tt rest s1 /\
      contacts s1 = contacts s ++ [c] /\
      (exists i, nth_error (sorted_contacts (contacts s1)) i = Some c) /\
      forall i line rest',
        nth_error (sorted_contacts (contacts s1)) i = Some c ->
        py_int line = Some (Z.of_nat (S i)) ->
        exists s2,
          view_contacts (line :: rest') s1 = Ret tt rest' s2 /\
          contacts s2 = contacts s1 /\
          stdout s2 =
            stdout s1 ++ [nl ++ lit "Contacts:" ++ nl]
              ++ names_listing 1 (sorted_contacts (contacts s1))
              ++ [view_prompt;
                  [10%N] ++ table_heading ++ [10%N];
                  detail_row (lit "1.")
                    (strip (clean_name f ++ lit " " ++ clean_name m ++ lit " " ++ clean_name l))
                    (strip n) (strip e) ++ [10%N];
                  [10%N]].
Proof.
  intros s f m l n e rest Hf Hm Hl Hname Hn Hnt He Het c. subst c.
  eexists. split; [apply (add_contact_success s f m l n e rest); assumption|].
  cbn [print write save set_file set_contacts emit contacts file stdout].
  split; [reflexivity|]. split.
  - apply In_nth_error. apply (py_sorted_in _ name_key).
    apply in_or_app. right. left. reflexivity.
  - intros i line rest' Hi Hline.
    assert (Hlt : (i < length (sorted_contacts (contacts s ++ [new_contact f m l n e])))%nat).
    { apply nth_error_Some. rewrite Hi. discriminate. }
    unfold sorted_contacts in Hlt. rewrite py_sorted_length in Hlt.
    eexists. split.
    + apply (view_contacts_run _ [] line rest' (Z.of_nat (S i)) (new_contact f m l n e));
        cbn [print write save set_file set_contacts emit contacts].
      * destruct (contacts s); discriminate.
      * constructor.
      * exact Hline.
      * unfold in_range. apply andb_true_iff.
        split; apply Z.leb_le; lia.
      * unfold index_of.
        replace (Z.to_nat (Z.of_nat (S i) - 1)) with i by lia. exact Hi.
    + cbn [emit contacts stdout view_retries app]. split; reflexivity.
Qed.

Lemma add_then_view_roundtrip_witness :
  let bob := {| first_name := lit "Bob"; middle_name := []; last_name := lit "Smith";
                number := lit "0123456789"; email := lit "bob@x.org" |} in
  let s := {| contacts := [bob]; file := None; stdout := [] |} in
  let amy := {| first_name := lit "Amy"; middle_name := lit "Jo"; last_name := lit "Adams";
                number := lit "1111111111"; email := lit "Amy@x.org" |} in
  exists s1 s2,
    add_contact [lit " amy"; lit "JO"; lit "adams "; lit "1111111111"; lit " Amy@x.org"] s =
      Ret tt [] s1 /\
    contacts s1 = [bob; amy] /\
    view_contacts [lit "1"] s1 = Ret tt [] s2 /\
    stdout s2 =
      stdout s1
        ++ [nl ++ lit "Contacts:" ++ nl; lit "1. Amy Jo Adams" ++ nl; lit "2. Bob  Smith" ++ nl;
            nl ++ lit "Enter the index of the contact to view details: ";
            nl ++ lit "     Name                        Number          Email                         "
               ++ nl;
            lit "1.   Amy Jo Adams                1111111111      Amy@x.org                     "
              ++ nl;
            nl].
Proof.
  intros bob s amy.
  destruct (add_then_view_roundtrip s (lit " amy") (lit "JO") (lit "adams ")
              (lit "1111111111") (lit " Amy@x.org") [])
    as (s1 & Hadd & Hcs & _ & Hview); [vm_compute; reflexivity .. |].
  destruct (Hview 0%nat (lit "1") []) as (s2 & Hrun & _ & Hout).
  - rewrite Hcs. vm_compute. reflexivity.
  - vm_compute. reflexivity.
  - exists s1, s2. split; [exact Hadd|]. split; [exact Hcs|]. split; [exact Hrun|].
    rewrite Hout, Hcs. vm_compute. reflexivity.
Defined.

(** ** Edit *)

Lemma load_csv_text :
  forall lines s cs,
    file s = Some (csv_text cs) ->
    fields_fit cs ->
    load_contacts lines s = Ret tt lines (set_contacts cs s).
Proof.
  intros lines s cs Hfile Fit. unfold load_contacts.
  cbn [set_contacts file]. rewrite Hfile, (reader_csv_text _ Fit).
  replace (row_eqb FIELDNAMES FIELDNAMES) with true by (symmetry; now apply row_eqb_eq).
  cbn [negb]. rewrite append_rows_contacts. reflexivity.
Qed.

Lemma print_menu_emit : forall s, write (lit "Enter choice: ") (print_menu s) = emit menu_chunks s.
Proof.
  intro s. unfold print_menu. rewrite !print_emit, write_emit, !emit_emit. reflexivity.
Qed.

Lemma sorted_entries_length : forall cs, length (sorted_entries cs) = length cs.
Proof.
  intro cs. unfold sorted_entries. rewrite py_sorted_length, length_combine, length_seq.
  apply Nat.min_id.
Qed.

(** Edit up to the field loop, for a valid index. *)
Lemma edit_contact_select :
  forall s idx lines z j c,
    py_int idx = Some z ->
    in_range z (length (contacts s)) = true ->
    nth_error (sorted_entries (contacts s)) (index_of z) = Some (j, c) ->
    edit_contact (idx :: lines) s =
    edit_loop j lines
      (emit ([nl ++ lit "Contacts:" ++ nl] ++ names_listing 1 (sorted_contacts (contacts s))
               ++ [edit_prompt]) s).
Proof.
  intros s idx lines z j c Hint Hrange Hnth. unfold edit_contact.
  destruct (contacts s) as [|c0 cs] eqn:E.
  - destruct (index_of z); discriminate.
  - rewrite Hint, sorted_entries_length, Hrange, Hnth.
    rewrite sorted_entries_contacts, print_names_emit, print_emit, write_emit, !emit_emit.
    rewrite <- !app_assoc. reflexivity.
Qed.










(** ** Uniqueness of names *)

Lemma ask_name_store :
  forall prompt err allow_blank lines s,
    contacts (final_state (ask_name prompt err allow_blank lines s)) = contacts s.
Proof.
  intros prompt err allow_blank lines. induction lines as [|line lines IH]; intro s.
  - reflexivity.
  - cbn [ask_name]. destruct (validate_name (title (strip line)) allow_blank).
    + reflexivity.
    + rewrite IH. reflexivity.
Qed.

Lemma ask_number_store :
  forall lines s, contacts (final_state (ask_number lines s)) = contacts s.
Proof.
  induction lines as [|line lines IH]; intro s.
  - reflexivity.
  - cbn [ask_number]. destruct (negb (validate_number (strip line) false)).
    + rewrite IH. reflexivity.
    + destruct (existsb _ (contacts s)); reflexivity.
Qed.

Lemma ask_email_store :
  forall lines s, contacts (final_state (ask_email lines s)) = contacts s.
Proof.
  induction lines as [|line lines IH]; intro s.
  - reflexivity.
  - cbn [ask_email]. destruct (negb (validate_email (strip line) false)).
    + rewrite IH. reflexivity.
    + destruct (existsb _ (contacts s)); reflexivity.
Qed.

(** Add leaves the collection as it was or appends one contact whose name
    key no stored contact has. *)
Lemma add_contact_cases :
  forall lines s r,
    add_contact lines s = r ->
    contacts (final_state r) = contacts s \/
    exists c, contacts (final_state r) = contacts s ++ [c] /\
              name_taken (contacts s) (name_key c) = false.
Proof.
  intros lines s r Hr. unfold add_contact in Hr.
  unfold bind at 1 in Hr. unfold lift at 1 in Hr.
  unfold bind at 1 in Hr.
  pose proof (ask_name_store (lit "Enter first name: ")
                (lit "Invalid first name. Use alphabetic characters only.") false
                lines (print (nl ++ lit "--- Add Contact ---") s)) as H1.
  destruct (ask_name _ _ false lines _) as [first l1 s1 | e1 l1 s1];
    cbn [final_state print write contacts] in H1; [|subst r; left; exact H1].
  unfold bind at 1 in Hr.
  pose proof (ask_name_store (lit "Enter middle name (press Enter to skip): ")
                (lit "Invalid middle name. Use alphabetic characters only.") true l1 s1) as H2.
  destruct (ask_name _ _ true l1 s1) as [middle l2 s2 | e2 l2 s2];
    cbn [final_state] in H2; [|subst r; left; cbn [final_state]; congruence].
  unfold bind at 1 in Hr.
  pose proof (ask_name_store (lit "Enter last name: ")
                (lit "Invalid last name. Use alphabetic characters only.") false l2 s2) as H3.
  destruct (ask_name _ _ false l2 s2) as [last l3 s3 | e3 l3 s3];
    cbn [final_state] in H3; [|subst r; left; cbn [final_state]; congruence].
  unfold bind at 1 in Hr. unfold get_contacts in Hr.
  assert (H0 : contacts s3 = contacts s) by congruence.
  destruct (existsb _ (map name_key (contacts s3))) eqn:Taken.
  - subst r. left. exact H0.
  - unfold bind at 1 in Hr. pose proof (ask_number_store l3 s3) as H4.
    destruct (ask_number l3 s3) as [[n|] l4 s4 | e4 l4 s4];
      cbn [final_state] in H4;
      try (subst r; left; cbn [ret final_state]; congruence).
    unfold bind at 1 in Hr. pose proof (ask_email_store l4 s4) as H5.
    destruct (ask_email l4 s4) as [[e|] l5 s5 | e5 l5 s5];
      cbn [final_state] in H5;
      try (subst r; left; cbn [ret final_state]; congruence).
    subst r. right. eexists. split.
    + unfold bind, lift, save_contacts, save, print, write, set_file, set_contacts.
      cbn [final_state contacts]. rewrite H5, H4, H0. reflexivity.
    + unfold name_taken. rewrite <- H0. exact Taken.
Qed.

Lemma add_contact_unique_names :
  forall lines s,
    unique_names (contacts s) ->
    unique_names (contacts (final_state (add_contact lines s))).
Proof.
  intros lines s U.
  destruct (add_contact_cases lines s _ eq_refl) as [-> | (c & -> & Fresh)]; [exact U|].
  unfold unique_names in *. rewrite map_app. cbn [map].
  apply NoDup_app; [exact U | repeat constructor; intros [] | ].
  intros k Hk [<- | []].
  unfold name_taken in Fresh.
  assert (T : existsb (str_eqb (name_key c)) (map name_key (contacts s)) = true).
  { apply existsb_exists. exists (name_key c). split; [exact Hk | apply str_eqb_refl]. }
  congruence.
Qed.

Lemma remove_first_keys :
  forall c cs,
    NoDup (map name_key cs) -> NoDup (map name_key (remove_first c cs)).
Proof.
  intros c cs. induction cs as [|x cs IH]; intro U; cbn [remove_first map] in *.
  - exact U.
  - inversion U as [|k ks Hnot U']; subst.
    destruct (contact_eqb x c); [exact U'|].
    cbn [map]. constructor; [|now apply IH].
    intro Hin. apply Hnot. clear - Hin.
    induction cs as [|y cs IH]; cbn [remove_first map] in *; [contradiction|].
    destruct (contact_eqb y c).
    + right. exact Hin.
    + destruct Hin as [-> | Hin]; [now left | right; now apply IH].
Qed.

Lemma delete_loop_cases :
  forall listing lines s r,
    delete_loop listing lines s = r ->
    contacts (final_state r) = contacts s \/
    exists c, contacts (final_state r) = remove_first c (contacts s).
Proof.
  intros listing lines. induction lines as [|line lines IH]; intros s r Hr.
  - subst r. left. reflexivity.
  - cbn [delete_loop] in Hr. destruct (py_int line) as [z|].
    + destruct (in_range z (length listing)).
      * destruct (nth_error listing (index_of z)) as [c|]; [|subst r; left; reflexivity].
        destruct lines as [|answer lines]; [subst r; left; reflexivity|].
        destruct (str_eqb (lower (strip answer)) (lit "y")); subst r.
        -- right. exists c. reflexivity.
        -- left. reflexivity.
      * apply (IH _ _ Hr).
    + apply (IH _ _ Hr).
Qed.

Lemma delete_contact_unique_names :
  forall lines s,
    unique_names (contacts s) ->
    unique_names (contacts (final_state (delete_contact lines s))).
Proof.
  intros lines s U. unfold delete_contact.
  destruct (contacts s) as [|c0 cs] eqn:E.
  - cbn [final_state print write contacts]. rewrite E. exact U.
  - pose proof (delete_loop_cases (sorted_contacts (c0 :: cs)) lines
                  (print_names 1 (sorted_contacts (c0 :: cs)) (print (nl ++ lit "Contacts:") s))
                  _ eq_refl) as H.
    rewrite print_names_emit, print_emit, emit_emit in H.
    rewrite print_names_emit, print_emit, emit_emit.
    cbn [emit contacts] in H. rewrite E in H.
    destruct H as [-> | (c & ->)].
    + exact U.
    + apply remove_first_keys. exact U.
Qed.

(** Assigning a number or an email does not change a name key. *)
Lemma with_number_key : forall n c, name_key (with_number n c) = name_key c.
Proof. reflexivity. Qed.

Lemma with_email_key : forall e c, name_key (with_email e c) = name_key c.
Proof. reflexivity. Qed.

Lemma set_nth_same_key :
  forall cs j c c0,
    nth_error cs j = Some c0 -> name_key c = name_key c0 ->
    map name_key (set_nth j c cs) = map name_key cs.
Proof.
  induction cs as [|x cs IH]; intros j c c0 H K; destruct j; simpl in *;
    try discriminate; try reflexivity.
  - injection H as ->. now rewrite K.
  - now rewrite (IH j c c0 H K).
Qed.

(** C1 fails on the code: editing a name.  From an empty store two Adds
    give a collection with unique names; Edit then renames Bob Smith to
    Alice Smith without any check against the other contacts, and the
    collection ends with two contacts named "alice  smith". *)
Theorem edit_name_breaks_unique_names :
  let start := {| contacts := []; file := None; stdout := [] |} in
  exists s1 s2 s3 s4,
    init_contacts [] start = Ret tt [] s1 /\
    add_contact [lit "alice"; []; lit "smith"; lit "1111111111"; lit "alice@x.org"] s1 =
      Ret tt [] s2 /\
    add_contact [lit "bob"; []; lit "smith"; lit "0123456789"; lit "bob@x.org"] s2 =
      Ret tt [] s3 /\
    unique_names (contacts s3) /\
    edit_contact [lit "2"; lit "1"; lit "alice"; lit "6"] s3 = Ret tt [] s4 /\
    map name_key (contacts s4) = [lit "alice  smith"; lit "alice  smith"] /\
    ~ unique_names (contacts s4).
Proof.
  do 4 eexists.
  split; [vm_compute; reflexivity|].
  split; [vm_compute; reflexivity|].
  split; [vm_compute; reflexivity|].
  split.
  { unfold unique_names. vm_compute. repeat constructor.
    - intros [H | []]. discriminate.
    - intros []. }
  split; [vm_compute; reflexivity|].
  split; [vm_compute; reflexivity|].
  unfold unique_names. vm_compute. intro U.
  inversion U as [|k ks Hnot _]; subst. apply Hnot. left. reflexivity.
Qed.

(** ** What the loops of Add leave behind *)

Lemma unchanged_refl : forall s, unchanged s s.
Proof. intro s. split; reflexivity. Qed.

Lemma unchanged_trans :
  forall a b c, unchanged a b -> unchanged b c -> unchanged a c.
Proof.
  intros a b c [H1 H2] [H3 H4]. split; congruence.
Qed.

Lemma unchanged_emit : forall out s s', unchanged (emit out s) s' -> unchanged s s'.
Proof. intros out s s' [H1 H2]. split; assumption. Qed.

Lemma left_of_refl : forall lines, left_of lines lines.
Proof. intro lines. now exists []. Qed.

Lemma left_of_cons :
  forall line lines rest, left_of lines rest -> left_of (line :: lines) rest.
Proof. intros line lines rest [used ->]. now exists (line :: used). Qed.

Lemma left_of_trans :
  forall a b c, left_of a b -> left_of b c -> left_of a c.
Proof.
  intros a b c [u ->] [v ->]. exists (u ++ v). now rewrite app_assoc.
Qed.

Lemma left_of_length : forall lines rest, left_of lines rest -> length rest <= length lines.
Proof. intros lines rest [used ->]. rewrite length_app. lia. Qed.

(** A trimmed string does not end in white space, so a trimmed string that
    [validate_email] accepts has the shape of an address: the final
    newline that the pattern tolerates cannot be there. *)
Lemma lstrip_head : forall s c r, lstrip s = c :: r -> is_space c = false.
Proof.
  induction s as [|x s IH]; intros c r H; simpl in H; [discriminate|].
  destruct (is_space x) eqn:E; [now apply (IH c r)|].
  injection H as <- _. exact E.
Qed.

Lemma strip_last : forall s r c, strip s = r ++ [c] -> is_space c = false.
Proof.
  intros s r c H. unfold strip, rstrip in H. rewrite !rev'_rev in H.
  apply (f_equal (@rev N)) in H. rewrite rev_involutive, rev_app_distr in H.
  simpl in H. now apply lstrip_head in H.
Qed.

Lemma stripped_email_shape :
  forall raw, validate_email (strip raw) false = true -> email_shape (strip raw).
Proof.
  intros raw V. apply validate_email_iff in V. destruct V as [Sh | (s0 & E & _)].
  - exact Sh.
  - apply strip_last in E. vm_compute in E. discriminate.
Qed.

Lemma ask_name_spec :
  forall prompt err allow_blank lines s,
    match ask_name prompt err allow_blank lines s with
    | Ret name rest s' =>
        validate_name name allow_blank = true /\ unchanged s s' /\ left_of lines rest
    | Exc e _ s' => e = EOFError /\ unchanged s s'
    end.
Proof.
  intros prompt err allow_blank lines. induction lines as [|line lines IH]; intro s.
  - cbn [ask_name]. split; [reflexivity | split; reflexivity].
  - cbn [ask_name]. destruct (validate_name (title (strip line)) allow_blank) eqn:V.
    + split; [exact V|]. split; [split; reflexivity | now exists [line]].
    + specialize (IH (print err (write prompt s))).
      destruct (ask_name prompt err allow_blank lines _) as [name rest s' | e rest s'].
      * destruct IH as (V' & U & L). split; [exact V'|].
        split; [exact U | now apply left_of_cons].
      * exact IH.
Qed.

Lemma ask_number_spec :
  forall lines s,
    match ask_number lines s with
    | Ret (Some n) rest s' =>
        validate_number n false = true /\ number_taken (contacts s) n = false /\
        unchanged s s' /\ left_of lines rest
    | Ret None rest s' => unchanged s s' /\ left_of lines rest
    | Exc e _ s' => e = EOFError /\ unchanged s s'
    end.
Proof.
  induction lines as [|line lines IH]; intro s.
  - cbn [ask_number]. split; [reflexivity | split; reflexivity].
  - cbn [ask_number]. destruct (validate_number (strip line) false) eqn:V; cbn [negb].
    + fold (number_taken (contacts s) (strip line)).
      destruct (number_taken (contacts s) (strip line)) eqn:T.
      * split; [split; reflexivity | now exists [line]].
      * split; [exact V|]. split; [exact T|].
        split; [split; reflexivity | now exists [line]].
    + specialize (IH (print (lit "Invalid phone number. Must be exactly 10 digits.")
                        (write (lit "Enter phone number: ") s))).
      destruct (ask_number lines _) as [[n|] rest s' | e rest s'].
      * destruct IH as (V' & T & U & L). repeat split; try assumption; try apply U.
        now apply left_of_cons.
      * destruct IH as (U & L). split; [exact U | now apply left_of_cons].
      * exact IH.
Qed.

Lemma ask_email_spec :
  forall lines s,
    match ask_email lines s with
    | Ret (Some e) rest s' =>
        email_shape e /\ email_taken (contacts s) e = false /\
        unchanged s s' /\ left_of lines rest
    | Ret None rest s' => unchanged s s' /\ left_of lines rest
    | Exc e _ s' => e = EOFError /\ unchanged s s'
    end.
Proof.
  induction lines as [|line lines IH]; intro s.
  - cbn [ask_email]. split; [reflexivity | split; reflexivity].
  - cbn [ask_email]. destruct (validate_email (strip line) false) eqn:V; cbn [negb].
    + fold (email_taken (contacts s) (strip line)).
      destruct (email_taken (contacts s) (strip line)) eqn:T.
      * split; [split; reflexivity | now exists [line]].
      * split; [now apply stripped_email_shape|]. split; [exact T|].
        split; [split; reflexivity | now exists [line]].
    + specialize (IH (print (lit "Invalid email format.") (write (lit "Enter email: ") s))).
      destruct (ask_email lines _) as [[e|] rest s' | e rest s'].
      * destruct IH as (V' & T & U & L). repeat split; try assumption; try apply U.
        now apply left_of_cons.
      * destruct IH as (U & L). split; [exact U | now apply left_of_cons].
      * exact IH.
Qed.

(** Add returns with the store as it was or with one valid, new contact
    appended and saved; it is left only by [EOFError], with the store as
    it was. *)
Lemma add_contact_spec :
  forall lines s,
    match add_contact lines s with
    | Ret _ rest s' => left_of lines rest /\ (unchanged s s' \/ added s s')
    | Exc e _ s' => e = EOFError /\ unchanged s s'
    end.
Proof.
  intros lines s. unfold add_contact.
  unfold bind at 1. unfold lift at 1.
  unfold bind at 1.
  pose proof (ask_name_spec (lit "Enter first name: ")
                (lit "Invalid first name. Use alphabetic characters only.") false
                lines (print (nl ++ lit "--- Add Contact ---") s)) as H1.
  destruct (ask_name _ _ false lines _) as [first l1 s1 | e1 l1 s1];
    [|destruct H1 as [-> [U1 U2]]; split; [reflexivity | split; assumption]].
  destruct H1 as (V1 & [C1 F1] & L1). cbn [print write contacts file] in C1, F1.
  unfold bind at 1.
  pose proof (ask_name_spec (lit "Enter middle name (press Enter to skip): ")
                (lit "Invalid middle name. Use alphabetic characters only.") true l1 s1) as H2.
  destruct (ask_name _ _ true l1 s1) as [middle l2 s2 | e2 l2 s2];
    [|destruct H2 as [-> [U1 U2]]; split; [reflexivity | split; congruence]].
  destruct H2 as (V2 & [C2 F2] & L2).
  unfold bind at 1.
  pose proof (ask_name_spec (lit "Enter last name: ")
                (lit "Invalid last name. Use alphabetic characters only.") false l2 s2) as H3.
  destruct (ask_name _ _ false l2 s2) as [last l3 s3 | e3 l3 s3];
    [|destruct H3 as [-> [U1 U2]]; split; [reflexivity | split; congruence]].
  destruct H3 as (V3 & [C3 F3] & L3).
  assert (C0 : contacts s3 = contacts s) by congruence.
  assert (F0 : file s3 = file s) by congruence.
  assert (L0 : left_of lines l3).
  { apply (left_of_trans _ l1); [exact L1|]. now apply (left_of_trans _ l2). }
  unfold bind at 1. unfold get_contacts.
  destruct (existsb _ (map name_key (contacts s3))) eqn:Taken.
  - unfold lift. split; [exact L0 | left; split; assumption].
  - unfold bind at 1. pose proof (ask_number_spec l3 s3) as H4.
    destruct (ask_number l3 s3) as [[n|] l4 s4 | e4 l4 s4].
    + destruct H4 as (V4 & T4 & [C4 F4] & L4).
      unfold bind at 1. pose proof (ask_email_spec l4 s4) as H5.
      destruct (ask_email l4 s4) as [[e|] l5 s5 | e5 l5 s5].
      * destruct H5 as (V5 & T5 & [C5 F5] & L5).
        unfold bind, lift, save_contacts.
        cbn [save print write set_file set_contacts contacts file].
        split.
        { apply (left_of_trans _ l3); [exact L0|].
          now apply (left_of_trans _ l4). }
        right. eexists. split; [rewrite C5, C4, C0; reflexivity|].
        split; [reflexivity|].
        split; [repeat split; assumption|].
        cbn [name_key full_name first_name middle_name last_name number email].
        split; [|split].
        -- unfold name_taken. rewrite <- C0. exact Taken.
        -- rewrite <- C0. exact T4.
        -- rewrite <- C0, <- C4. exact T5.
      * destruct H5 as ([C5 F5] & L5). unfold ret. split.
        { apply (left_of_trans _ l3); [exact L0|].
          now apply (left_of_trans _ l4). }
        left. split; congruence.
      * destruct H5 as (-> & [C5 F5]). split; [reflexivity | split; congruence].
    + destruct H4 as ([C4 F4] & L4). unfold ret. split.
      { now apply (left_of_trans _ l3). }
      left. split; congruence.
    + destruct H4 as (-> & [C4 F4]). split; [reflexivity | split; congruence].
Qed.

(** ** What View and Delete leave behind *)

Lemma view_loop_spec :
  forall listing lines s,
    match view_loop listing lines s with
    | Ret _ rest s' => unchanged s s' /\ left_of lines rest
    | Exc e _ s' => e = EOFError /\ unchanged s s'
    end.
Proof.
  intros listing lines. induction lines as [|line lines IH]; intro s.
  - cbn [view_loop]. split; [reflexivity | split; reflexivity].
  - cbn [view_loop].
    assert (Again : forall msg,
               match view_loop listing lines
                       (print msg (write (nl ++ lit "Enter the index of the contact to view details: ") s))
               with
               | Ret _ rest s' => unchanged s s' /\ left_of (line :: lines) rest
               | Exc e _ s' => e = EOFError /\ unchanged s s'
               end).
    { intro msg. specialize (IH (print msg (write (nl ++ lit "Enter the index of the contact to view details: ") s))).
      destruct (view_loop listing lines _) as [u rest s' | e rest s'].
      - destruct IH as [U L]. split; [exact U | now apply left_of_cons].
      - exact IH. }
    destruct (py_int line) as [z|]; [|apply Again].
    destruct (in_range z (length listing)) eqn:R; [|apply Again].
    destruct (in_range_nth _ listing z R) as [c Hc]. rewrite Hc.
    rewrite print_contacts_one. split; [split; reflexivity | now exists [line]].
Qed.

Lemma view_contacts_spec :
  forall lines s,
    match view_contacts lines s with
    | Ret _ rest s' => unchanged s s' /\ left_of lines rest
    | Exc e _ s' => e = EOFError /\ unchanged s s'
    end.
Proof.
  intros lines s. unfold view_contacts. destruct (contacts s) as [|c0 cs] eqn:E.
  - split; [split; reflexivity | apply left_of_refl].
  - pose proof (view_loop_spec (sorted_contacts (c0 :: cs)) lines
                  (print_names 1 (sorted_contacts (c0 :: cs)) (print (nl ++ lit "Contacts:") s)))
      as H.
    rewrite print_names_emit, print_emit, emit_emit in *.
    destruct (view_loop _ lines _) as [u rest s' | e rest s'].
    + destruct H as [U L]. split; [now apply unchanged_emit in U | exact L].
    + destruct H as [-> U]. split; [reflexivity | now apply unchanged_emit in U].
Qed.

Lemma delete_loop_spec :
  forall listing lines s,
    (forall c, In c listing -> In c (contacts s)) ->
    match delete_loop listing lines s with
    | Ret _ rest s' => left_of lines rest /\ (unchanged s s' \/ removed s s')
    | Exc e _ s' => e = EOFError /\ unchanged s s'
    end.
Proof.
  intros listing lines. induction lines as [|line lines IH]; intros s Sub.
  - cbn [delete_loop]. split; [reflexivity | split; reflexivity].
  - cbn [delete_loop].
    assert (Again : forall msg,
               match delete_loop listing lines
                       (print msg (write (lit "Enter the index of the contact to delete: ") s))
               with
               | Ret _ rest s' => left_of (line :: lines) rest /\ (unchanged s s' \/ removed s s')
               | Exc e _ s' => e = EOFError /\ unchanged s s'
               end).
    { intro msg.
      specialize (IH (print msg (write (lit "Enter the index of the contact to delete: ") s)) Sub).
      destruct (delete_loop listing lines _) as [u rest s' | e rest s'].
      - destruct IH as [L U]. split; [now apply left_of_cons | exact U].
      - exact IH. }
    destruct (py_int line) as [z|]; [|apply Again].
    destruct (in_range z (length listing)) eqn:R; [|apply Again].
    destruct (in_range_nth _ listing z R) as [c Hc]. rewrite Hc.
    destruct lines as [|answer lines].
    + split; [reflexivity | split; reflexivity].
    + destruct (str_eqb (lower (strip answer)) (lit "y")).
      * split; [now exists [line; answer]|]. right. exists c.
        split; [apply Sub; eapply nth_error_In; exact Hc|].
        split; reflexivity.
      * split; [now exists [line; answer] | left; split; reflexivity].
Qed.

Lemma delete_contact_spec :
  forall lines s,
    match delete_contact lines s with
    | Ret _ rest s' => left_of lines rest /\ (unchanged s s' \/ removed s s')
    | Exc e _ s' => e = EOFError /\ unchanged s s'
    end.
Proof.
  intros lines s. unfold delete_contact. destruct (contacts s) as [|c0 cs] eqn:E.
  - split; [apply left_of_refl | left; split; reflexivity].
  - rewrite <- E. rewrite print_names_emit, print_emit, emit_emit.
    pose proof (delete_loop_spec (sorted_contacts (contacts s)) lines
                  (emit ([(nl ++ lit "Contacts:") ++ nl]
                           ++ names_listing 1 (sorted_contacts (contacts s))) s)
                  (fun c Hc => proj1 (py_sorted_in Contact name_key (contacts s) c) Hc))
      as H.
    destruct (delete_loop _ lines _) as [u rest s' | e rest s']; exact H.
Qed.

(** ** What the field loop of Edit does *)

Lemma steps_trans :
  forall j a b c, edit_steps j a b -> edit_steps j b c -> edit_steps j a c.
Proof.
  intros j a b c H. induction H as [s | s s1 s2 H1 _ IH]; intro H2.
  - exact H2.
  - apply (@steps_more j s s1 c H1). now apply IH.
Qed.

Lemma steps_snoc :
  forall j a b c, edit_steps j a b -> edit_step j b c -> edit_steps j a c.
Proof.
  intros j a b c H1 H2. apply (steps_trans j a b c H1).
  apply (@steps_more j b c c H2). apply steps_none.
Qed.

Lemma middle_name_check :
  forall v, str_eqb v [] || validate_name v false = true -> validate_name v true = true.
Proof.
  intros v H. unfold validate_name in *. cbn [andb] in *.
  destruct (str_eqb v []); [reflexivity | exact H].
Qed.

Lemma length_set_nth : forall cs j c, length (set_nth j c cs) = length cs.
Proof.
  induction cs as [|x cs IH]; intros j c; destruct j; simpl; try reflexivity.
  now rewrite IH.
Qed.

(** Output steps, read off the shape of the state. *)
Ltac walk :=
  lazymatch goal with
  | |- edit_steps _ ?s ?s => apply steps_none
  | |- edit_steps ?j ?s (print ?t ?y) =>
      apply (steps_snoc j s y); [walk | apply (step_output j y [t ++ nl])]
  | |- edit_steps ?j ?s (write ?t ?y) =>
      apply (steps_snoc j s y); [walk | apply (step_output j y [t])]
  | |- edit_steps ?j ?s (print_menu ?y) =>
      unfold print_menu; walk
  | |- edit_steps ?j ?s (save (assign _ _ ?y)) =>
      apply (steps_snoc j s y); [walk|]
  | |- edit_steps ?j ?s (save ?y) =>
      apply (steps_snoc j s y); [walk | apply (step_save j y)]
  | |- edit_steps _ _ (final_state (Exc _ _ _)) => cbn [final_state]; walk
  | |- edit_steps _ _ (final_state (Ret _ _ _)) => cbn [final_state]; walk
  | |- _ => assumption
  end.

(** The state in which the field loop ends, by return or by exception, is
    reached from the state it starts in by passes that write output, save,
    or assign one checked field and save. *)
Lemma edit_loop_steps_len :
  forall n lines, length lines <= n ->
  forall j s, edit_steps j s (final_state (edit_loop j lines s)).
Proof.
  induction n as [|n IH]; intros lines Hn j s.
  - destruct lines; [|simpl in Hn; lia]. cbn [edit_loop]. walk.
  - destruct lines as [|line lines]; [cbn [edit_loop]; walk|].
    simpl in Hn.
    assert (Next : forall rest x, length rest <= n -> edit_steps j s x ->
                     edit_steps j s (final_state (edit_loop j rest x))).
    { intros rest x Hrest Hx. apply (steps_trans j s x); [exact Hx | now apply IH]. }
    cbn [edit_loop].
    set (s1 := write (lit "Enter choice: ") (print_menu s)).
    assert (S1 : edit_steps j s s1) by (unfold s1; walk).
    destruct (py_int line) as [option|]; [|apply Next; [lia | walk]].
    destruct (nth_error (contacts s) j) as [c|] eqn:Hc; [|walk].
    assert (Hc1 : forall t u, nth_error (contacts (write t (print u s1))) j = Some c)
      by (intros; exact Hc).
    destruct (option =? 1)%Z.
    { destruct lines as [|line2 lines2]; [walk|]. simpl in Hn.
      destruct (validate_name (title (strip line2)) false) eqn:V;
        (apply Next; [lia | walk]).
      eapply step_first_name; [apply Hc1 | exact V]. }
    destruct (option =? 2)%Z.
    { destruct lines as [|line2 lines2]; [walk|]. simpl in Hn.
      destruct (str_eqb (title (strip line2)) [] || validate_name (title (strip line2)) false)
        eqn:V; (apply Next; [lia | walk]).
      eapply step_middle_name; [apply Hc1 | now apply middle_name_check]. }
    destruct (option =? 3)%Z.
    { destruct lines as [|line2 lines2]; [walk|]. simpl in Hn.
      destruct (validate_name (title (strip line2)) false) eqn:V;
        (apply Next; [lia | walk]).
      eapply step_last_name; [apply Hc1 | exact V]. }
    destruct (option =? 4)%Z.
    { destruct lines as [|line2 lines2]; [walk|]. simpl in Hn.
      destruct (validate_number (strip line2) false) eqn:V; cbn [negb];
        [|apply Next; [lia | walk]].
      destruct (existsb _ (contacts s)) eqn:T; (apply Next; [lia | walk]).
      eapply step_number; [apply Hc1 | exact V | exact T]. }
    destruct (option =? 5)%Z.
    { destruct lines as [|line2 lines2]; [walk|]. simpl in Hn.
      destruct (validate_email (strip line2) false) eqn:V; cbn [negb];
        [|apply Next; [lia | walk]].
      destruct (existsb _ (contacts s)) eqn:T; (apply Next; [lia | walk]).
      eapply step_email; [apply Hc1 | now apply stripped_email_shape | exact T]. }
    destruct (option =? 6)%Z; [walk|].
    apply Next; [lia | walk].
Qed.

Lemma edit_loop_steps :
  forall lines j s, edit_steps j s (final_state (edit_loop j lines s)).
Proof. intros lines j s. now apply (edit_loop_steps_len (length lines)). Qed.

(** ** Invariants of the store *)

Lemma set_nth_in :
  forall cs j c x, In x (set_nth j c cs) -> x = c \/ In x cs.
Proof.
  induction cs as [|y cs IH]; intros j c x H; destruct j; simpl in *; try contradiction.
  - destruct H as [<- | H]; auto.
  - destruct H as [<- | H]; auto. destruct (IH j c x H); auto.
Qed.

Lemma set_nth_other :
  forall cs j c i, i <> j -> nth_error (set_nth j c cs) i = nth_error cs i.
Proof.
  induction cs as [|y cs IH]; intros j c i H; destruct j, i; simpl; try reflexivity;
    try congruence.
  apply IH. congruence.
Qed.

Lemma set_nth_map :
  forall (f : Contact -> pystr) cs j c c0,
    nth_error cs j = Some c0 -> f c = f c0 ->
    map f (set_nth j c cs) = map f cs.
Proof.
  intros f. induction cs as [|x cs IH]; intros j c c0 H K; destruct j; simpl in *;
    try discriminate; try reflexivity.
  - injection H as ->. now rewrite K.
  - now rewrite (IH j c c0 H K).
Qed.

(** Assigning to one contact a key that no contact different from it has
    keeps the keys distinct. *)
Lemma set_nth_nodup :
  forall (f : Contact -> pystr) cs j c c',
    NoDup (map f cs) ->
    nth_error cs j = Some c ->
    existsb (fun x => str_eqb (f x) (f c') && negb (contact_eqb x c)) cs = false ->
    NoDup (map f (set_nth j c' cs)).
Proof.
  intros f. induction cs as [|x cs IH]; intros j c c' U Hc Free.
  - destruct j; discriminate.
  - inversion U as [|k ks Hnot U']; subst.
    cbn [existsb] in Free. apply orb_false_iff in Free. destruct Free as [Fx Fcs].
    destruct j as [|j]; cbn [set_nth map nth_error] in *.
    + injection Hc as ->. constructor; [|exact U'].
      intro Hin. apply in_map_iff in Hin. destruct Hin as (y & Hy & Hin).
      assert (E : str_eqb (f y) (f c') && negb (contact_eqb y c) = false).
      { apply not_true_is_false. intro T. 
        assert (X : existsb (fun x => str_eqb (f x) (f c') && negb (contact_eqb x c)) cs = true)
          by (apply existsb_exists; exists y; auto).
        congruence. }
      apply andb_false_iff in E. destruct E as [E | E].
      * apply str_eqb_neq in E. contradiction.
      * apply negb_false_iff, contact_eqb_eq in E. subst y.
        apply Hnot. now apply in_map.
    + constructor; [|now apply (IH j c c')].
      intro Hin. apply in_map_iff in Hin. destruct Hin as (y & Hy & Hin).
      apply set_nth_in in Hin. destruct Hin as [-> | Hin].
      * apply andb_false_iff in Fx. destruct Fx as [E | E].
        -- apply str_eqb_neq in E. congruence.
        -- apply negb_false_iff, contact_eqb_eq in E. subst x.
           apply Hnot. apply in_map. eapply nth_error_In. exact Hc.
      * apply Hnot. rewrite <- Hy. now apply in_map.
Qed.

Lemma set_nth_forall :
  forall (P : Contact -> Prop) cs j c,
    Forall P cs -> P c -> Forall P (set_nth j c cs).
Proof.
  intros P. induction cs as [|x cs IH]; intros j c H Hc; simpl.
  - destruct j; constructor.
  - inversion H; subst. destruct j; constructor; auto.
Qed.

Lemma remove_first_nodup :
  forall (f : Contact -> pystr) c cs,
    NoDup (map f cs) -> NoDup (map f (remove_first c cs)).
Proof.
  intros f c cs. induction cs as [|x cs IH]; intro U; cbn [remove_first map] in *.
  - exact U.
  - inversion U as [|k ks Hnot U']; subst.
    destruct (contact_eqb x c); [exact U'|].
    cbn [map]. constructor; [|now apply IH].
    intro Hin. apply Hnot. clear - Hin.
    induction cs as [|y cs IH]; cbn [remove_first map] in *; [contradiction|].
    destruct (contact_eqb y c).
    + right. exact Hin.
    + destruct Hin as [-> | Hin]; [now left | right; now apply IH].
Qed.

Lemma remove_first_forall :
  forall (P : Contact -> Prop) c cs, Forall P cs -> Forall P (remove_first c cs).
Proof.
  intros P c cs. induction cs as [|x cs IH]; intro H; cbn [remove_first].
  - exact H.
  - inversion H; subst. destruct (contact_eqb x c); [assumption|].
    constructor; auto.
Qed.

Lemma append_nodup :
  forall (f : Contact -> pystr) cs c,
    NoDup (map f cs) ->
    existsb (fun x => str_eqb (f x) (f c)) cs = false ->
    NoDup (map f (cs ++ [c])).
Proof.
  intros f cs c U Free. rewrite map_app. cbn [map].
  apply NoDup_app; [exact U | repeat constructor; intros [] |].
  intros k Hk [<- | []].
  apply in_map_iff in Hk. destruct Hk as (y & Hy & Hin).
  assert (T : existsb (fun x => str_eqb (f x) (f c)) cs = true).
  { apply existsb_exists. exists y. split; [exact Hin | now apply str_eqb_eq]. }
  congruence.
Qed.

Lemma valid_nth :
  forall cs j c, Forall valid_contact cs -> nth_error cs j = Some c -> valid_contact c.
Proof.
  intros cs j c H Hc. rewrite Forall_forall in H. apply H. eapply nth_error_In. exact Hc.
Qed.

(** One pass of the field loop keeps the store sound. *)
Lemma edit_step_store_ok :
  forall j s s', store_ok s -> edit_step j s s' -> store_ok s'.
Proof.
  intros j s s' (Un & Ue & Va & Mi) Step.
  destruct Step as [s out | s | s c v Hc V | s c v Hc V | s c v Hc V
                    | s c v Hc V Free | s c v Hc V Free];
    unfold store_ok, mirrored, unique_numbers, unique_emails;
    cbn [save assign print write emit set_file set_contacts contacts file] in *.
  - repeat split; assumption.
  - repeat split; try assumption.
  - destruct (valid_nth _ _ _ Va Hc) as (V1 & V2 & V3 & V4 & V5).
    split; [rewrite (set_nth_map number _ _ _ c Hc); [exact Un | reflexivity]|].
    split; [rewrite (set_nth_map email_key _ _ _ c Hc); [exact Ue | reflexivity]|].
    split; [|reflexivity].
    apply set_nth_forall; [exact Va | repeat split; assumption].
  - destruct (valid_nth _ _ _ Va Hc) as (V1 & V2 & V3 & V4 & V5).
    split; [rewrite (set_nth_map number _ _ _ c Hc); [exact Un | reflexivity]|].
    split; [rewrite (set_nth_map email_key _ _ _ c Hc); [exact Ue | reflexivity]|].
    split; [|reflexivity].
    apply set_nth_forall; [exact Va | repeat split; assumption].
  - destruct (valid_nth _ _ _ Va Hc) as (V1 & V2 & V3 & V4 & V5).
    split; [rewrite (set_nth_map number _ _ _ c Hc); [exact Un | reflexivity]|].
    split; [rewrite (set_nth_map email_key _ _ _ c Hc); [exact Ue | reflexivity]|].
    split; [|reflexivity].
    apply set_nth_forall; [exact Va | repeat split; assumption].
  - destruct (valid_nth _ _ _ Va Hc) as (V1 & V2 & V3 & V4 & V5).
    split; [apply (set_nth_nodup number _ _ c); assumption|].
    split; [rewrite (set_nth_map email_key _ _ _ c Hc); [exact Ue | reflexivity]|].
    split; [|reflexivity].
    apply set_nth_forall; [exact Va | repeat split; assumption].
  - destruct (valid_nth _ _ _ Va Hc) as (V1 & V2 & V3 & V4 & V5).
    split; [rewrite (set_nth_map number _ _ _ c Hc); [exact Un | reflexivity]|].
    split; [apply (set_nth_nodup email_key _ _ c); assumption|].
    split; [|reflexivity].
    apply set_nth_forall; [exact Va | repeat split; assumption].
Qed.

Lemma edit_steps_store_ok :
  forall j s s', edit_steps j s s' -> store_ok s -> store_ok s'.
Proof.
  intros j s s' H. induction H as [s | s s1 s2 H1 _ IH]; intro Ok.
  - exact Ok.
  - apply IH. now apply (edit_step_store_ok j s).
Qed.

(** One pass touches no contact but the one at [j]. *)
Lemma edit_step_elsewhere :
  forall j s s', edit_step j s s' -> same_elsewhere j (contacts s) (contacts s').
Proof.
  intros j s s' Step.
  destruct Step; unfold same_elsewhere;
    cbn [save assign print write emit set_file set_contacts contacts];
    try (split; [reflexivity | intros; reflexivity]);
    (split; [apply length_set_nth | intros i Hi; now apply set_nth_other]).
Qed.

Lemma edit_steps_elsewhere :
  forall j s s', edit_steps j s s' -> same_elsewhere j (contacts s) (contacts s').
Proof.
  intros j s s' H. induction H as [s | s s1 s2 H1 _ IH].
  - split; [reflexivity | intros; reflexivity].
  - destruct (edit_step_elsewhere j s s1 H1) as [L1 N1]. destruct IH as [L2 N2].
    split; [congruence|]. intros i Hi. rewrite (N2 i Hi). now apply N1.
Qed.

(** ** How Edit ends *)

Ltac same_length :=
  unfold print_menu;
  cbn [print write save assign set_file set_contacts contacts];
  rewrite ?length_set_nth; reflexivity.

Lemma edit_loop_result_len :
  forall n lines, length lines <= n ->
  forall j s, j < length (contacts s) ->
    match edit_loop j lines s with
    | Ret _ rest _ => left_of lines rest
    | Exc e _ _ => e = EOFError
    end.
Proof.
  induction n as [|n IH]; intros lines Hn j s Hj.
  - destruct lines; [reflexivity | simpl in Hn; lia].
  - destruct lines as [|line lines]; [reflexivity|]. simpl in Hn.
    assert (Next1 : forall x, length (contacts x) = length (contacts s) ->
              match edit_loop j lines x with
              | Ret _ rest _ => left_of (line :: lines) rest
              | Exc e _ _ => e = EOFError
              end).
    { intros x Hx. pose proof (IH lines ltac:(lia) j x ltac:(lia)) as H.
      destruct (edit_loop j lines x); [now apply left_of_cons | exact H]. }
    assert (Next2 : forall line2 lines2 x, lines = line2 :: lines2 ->
              length (contacts x) = length (contacts s) ->
              match edit_loop j lines2 x with
              | Ret _ rest _ => left_of (line :: line2 :: lines2) rest
              | Exc e _ _ => e = EOFError
              end).
    { intros line2 lines2 x -> Hx. simpl in Hn.
      pose proof (IH lines2 ltac:(lia) j x ltac:(lia)) as H.
      destruct (edit_loop j lines2 x); [now apply left_of_cons, left_of_cons | exact H]. }
    cbn [edit_loop].
    destruct (py_int line) as [option|]; [|apply Next1; same_length].
    destruct (nth_error (contacts s) j) as [c|] eqn:Hc;
      [|apply nth_error_None in Hc; lia].
    destruct (option =? 1)%Z.
    { destruct lines as [|line2 lines2]; [reflexivity|].
      destruct (validate_name _ false);
        apply (Next2 line2 lines2 _ eq_refl); same_length. }
    destruct (option =? 2)%Z.
    { destruct lines as [|line2 lines2]; [reflexivity|].
      destruct (_ || _);
        apply (Next2 line2 lines2 _ eq_refl); same_length. }
    destruct (option =? 3)%Z.
    { destruct lines as [|line2 lines2]; [reflexivity|].
      destruct (validate_name _ false);
        apply (Next2 line2 lines2 _ eq_refl); same_length. }
    destruct (option =? 4)%Z.
    { destruct lines as [|line2 lines2]; [reflexivity|].
      destruct (negb _); [apply (Next2 line2 lines2 _ eq_refl); same_length|].
      destruct (existsb _ _);
        apply (Next2 line2 lines2 _ eq_refl); same_length. }
    destruct (option =? 5)%Z.
    { destruct lines as [|line2 lines2]; [reflexivity|].
      destruct (negb _); [apply (Next2 line2 lines2 _ eq_refl); same_length|].
      destruct (existsb _ _);
        apply (Next2 line2 lines2 _ eq_refl); same_length. }
    destruct (option =? 6)%Z; [now exists [line]|].
    apply Next1; same_length.
Qed.

(** Edit is left only by return or [EOFError]; what it leaves of the input
    is a tail of it. *)
Lemma edit_contact_result :
  forall lines s,
    match edit_contact lines s with
    | Ret _ rest _ => left_of lines rest
    | Exc e _ _ => e = EOFError
    end.
Proof.
  intros lines s. unfold edit_contact. destruct (contacts s) as [|c0 cs] eqn:E.
  - apply left_of_refl.
  - rewrite <- E. destruct lines as [|line lines]; [reflexivity|].
    destruct (py_int line) as [z|]; [|now exists [line]].
    destruct (in_range z (length (sorted_entries (contacts s)))) eqn:R; [|now exists [line]].
    destruct (in_range_nth _ _ z R) as [[j c] Hjc]. rewrite Hjc.
    assert (Hj : nth_error (contacts s) j = Some c).
    { apply sorted_entries_position. eapply nth_error_In. exact Hjc. }
    pose proof (edit_loop_result_len (length lines) lines (le_n _) j
                  (write (lit "Enter the index of the contact to edit: ")
                     (print_names 1 (map snd (sorted_entries (contacts s)))
                        (print (nl ++ lit "Contacts:") s)))) as H.
    rewrite print_names_emit, print_emit, write_emit, !emit_emit in *.
    cbn [emit contacts] in H.
    assert (Hlt : j < length (contacts s)).
    { apply nth_error_Some. rewrite Hj. discriminate. }
    specialize (H Hlt).
    destruct (edit_loop j lines _); [now apply left_of_cons | exact H].
Qed.

Lemma steps_output : forall j s out, edit_steps j s (emit out s).
Proof.
  intros j s out. apply (steps_snoc j s s); [apply steps_none | apply step_output].
Qed.

(** The state Edit ends in is reached by passes of the field loop on one
    position. *)
Lemma edit_contact_steps :
  forall lines s, exists j, edit_steps j s (final_state (edit_contact lines s)).
Proof.
  intros lines s. unfold edit_contact. destruct (contacts s) as [|c0 cs] eqn:E.
  - exists 0. cbn [final_state]. walk.
  - rewrite <- E. destruct lines as [|line lines].
    { exists 0. cbn [final_state]. rewrite print_names_emit, print_emit, write_emit, !emit_emit.
      apply steps_output. }
    assert (Out : forall j msg,
              edit_steps j s
                (print msg (write (lit "Enter the index of the contact to edit: ")
                   (print_names 1 (map snd (sorted_entries (contacts s)))
                      (print (nl ++ lit "Contacts:") s))))).
    { intros j msg. rewrite print_names_emit, !print_emit, write_emit, !emit_emit.
      apply steps_output. }
    assert (Out2 : forall j,
              edit_steps j s
                (write (lit "Enter the index of the contact to edit: ")
                   (print_names 1 (map snd (sorted_entries (contacts s)))
                      (print (nl ++ lit "Contacts:") s)))).
    { intros j. rewrite print_names_emit, !print_emit, write_emit, !emit_emit.
      apply steps_output. }
    destruct (py_int line) as [z|]; [|exists 0; apply Out].
    destruct (in_range z _); [|exists 0; apply Out].
    destruct (nth_error _ (index_of z)) as [[j c]|]; [|exists 0; apply Out2].
    exists j. eapply steps_trans; [apply Out2 | apply edit_loop_steps].
Qed.

(** ** Every command keeps the store sound *)

Lemma unchanged_store_ok :
  forall s s', unchanged s s' -> store_ok s -> store_ok s'.
Proof.
  intros s s' [C F] (Un & Ue & Va & Mi). unfold store_ok, mirrored in *.
  rewrite C, F. repeat split; assumption.
Qed.

Lemma added_store_ok :
  forall s s', added s s' -> store_ok s -> store_ok s'.
Proof.
  intros s s' (c & C & F & V & Tn & Tnum & Te) (Un & Ue & Va & Mi).
  unfold store_ok, mirrored, unique_numbers, unique_emails. rewrite F, C.
  split; [apply append_nodup; assumption|].
  split; [apply append_nodup; assumption|].
  split; [|reflexivity].
  apply Forall_app. split; [exact Va | now constructor].
Qed.

Lemma removed_store_ok :
  forall s s', removed s s' -> store_ok s -> store_ok s'.
Proof.
  intros s s' (c & Hin & C & F) (Un & Ue & Va & Mi).
  unfold store_ok, mirrored, unique_numbers, unique_emails. rewrite F, C.
  split; [now apply remove_first_nodup|].
  split; [now apply remove_first_nodup|].
  split; [now apply remove_first_forall | reflexivity].
Qed.

Lemma add_contact_store_ok :
  forall lines s, store_ok s -> store_ok (final_state (add_contact lines s)).
Proof.
  intros lines s Ok. pose proof (add_contact_spec lines s) as H.
  destruct (add_contact lines s) as [u rest s' | e rest s']; cbn [final_state].
  - destruct H as [_ [U | A]];
      [now apply (unchanged_store_ok s) | now apply (added_store_ok s)].
  - destruct H as [_ U]. now apply (unchanged_store_ok s).
Qed.

Lemma view_contacts_store_ok :
  forall lines s, store_ok s -> store_ok (final_state (view_contacts lines s)).
Proof.
  intros lines s Ok. pose proof (view_contacts_spec lines s) as H.
  destruct (view_contacts lines s) as [u rest s' | e rest s']; cbn [final_state];
    destruct H as [H1 H2]; now apply (unchanged_store_ok s).
Qed.

Lemma delete_contact_store_ok :
  forall lines s, store_ok s -> store_ok (final_state (delete_contact lines s)).
Proof.
  intros lines s Ok. pose proof (delete_contact_spec lines s) as H.
  destruct (delete_contact lines s) as [u rest s' | e rest s']; cbn [final_state].
  - destruct H as [_ [U | R]];
      [now apply (unchanged_store_ok s) | now apply (removed_store_ok s)].
  - destruct H as [_ U]. now apply (unchanged_store_ok s).
Qed.

Lemma edit_contact_store_ok :
  forall lines s, store_ok s -> store_ok (final_state (edit_contact lines s)).
Proof.
  intros lines s Ok. destruct (edit_contact_steps lines s) as [j H].
  now apply (edit_steps_store_ok j s).
Qed.

(** ** The menu loop *)

Lemma add_contact_result :
  forall lines s,
    match add_contact lines s with
    | Ret _ rest _ => left_of lines rest
    | Exc e _ _ => e = EOFError
    end.
Proof.
  intros lines s. pose proof (add_contact_spec lines s) as H.
  destruct (add_contact lines s); tauto.
Qed.

Lemma view_contacts_result :
  forall lines s,
    match view_contacts lines s with
    | Ret _ rest _ => left_of lines rest
    | Exc e _ _ => e = EOFError
    end.
Proof.
  intros lines s. pose proof (view_contacts_spec lines s) as H.
  destruct (view_contacts lines s); tauto.
Qed.

Lemma delete_contact_result :
  forall lines s,
    match delete_contact lines s with
    | Ret _ rest _ => left_of lines rest
    | Exc e _ _ => e = EOFError
    end.
Proof.
  intros lines s. pose proof (delete_contact_spec lines s) as H.
  destruct (delete_contact lines s); tauto.
Qed.

Lemma main_menu_emit :
  forall s, write (lit "Choose an option: ") (print_main_menu s) = emit main_menu_chunks s.
Proof.
  intro s. unfold print_main_menu. rewrite !print_emit, write_emit, !emit_emit. reflexivity.
Qed.

Lemma commands_well_behaved :
  well_behaved add_contact /\ well_behaved view_contacts /\
  well_behaved delete_contact /\ well_behaved edit_contact.
Proof.
  split; [|split; [|split]]; split.
  - apply add_contact_result.
  - apply add_contact_store_ok.
  - apply view_contacts_result.
  - apply view_contacts_store_ok.
  - apply delete_contact_result.
  - apply delete_contact_store_ok.
  - apply edit_contact_result.
  - apply edit_contact_store_ok.
Qed.

(** With more fuel than input lines the loop ends. *)
Lemma menu_loop_total :
  forall fuel lines s,
    length lines < fuel -> exists r, menu_loop fuel lines s = Some r.
Proof.
  induction fuel as [|fuel IH]; intros lines s Hf; [lia|].
  destruct lines as [|line lines]; [eexists; reflexivity|].
  simpl in Hf. cbn [menu_loop].
  assert (Run : forall command, well_behaved command ->
            exists r,
              match command lines (write (lit "Choose an option: ") (print_main_menu s)) with
              | Ret _ lines2 s2 => menu_loop fuel lines2 s2
              | Exc e lines2 s2 => Some (Exc e lines2 s2)
              end = Some r).
  { intros command [Res _].
    specialize (Res lines (write (lit "Choose an option: ") (print_main_menu s))).
    destruct (command lines _) as [u rest s2 | e rest s2]; [|eexists; reflexivity].
    apply IH. apply left_of_length in Res. lia. }
  destruct commands_well_behaved as (Wa & Wv & Wd & We).
  destruct (py_int line) as [choice|]; [|apply IH; lia].
  destruct (choice =? 1)%Z; [now apply Run|].
  destruct (choice =? 2)%Z; [now apply Run|].
  destruct (choice =? 3)%Z; [now apply Run|].
  destruct (choice =? 4)%Z; [now apply Run|].
  destruct (choice =? 5)%Z; [eexists; reflexivity|].
  apply IH. lia.
Qed.

(** More fuel does not change the result. *)
Lemma menu_loop_more_fuel :
  forall fuel lines s r,
    menu_loop fuel lines s = Some r ->
    forall fuel', fuel <= fuel' -> menu_loop fuel' lines s = Some r.
Proof.
  induction fuel as [|fuel IH]; intros lines s r H fuel' Hf; [discriminate|].
  destruct fuel' as [|fuel']; [lia|].
  assert (Hle : fuel <= fuel') by lia.
  cbn [menu_loop] in *.
  destruct lines as [|line lines]; [exact H|].
  assert (Run : forall command : M unit,
            match command lines (write (lit "Choose an option: ") (print_main_menu s)) with
            | Ret _ lines2 s2 => menu_loop fuel lines2 s2
            | Exc e lines2 s2 => Some (Exc e lines2 s2)
            end = Some r ->
            match command lines (write (lit "Choose an option: ") (print_main_menu s)) with
            | Ret _ lines2 s2 => menu_loop fuel' lines2 s2
            | Exc e lines2 s2 => Some (Exc e lines2 s2)
            end = Some r).
  { intros command Hc. destruct (command lines _); [now apply (IH _ _ _ Hc) | exact Hc]. }
  destruct (py_int line) as [choice|]; [|now apply (IH _ _ _ H)].
  destruct (choice =? 1)%Z; [now apply Run|].
  destruct (choice =? 2)%Z; [now apply Run|].
  destruct (choice =? 3)%Z; [now apply Run|].
  destruct (choice =? 4)%Z; [now apply Run|].
  destruct (choice =? 5)%Z; [exact H|].
  now apply (IH _ _ _ H).
Qed.

(** However the loop ends, the store is sound; it returns only after the
    choice 5, with a farewell, and is left only by [EOFError]. *)
Lemma menu_loop_spec :
  forall fuel lines s r,
    menu_loop fuel lines s = Some r ->
    store_ok s ->
    store_ok (final_state r) /\
    match r with
    | Ret _ rest s' =>
        left_of lines rest /\ exists out, stdout s' = out ++ [lit "Goodbye!" ++ nl]
    | Exc e _ _ => e = EOFError
    end.
Proof.
  induction fuel as [|fuel IH]; intros lines s r H Ok; [discriminate|].
  cbn [menu_loop] in H.
  destruct lines as [|line lines].
  { injection H as <-. split; [|reflexivity]. cbn [final_state].
    rewrite main_menu_emit. now apply (unchanged_store_ok s). }
  set (s1 := write (lit "Choose an option: ") (print_main_menu s)) in *.
  assert (Ok1 : store_ok s1).
  { unfold s1. rewrite main_menu_emit. now apply (unchanged_store_ok s). }
  assert (Again : forall msg r,
            menu_loop fuel lines (print msg s1) = Some r ->
            store_ok (final_state r) /\
            match r with
            | Ret _ rest s' =>
                left_of (line :: lines) rest /\
                exists out, stdout s' = out ++ [lit "Goodbye!" ++ nl]
            | Exc e _ _ => e = EOFError
            end).
  { intros msg r0 Hr. destruct (IH lines (print msg s1) r0 Hr) as [Ok' R].
    - now apply (unchanged_store_ok s1).
    - split; [exact Ok'|]. destruct r0; [|exact R].
      destruct R as [L G]. split; [now apply left_of_cons | exact G]. }
  assert (Run : forall command, well_behaved command ->
            match command lines s1 with
            | Ret _ lines2 s2 => menu_loop fuel lines2 s2
            | Exc e lines2 s2 => Some (Exc e lines2 s2)
            end = Some r ->
            store_ok (final_state r) /\
            match r with
            | Ret _ rest s' =>
                left_of (line :: lines) rest /\
                exists out, stdout s' = out ++ [lit "Goodbye!" ++ nl]
            | Exc e _ _ => e = EOFError
            end).
  { intros command [Res Keep] Hc.
    specialize (Res lines s1). specialize (Keep lines s1 Ok1).
    destruct (command lines s1) as [u rest s2 | e rest s2]; cbn [final_state] in Keep.
    - destruct (IH rest s2 r Hc Keep) as [Ok' R]. split; [exact Ok'|].
      destruct r; [|exact R]. destruct R as [L G]. split; [|exact G].
      apply left_of_cons. now apply (left_of_trans _ rest).
    - injection Hc as <-. split; [exact Keep | exact Res]. }
  destruct commands_well_behaved as (Wa & Wv & Wd & We).
  destruct (py_int line) as [choice|]; [|now apply (Again _ r H)].
  destruct (choice =? 1)%Z; [exact (Run add_contact Wa H)|].
  destruct (choice =? 2)%Z; [exact (Run view_contacts Wv H)|].
  destruct (choice =? 3)%Z; [exact (Run delete_contact Wd H)|].
  destruct (choice =? 4)%Z; [exact (Run edit_contact We H)|].
  destruct (choice =? 5)%Z; [|now apply (Again _ r H)].
  injection H as <-. cbn [final_state]. split.
  - now apply (unchanged_store_ok s1).
  - split; [now exists [line]|]. exists (stdout s1). reflexivity.
Qed.
(** ** Sessions *)

(** Every element of a concrete list passes a check that computes. *)
Ltac all_by_compute :=
  repeat (constructor; [vm_compute; reflexivity|]); constructor.

Lemma header_text_csv : Csv.write_row FIELDNAMES = header_text.
Proof. vm_compute. reflexivity. Qed.

Lemma csv_text_nil : csv_text [] = header_text.
Proof. unfold csv_text. cbn [flat_map]. rewrite app_nil_r. apply header_text_csv. Qed.

Lemma init_fresh :
  forall lines s,
    file s = None ->
    init_contacts lines s =
    Ret tt lines {| contacts := []; file := Some header_text; stdout := stdout s |}.
Proof.
  intros lines s H. unfold init_contacts. rewrite H, header_text_csv.
  rewrite (load_csv_text lines _ []).
  - reflexivity.
  - cbn [set_file file]. now rewrite csv_text_nil.
  - constructor.
Qed.

Lemma init_header_only :
  forall lines s,
    file s = Some header_text ->
    init_contacts lines s = Ret tt lines (set_contacts [] s).
Proof.
  intros lines s H. unfold init_contacts. rewrite H.
  apply load_csv_text; [now rewrite csv_text_nil | constructor].
Qed.

Lemma empty_store_ok :
  forall out, store_ok {| contacts := []; file := Some header_text; stdout := out |}.
Proof.
  intro out. unfold store_ok, unique_numbers, unique_emails, mirrored.
  cbn [contacts file map]. rewrite csv_text_nil. repeat split; constructor.
Qed.

(** The loop returns only after the choice 5, and is left only by
    [EOFError], whatever the store. *)
Lemma menu_loop_ends :
  forall fuel lines s r,
    menu_loop fuel lines s = Some r ->
    match r with
    | Ret _ rest s' =>
        left_of lines rest /\ exists out, stdout s' = out ++ [lit "Goodbye!" ++ nl]
    | Exc e _ _ => e = EOFError
    end.
Proof.
  induction fuel as [|fuel IH]; intros lines s r H; [discriminate|].
  cbn [menu_loop] in H.
  destruct lines as [|line lines]; [injection H as <-; reflexivity|].
  set (s1 := write (lit "Choose an option: ") (print_main_menu s)) in *.
  assert (Again : forall msg r,
            menu_loop fuel lines (print msg s1) = Some r ->
            match r with
            | Ret _ rest s' =>
                left_of (line :: lines) rest /\
                exists out, stdout s' = out ++ [lit "Goodbye!" ++ nl]
            | Exc e _ _ => e = EOFError
            end).
  { intros msg r0 Hr. pose proof (IH lines (print msg s1) r0 Hr) as R.
    destruct r0; [|exact R].
    destruct R as [L G]. split; [now apply left_of_cons | exact G]. }
  assert (Run : forall command, well_behaved command ->
            match command lines s1 with
            | Ret _ lines2 s2 => menu_loop fuel lines2 s2
            | Exc e lines2 s2 => Some (Exc e lines2 s2)
            end = Some r ->
            match r with
            | Ret _ rest s' =>
                left_of (line :: lines) rest /\
                exists out, stdout s' = out ++ [lit "Goodbye!" ++ nl]
            | Exc e _ _ => e = EOFError
            end).
  { intros command [Res _] Hc. specialize (Res lines s1).
    destruct (command lines s1) as [u rest s2 | e rest s2].
    - pose proof (IH rest s2 r Hc) as R.
      destruct r; [|exact R]. destruct R as [L G]. split; [|exact G].
      apply left_of_cons. now apply (left_of_trans _ rest).
    - injection Hc as <-. exact Res. }
  destruct commands_well_behaved as (Wa & Wv & Wd & We).
  destruct (py_int line) as [choice|]; [|now apply (Again _ r H)].
  destruct (choice =? 1)%Z; [exact (Run add_contact Wa H)|].
  destruct (choice =? 2)%Z; [exact (Run view_contacts Wv H)|].
  destruct (choice =? 3)%Z; [exact (Run delete_contact Wd H)|].
  destruct (choice =? 4)%Z; [exact (Run edit_contact We H)|].
  destruct (choice =? 5)%Z; [|now apply (Again _ r H)].
  injection H as <-. split; [now exists [line]|]. exists (stdout s1). reflexivity.
Qed.

Lemma menu_loop_retries :
  forall bad fuel lines s,
    Forall (fun line => refused_menu_choice line = true) bad ->
    menu_loop (length bad + fuel) (bad ++ lines) s =
    menu_loop fuel lines (emit (main_menu_retries bad) s).
Proof.
  induction bad as [|line bad IH]; intros fuel lines s H.
  - simpl. now rewrite emit_nil.
  - inversion H as [|x l Hline Hbad]; subst.
    cbn [length app Nat.add menu_loop main_menu_retries].
    unfold refused_menu_choice in Hline.
    destruct (py_int line) as [z|].
    + apply negb_true_iff, andb_false_iff in Hline.
      assert (E1 : (z =? 1)%Z = false) by (apply Z.eqb_neq; destruct Hline as [H0|H0];
        [apply Z.leb_gt in H0 | apply Z.leb_gt in H0]; lia).
      assert (E2 : (z =? 2)%Z = false) by (apply Z.eqb_neq; destruct Hline as [H0|H0];
        [apply Z.leb_gt in H0 | apply Z.leb_gt in H0]; lia).
      assert (E3 : (z =? 3)%Z = false) by (apply Z.eqb_neq; destruct Hline as [H0|H0];
        [apply Z.leb_gt in H0 | apply Z.leb_gt in H0]; lia).
      assert (E4 : (z =? 4)%Z = false) by (apply Z.eqb_neq; destruct Hline as [H0|H0];
        [apply Z.leb_gt in H0 | apply Z.leb_gt in H0]; lia).
      assert (E5 : (z =? 5)%Z = false) by (apply Z.eqb_neq; destruct Hline as [H0|H0];
        [apply Z.leb_gt in H0 | apply Z.leb_gt in H0]; lia).
      rewrite E1, E2, E3, E4, E5, (IH _ _ _ Hbad).
      rewrite main_menu_emit, print_emit, !emit_emit. reflexivity.
    + rewrite (IH _ _ _ Hbad).
      rewrite main_menu_emit, print_emit, !emit_emit. reflexivity.
Qed.

(** X1: a session that starts without a backing file ends, whatever is
    typed and also when the input runs out, with a sound store: no two
    contacts share a number, no two share an email up to letter case,
    every contact has valid names, a valid number and a well-formed
    email, and the backing file is the saved text of the collection. *)
Theorem session_keeps_store_sound :
  forall lines s,
    file s = None ->
    exists r,
      menu lines s = Some r /\
      unique_numbers (contacts (final_state r)) /\
      unique_emails (contacts (final_state r)) /\
      Forall valid_contact (contacts (final_state r)) /\
      file (final_state r) = Some (csv_text (contacts (final_state r))).
Proof.
  intros lines s H. unfold menu. rewrite (init_fresh lines s H).
  destruct (menu_loop_total (S (length lines)) lines
              {| contacts := []; file := Some header_text; stdout := stdout s |})
    as [r Hr]; [lia|].
  exists r. split; [exact Hr|].
  destruct (menu_loop_spec _ _ _ _ Hr (empty_store_ok _)) as [Ok _].
  exact Ok.
Qed.

Lemma session_keeps_store_sound_witness :
  exists r,
    menu [lit "1"; lit "amy"; []; lit "adams"; lit "1111111111"; lit "amy@x.org";
          lit "4"; lit "1"; lit "5"; lit "Amy@X.org"; lit "6"; lit "5"]
      {| contacts := []; file := None; stdout := [] |} = Some r /\
    unique_numbers (contacts (final_state r)) /\
    unique_emails (contacts (final_state r)) /\
    Forall valid_contact (contacts (final_state r)) /\
    file (final_state r) = Some (csv_text (contacts (final_state r))).
Proof.
  apply (session_keeps_store_sound
           [lit "1"; lit "amy"; []; lit "adams"; lit "1111111111"; lit "amy@x.org";
            lit "4"; lit "1"; lit "5"; lit "Amy@X.org"; lit "6"; lit "5"]
           {| contacts := []; file := None; stdout := [] |}).
  reflexivity.
Defined.

(** X2: the menu loop ends on every input, and more fuel does not change
    its result.  It returns only after the choice 5, having read a part
    of the input and written the farewell last; otherwise it is left by
    [EOFError], when the input runs out, and by no other exception. *)
Theorem menu_loop_returns_on_exit_only :
  forall lines s,
    exists r,
      (forall extra, menu_loop (S (length lines) + extra) lines s = Some r) /\
      match r with
      | Ret _ rest s' =>
          left_of lines rest /\ exists out, stdout s' = out ++ [lit "Goodbye!" ++ nl]
      | Exc e _ _ => e = EOFError
      end.
Proof.
  intros lines s.
  destruct (menu_loop_total (S (length lines)) lines s) as [r Hr]; [lia|].
  exists r. split.
  - intro extra. apply (menu_loop_more_fuel _ _ _ _ Hr). lia.
  - exact (menu_loop_ends _ _ _ _ Hr).
Qed.

(** X3: a session that starts on the file saved from a sound collection
    whose fields fit the field size limit of the CSV reader restores that
    collection, in the stored order and without output, and ends with a
    sound store. *)
Theorem session_restart_sound :
  forall lines s cs,
    file s = Some (csv_text cs) ->
    unique_numbers cs ->
    unique_emails cs ->
    Forall valid_contact cs ->
    fields_fit cs ->
    init_contacts lines s =
      Ret tt lines {| contacts := cs; file := Some (csv_text cs); stdout := stdout s |} /\
    exists r,
      menu lines s = Some r /\
      store_ok (final_state r).
Proof.
  intros lines s cs Hf Un Ue Va Fit.
  assert (Init : init_contacts lines s =
                 Ret tt lines {| contacts := cs; file := Some (csv_text cs);
                                 stdout := stdout s |}).
  { unfold init_contacts. rewrite Hf. rewrite (load_csv_text lines s cs Hf Fit).
    unfold set_contacts. now rewrite Hf. }
  split; [exact Init|].
  unfold menu. rewrite Init.
  destruct (menu_loop_total (S (length lines)) lines
              {| contacts := cs; file := Some (csv_text cs); stdout := stdout s |})
    as [r Hr]; [lia|].
  exists r. split; [exact Hr|].
  assert (Ok : store_ok {| contacts := cs; file := Some (csv_text cs); stdout := stdout s |}).
  { unfold store_ok, mirrored. cbn [contacts file]. repeat split; assumption. }
  exact (proj1 (menu_loop_spec _ _ _ _ Hr Ok)).
Qed.

Lemma session_restart_sound_witness :
  let bob := {| first_name := lit "Bob"; middle_name := []; last_name := lit "Smith";
                number := lit "0123456789"; email := lit "bob@x.org" |} in
  let amy := {| first_name := lit "Amy"; middle_name := lit "Jo"; last_name := lit "Adams";
                number := lit "1111111111"; email := lit "amy@x.org" |} in
  let s := {| contacts := []; file := Some (csv_text [bob; amy]); stdout := [] |} in
  init_contacts [lit "3"; lit "1"; lit "y"] s =
    Ret tt [lit "3"; lit "1"; lit "y"]
      {| contacts := [bob; amy]; file := Some (csv_text [bob; amy]); stdout := [] |} /\
  exists r,
    menu [lit "3"; lit "1"; lit "y"] s = Some r /\
    store_ok (final_state r).
Proof.
  intros bob amy s.
  apply (session_restart_sound [lit "3"; lit "1"; lit "y"] s [bob; amy]).
  - reflexivity.
  - unfold unique_numbers. cbn [map number]. constructor; [|constructor; [|constructor]].
    + intros [E | []]. discriminate E.
    + intros [].
  - unfold unique_emails. cbn [map]. constructor; [|constructor; [|constructor]].
    + intros [E | []]. vm_compute in E. discriminate E.
    + intros [].
  - constructor; [|constructor; [|constructor]].
    + split; [vm_compute; reflexivity|]. split; [vm_compute; reflexivity|].
      split; [vm_compute; reflexivity|]. split; [vm_compute; reflexivity|].
      exists (lit "bob"), (lit "x"), (lit "org").
      split; [reflexivity|]. split; [discriminate|]. split; [discriminate|].
      split; [discriminate|].
      split; [|split]; all_by_compute.
    + split; [vm_compute; reflexivity|]. split; [vm_compute; reflexivity|].
      split; [vm_compute; reflexivity|]. split; [vm_compute; reflexivity|].
      exists (lit "amy"), (lit "x"), (lit "org").
      split; [reflexivity|]. split; [discriminate|]. split; [discriminate|].
      split; [discriminate|].
      split; [|split]; all_by_compute.
  - repeat (constructor; [repeat (constructor; [vm_compute; discriminate|]); constructor|]).
    constructor.
Defined.

(** X4: started without a backing file, [init_contacts] creates a file
    that holds the header line alone and leaves an empty collection,
    whatever was in memory, writing nothing; started again on that file it
    changes nothing. *)
Theorem init_creates_header_file :
  forall lines s,
    file s = None ->
    let s1 := {| contacts := []; file := Some header_text; stdout := stdout s |} in
    init_contacts lines s = Ret tt lines s1 /\
    init_contacts lines s1 = Ret tt lines s1.
Proof.
  intros lines s H s1. split; [now apply init_fresh|].
  now rewrite (init_header_only lines s1).
Qed.

Lemma init_creates_header_file_witness :
  let bob := {| first_name := lit "Bob"; middle_name := []; last_name := lit "Smith";
                number := lit "0123456789"; email := lit "bob@x.org" |} in
  let s1 := {| contacts := []; file := Some header_text; stdout := [lit "before"] |} in
  init_contacts [] {| contacts := [bob]; file := None; stdout := [lit "before"] |} =
    Ret tt [] s1 /\
  init_contacts [] s1 = Ret tt [] s1.
Proof.
  intro bob.
  apply (init_creates_header_file []
           {| contacts := [bob]; file := None; stdout := [lit "before"] |}).
  reflexivity.
Defined.

(** X5: the main menu answers every line that is not a number with
    "Enter a number (1-5)." and every number outside 1 to 5 with
    "Invalid choice.", shows the menu again and leaves the store as it
    is; at the choice 5 it writes the farewell and returns with the rest
    of the input unread. *)
Theorem menu_refuses_then_exits :
  forall bad five rest s,
    Forall (fun line => refused_menu_choice line = true) bad ->
    py_int five = Some 5%Z ->
    menu_loop (S (length (bad ++ five :: rest))) (bad ++ five :: rest) s =
    Some (Ret tt rest
            {| contacts := contacts s; file := file s;
               stdout := stdout s ++ main_menu_retries bad ++ main_menu_chunks
                           ++ [lit "Goodbye!" ++ nl] |}).
Proof.
  intros bad five rest s Hbad H5.
  apply (menu_loop_more_fuel (length bad + 1)); [|rewrite length_app; simpl; lia].
  rewrite (menu_loop_retries bad 1 _ s Hbad).
  cbn [menu_loop]. rewrite H5. cbn [Z.eqb Pos.eqb].
  rewrite main_menu_emit, print_emit, !emit_emit. unfold emit.
  cbn [contacts file stdout]. rewrite <- ?app_assoc. reflexivity.
Qed.

Lemma menu_refuses_then_exits_witness :
  exists out,
    menu_loop 6 [lit "x"; lit "0"; []; lit " 5 "; lit "left"]
      {| contacts := []; file := None; stdout := [] |} =
    Some (Ret tt [lit "left"] {| contacts := []; file := None; stdout := out |}) /\
    times_written (lit "Enter a number (1-5)." ++ nl) out = 2 /\
    times_written (lit "Invalid choice." ++ nl) out = 1.
Proof.
  eexists. split.
  - apply (menu_refuses_then_exits [lit "x"; lit "0"; []] (lit " 5 ") [lit "left"]
             {| contacts := []; file := None; stdout := [] |}).
    + all_by_compute.
    + vm_compute. reflexivity.
  - split; vm_compute; reflexivity.
Defined.
(** ** Add: refused lines and duplicates *)

Lemma ask_name_retries :
  forall prompt err allow_blank bad lines s,
    Forall (fun line => validate_name (clean_name line) allow_blank = false) bad ->
    ask_name prompt err allow_blank (bad ++ lines) s =
    ask_name prompt err allow_blank lines (emit (retries prompt err bad) s).
Proof.
  intros prompt err allow_blank bad lines. induction bad as [|line bad IH]; intros s H.
  - simpl. now rewrite emit_nil.
  - inversion H as [|x l Hline Hbad]; subst.
    cbn [app ask_name retries]. unfold clean_name in Hline. rewrite Hline.
    rewrite (IH _ Hbad), print_emit, write_emit, !emit_emit. reflexivity.
Qed.

Lemma ask_number_retries :
  forall bad lines s,
    Forall (fun line => validate_number (strip line) false = false) bad ->
    ask_number (bad ++ lines) s =
    ask_number lines
      (emit (retries (lit "Enter phone number: ")
               (lit "Invalid phone number. Must be exactly 10 digits.") bad) s).
Proof.
  intros bad lines. induction bad as [|line bad IH]; intros s H.
  - simpl. now rewrite emit_nil.
  - inversion H as [|x l Hline Hbad]; subst.
    cbn [app ask_number retries]. rewrite Hline. cbn [negb].
    rewrite (IH _ Hbad), print_emit, write_emit, !emit_emit. reflexivity.
Qed.

Lemma ask_email_retries :
  forall bad lines s,
    Forall (fun line => validate_email (strip line) false = false) bad ->
    ask_email (bad ++ lines) s =
    ask_email lines
      (emit (retries (lit "Enter email: ") (lit "Invalid email format.") bad) s).
Proof.
  intros bad lines. induction bad as [|line bad IH]; intros s H.
  - simpl. now rewrite emit_nil.
  - inversion H as [|x l Hline Hbad]; subst.
    cbn [app ask_email retries]. rewrite Hline. cbn [negb].
    rewrite (IH _ Hbad), print_emit, write_emit, !emit_emit. reflexivity.
Qed.

Lemma contacts_emit : forall out s, contacts (emit out s) = contacts s.
Proof. reflexivity. Qed.

Lemma name_taken_in :
  forall cs c key, In c cs -> name_key c = key -> name_taken cs key = true.
Proof.
  intros cs c key Hin Hk. unfold name_taken. apply existsb_exists.
  exists (name_key c). split; [now apply in_map|].
  rewrite Hk. apply str_eqb_refl.
Qed.

Lemma email_taken_in :
  forall cs c e, In c cs -> lower (email c) = lower e -> email_taken cs e = true.
Proof.
  intros cs c e Hin Hk. unfold email_taken. apply existsb_exists.
  exists c. split; [exact Hin|]. rewrite Hk. apply str_eqb_refl.
Qed.

(** X6: when the three names are accepted and a stored contact has the
    same trimmed full name up to letter case, Add reports that the name
    exists and returns without asking for a number: the lines that follow
    stay unread, and the collection and the file are unchanged. *)
Theorem add_duplicate_name_aborts :
  forall s f m l rest c,
    validate_name (clean_name f) false = true ->
    validate_name (clean_name m) true = true ->
    validate_name (clean_name l) false = true ->
    In c (contacts s) ->
    name_key c = entered_key f m l ->
    add_contact (f :: m :: l :: rest) s =
    Ret tt rest
      {| contacts := contacts s; file := file s;
         stdout := stdout s ++ add_name_prompts
                     ++ [lit "This contact name already exists." ++ nl] |}.
Proof.
  intros s f m l rest c Hf Hm Hl Hin Hkey.
  rewrite (add_contact_names s f m l _ Hf Hm Hl). cbv zeta.
  pose proof (name_taken_in _ _ _ Hin Hkey) as T.
  unfold name_taken, entered_key in T. rewrite T.
  rewrite print_emit, emit_emit. reflexivity.
Qed.

Lemma add_duplicate_name_aborts_witness :
  let bob := {| first_name := lit "Bob"; middle_name := []; last_name := lit "Smith";
                number := lit "0123456789"; email := lit "bob@x.org" |} in
  let s := {| contacts := [bob]; file := Some (csv_text [bob]); stdout := [] |} in
  add_contact [lit " BOB "; []; lit "smith"; lit "1111111111"; lit "other@x.org"] s =
  Ret tt [lit "1111111111"; lit "other@x.org"]
    {| contacts := [bob]; file := Some (csv_text [bob]);
       stdout := add_name_prompts ++ [lit "This contact name already exists." ++ nl] |}.
Proof.
  intros bob s.
  apply (add_duplicate_name_aborts s (lit " BOB ") [] (lit "smith")
           [lit "1111111111"; lit "other@x.org"] bob).
  - vm_compute. reflexivity.
  - vm_compute. reflexivity.
  - vm_compute. reflexivity.
  - left. reflexivity.
  - vm_compute. reflexivity.
Defined.

(** X7: when names and number are accepted and the email, trimmed, is
    valid but equal up to letter case to the email of a stored contact,
    Add reports that the email exists and returns: nothing is appended or
    saved. *)
Theorem add_duplicate_email_aborts :
  forall s f m l n e rest c,
    validate_name (clean_name f) false = true ->
    validate_name (clean_name m) true = true ->
    validate_name (clean_name l) false = true ->
    name_taken (contacts s) (entered_key f m l) = false ->
    validate_number (strip n) false = true ->
    number_taken (contacts s) (strip n) = false ->
    validate_email (strip e) false = true ->
    In c (contacts s) ->
    lower (email c) = lower (strip e) ->
    add_contact (f :: m :: l :: n :: e :: rest) s =
    Ret tt rest
      {| contacts := contacts s; file := file s;
         stdout := stdout s ++ add_name_prompts
                     ++ [lit "Enter phone number: "; lit "Enter email: ";
                         lit "This email already exists." ++ nl] |}.
Proof.
  intros s f m l n e rest c Hf Hm Hl Hname Hn Hnt He Hin Hkey.
  rewrite (add_contact_names s f m l _ Hf Hm Hl). cbv zeta.
  unfold name_taken, entered_key in Hname. rewrite Hname.
  unfold bind at 1. cbn [ask_number]. rewrite Hn. cbn [negb emit contacts].
  unfold number_taken in Hnt. rewrite Hnt.
  unfold bind at 1. cbn [ask_email]. rewrite He. cbn [negb write emit contacts].
  pose proof (email_taken_in _ _ _ Hin Hkey) as T. unfold email_taken in T. rewrite T.
  unfold ret, print. rewrite !write_emit, !emit_emit. reflexivity.
Qed.

Lemma add_duplicate_email_aborts_witness :
  let bob := {| first_name := lit "Bob"; middle_name := []; last_name := lit "Smith";
                number := lit "0123456789"; email := lit "bob@x.org" |} in
  let s := {| contacts := [bob]; file := Some (csv_text [bob]); stdout := [] |} in
  add_contact [lit "amy"; []; lit "adams"; lit "1111111111"; lit " BOB@X.org "; lit "left"] s =
  Ret tt [lit "left"]
    {| contacts := [bob]; file := Some (csv_text [bob]);
       stdout := add_name_prompts
                   ++ [lit "Enter phone number: "; lit "Enter email: ";
                       lit "This email already exists." ++ nl] |}.
Proof.
  intros bob s.
  apply (add_duplicate_email_aborts s (lit "amy") [] (lit "adams") (lit "1111111111")
           (lit " BOB@X.org ") [lit "left"] bob).
  - vm_compute. reflexivity.
  - vm_compute. reflexivity.
  - vm_compute. reflexivity.
  - vm_compute. reflexivity.
  - vm_compute. reflexivity.
  - vm_compute. reflexivity.
  - vm_compute. reflexivity.
  - left. reflexivity.
  - vm_compute. reflexivity.
Defined.

(** X8: Add asks again at each of its five prompts for as long as the
    line is invalid, writing the prompt and the message of that field
    each time; with the first valid line of each field, the name, number
    and email being free, it appends the contact made of the trimmed,
    title-cased names and the trimmed number and email, saves the
    collection and reports the addition. *)
Theorem add_asks_until_valid :
  forall s bf f bm m bl l bn n be e rest,
    Forall (fun x => validate_name (clean_name x) false = false) bf ->
    validate_name (clean_name f) false = true ->
    Forall (fun x => validate_name (clean_name x) true = false) bm ->
    validate_name (clean_name m) true = true ->
    Forall (fun x => validate_name (clean_name x) false = false) bl ->
    validate_name (clean_name l) false = true ->
    name_taken (contacts s) (entered_key f m l) = false ->
    Forall (fun x => validate_number (strip x) false = false) bn ->
    validate_number (strip n) false = true ->
    number_taken (contacts s) (strip n) = false ->
    Forall (fun x => validate_email (strip x) false = false) be ->
    validate_email (strip e) false = true ->
    email_taken (contacts s) (strip e) = false ->
    let c := new_contact f m l n e in
    add_contact (bf ++ f :: bm ++ m :: bl ++ l :: bn ++ n :: be ++ e :: rest) s =
    Ret tt rest
      {| contacts := contacts s ++ [c];
         file := Some (csv_text (contacts s ++ [c]));
         stdout := stdout s ++ add_dialogue bf bm bl bn be
                     ++ [lit "Changes saved." ++ nl;
                         (lit "Contact '" ++ full_name c ++ lit "' added successfully!") ++ nl] |}.
Proof.
  intros s bf f bm m bl l bn n be e rest Bf Hf Bm Hm Bl Hl Hname Bn Hn Hnt Be He Het c.
  unfold add_contact.
  unfold bind at 1. unfold lift at 1.
  unfold bind at 1. rewrite (ask_name_retries _ _ _ bf _ _ Bf), (ask_name_valid _ _ _ _ _ _ Hf).
  unfold bind at 1. rewrite (ask_name_retries _ _ _ bm _ _ Bm), (ask_name_valid _ _ _ _ _ _ Hm).
  unfold bind at 1. rewrite (ask_name_retries _ _ _ bl _ _ Bl), (ask_name_valid _ _ _ _ _ _ Hl).
  unfold bind at 1. unfold get_contacts.
  rewrite print_emit, !write_emit, !emit_emit, contacts_emit. cbv zeta.
  unfold name_taken, entered_key in Hname. rewrite Hname.
  unfold bind at 1. rewrite (ask_number_retries bn _ _ Bn), emit_emit.
  cbn [ask_number]. rewrite Hn, contacts_emit. cbn [negb].
  unfold number_taken in Hnt. rewrite Hnt, write_emit, emit_emit.
  unfold bind at 1. rewrite (ask_email_retries be _ _ Be), emit_emit.
  cbn [ask_email]. rewrite He, contacts_emit. cbn [negb].
  unfold email_taken in Het. rewrite Het, write_emit, emit_emit.
  unfold save_contacts. unfold bind, lift.
  unfold save, print, write, set_file, set_contacts, emit.
  cbn [contacts file stdout]. unfold add_dialogue, c, new_contact, full_name.
  cbn [first_name middle_name last_name].
  rewrite <- ?app_assoc. reflexivity.
Qed.

Lemma add_asks_until_valid_witness :
  let s := {| contacts := []; file := Some header_text; stdout := [] |} in
  let amy := {| first_name := lit "Amy"; middle_name := []; last_name := lit "Adams";
                number := lit "1111111111"; email := lit "amy@x.org" |} in
  exists out,
    add_contact [lit "amy1"; []; lit "amy"; lit "j."; []; lit "o'neil"; lit "adams";
                 lit "12345"; lit "1111111111"; lit "amy@x"; lit "amy@x.org"; lit "left"] s =
    Ret tt [lit "left"]
      {| contacts := [amy]; file := Some (csv_text [amy]); stdout := out |}.
Proof.
  intros s amy. eexists.
  apply (add_asks_until_valid s [lit "amy1"; []] (lit "amy") [lit "j."] []
           [lit "o'neil"] (lit "adams") [lit "12345"] (lit "1111111111")
           [lit "amy@x"] (lit "amy@x.org") [lit "left"]).
  - all_by_compute.
  - vm_compute. reflexivity.
  - all_by_compute.
  - vm_compute. reflexivity.
  - all_by_compute.
  - vm_compute. reflexivity.
  - vm_compute. reflexivity.
  - all_by_compute.
  - vm_compute. reflexivity.
  - vm_compute. reflexivity.
  - all_by_compute.
  - vm_compute. reflexivity.
  - vm_compute. reflexivity.
Defined.

(** X9: whatever the input, Add ends in one of two ways: the collection
    and the file are as they were, or exactly one contact was appended
    and saved, a contact whose fields are valid and whose name, number
    and email no stored contact had.  It returns with an unread part of
    its input, and it is left only by [EOFError], when the input runs
    out, and then without a change. *)
Theorem add_contact_all_or_nothing :
  forall lines s,
    match add_contact lines s with
    | Ret _ rest s' => left_of lines rest /\ (unchanged s s' \/ added s s')
    | Exc e _ s' => e = EOFError /\ unchanged s s'
    end.
Proof. exact add_contact_spec. Qed.

(** ** Add: a number that is taken *)

(** C2, as stated, fails: a collection loaded from the backing file can
    hold a number that is not valid, such as 12345.  Entering that number
    in Add does not abort the attempt: the line is refused as invalid, the
    number is asked again, and with a valid number and email a contact is
    added and saved; the duplicate message is never printed. *)
Lemma add_stored_invalid_number_retries :
  let bob := {| first_name := lit "Bob"; middle_name := []; last_name := lit "Smith";
                number := lit "12345"; email := lit "bob@x.org" |} in
  let amy := {| first_name := lit "Amy"; middle_name := []; last_name := lit "Adams";
                number := lit "1111111111"; email := lit "amy@x.org" |} in
  let text := lit "first_name,middle_name,last_name,number,email" ++ [13; 10]%N
                ++ lit "Bob,,Smith,12345,bob@x.org" ++ [13; 10]%N in
  let s := {| contacts := [bob]; file := Some text; stdout := [] |} in
  load_contacts [] {| contacts := []; file := Some text; stdout := [] |} = Ret tt [] s /\
  exists out,
    add_contact [lit "amy"; []; lit "adams"; lit "12345"; lit "1111111111"; lit "amy@x.org"] s =
      Ret tt [] {| contacts := [bob; amy]; file := Some (csv_text [bob; amy]); stdout := out |} /\
    times_written (lit "This phone number already exists." ++ nl) out = 0 /\
    times_written (lit "Invalid phone number. Must be exactly 10 digits." ++ nl) out = 1 /\
    times_written (lit "Changes saved." ++ nl) out = 1.
Proof.
  split; [vm_compute; reflexivity|].
  eexists. split; [vm_compute; reflexivity|].
  split; [|split]; vm_compute; reflexivity.
Qed.

(** C2, amended: when the collection holds a contact whose number is a
    valid number, and Add is given names that are accepted and not taken
    and then, after any lines refused at its prompts, a line whose
    trimmed text is that number, Add prints "This phone number already
    exists." and returns: the attempt is aborted, not retried.  The lines
    that follow stay unread, the collection and the file are as they
    were, and nothing is saved. *)
Theorem add_duplicate_number_aborts :
  forall s bf f bm m bl l bn r rest c,
    Forall (fun x => validate_name (clean_name x) false = false) bf ->
    validate_name (clean_name f) false = true ->
    Forall (fun x => validate_name (clean_name x) true = false) bm ->
    validate_name (clean_name m) true = true ->
    Forall (fun x => validate_name (clean_name x) false = false) bl ->
    validate_name (clean_name l) false = true ->
    name_taken (contacts s) (entered_key f m l) = false ->
    Forall (fun x => validate_number (strip x) false = false) bn ->
    In c (contacts s) ->
    validate_number (number c) false = true ->
    strip r = number c ->
    add_contact (bf ++ f :: bm ++ m :: bl ++ l :: bn ++ r :: rest) s =
    Ret tt rest
      {| contacts := contacts s; file := file s;
         stdout := stdout s ++ add_number_dialogue bf bm bl bn
                     ++ [lit "This phone number already exists." ++ [10%N]] |}.
Proof.
  intros s bf f bm m bl l bn r rest c Bf Hf Bm Hm Bl Hl Hname Bn Hin Hvalid Hr.
  unfold add_contact.
  unfold bind at 1. unfold lift at 1.
  unfold bind at 1. rewrite (ask_name_retries _ _ _ bf _ _ Bf), (ask_name_valid _ _ _ _ _ _ Hf).
  unfold bind at 1. rewrite (ask_name_retries _ _ _ bm _ _ Bm), (ask_name_valid _ _ _ _ _ _ Hm).
  unfold bind at 1. rewrite (ask_name_retries _ _ _ bl _ _ Bl), (ask_name_valid _ _ _ _ _ _ Hl).
  unfold bind at 1. unfold get_contacts.
  rewrite print_emit, !write_emit, !emit_emit, contacts_emit. cbv zeta.
  unfold name_taken, entered_key in Hname. rewrite Hname.
  unfold bind at 1. rewrite (ask_number_retries bn _ _ Bn), emit_emit.
  cbn [ask_number]. rewrite Hr, Hvalid, contacts_emit. cbn [negb].
  pose proof (number_taken_in _ _ Hin) as T. unfold number_taken in T. rewrite T.
  unfold ret. rewrite print_emit, write_emit, !emit_emit.
  unfold emit, add_number_dialogue. cbn [contacts file stdout].
  rewrite <- ?app_assoc. reflexivity.
Qed.

Lemma add_duplicate_number_aborts_witness :
  let bob := {| first_name := lit "Bob"; middle_name := []; last_name := lit "Smith";
                number := lit "0123456789"; email := lit "bob@x.org" |} in
  let s := {| contacts := [bob]; file := Some (csv_text [bob]); stdout := [] |} in
  exists out,
    add_contact [lit "amy1"; lit "amy"; []; lit "adams"; lit "12345"; lit " 0123456789";
                 lit "amy@x.org"] s =
      Ret tt [lit "amy@x.org"]
        {| contacts := [bob]; file := Some (csv_text [bob]); stdout := out |} /\
    times_written (lit "This phone number already exists." ++ nl) out = 1 /\
    times_written (lit "Changes saved." ++ nl) out = 0.
Proof.
  intros bob s. eexists. split.
  - apply (add_duplicate_number_aborts s [lit "amy1"] (lit "amy") [] [] [] (lit "adams")
             [lit "12345"] (lit " 0123456789") [lit "amy@x.org"] bob).
    + all_by_compute.
    + vm_compute. reflexivity.
    + constructor.
    + vm_compute. reflexivity.
    + constructor.
    + vm_compute. reflexivity.
    + vm_compute. reflexivity.
    + all_by_compute.
    + left. reflexivity.
    + vm_compute. reflexivity.
    + vm_compute. reflexivity.
  - split; vm_compute; reflexivity.
Defined.
(** ** Selection by index *)

Lemma remove_first_split :
  forall c cs,
    In c cs ->
    exists before after,
      cs = before ++ c :: after /\ ~ In c before /\
      remove_first c cs = before ++ after.
Proof.
  intros c cs. induction cs as [|x cs IH]; intro H; [contradiction|].
  cbn [remove_first]. destruct (contact_eqb x c) eqn:E.
  - apply contact_eqb_eq in E. subst x. exists [], cs. repeat split. intros [].
  - apply contact_eqb_neq in E. destruct H as [H | H]; [contradiction|].
    destruct (IH H) as (before & after & Hcs & Hnot & Hrm).
    exists (x :: before), after. split; [now rewrite Hcs|]. split.
    + intros [H0 | H0]; [contradiction | now apply Hnot].
    + now rewrite Hrm.
Qed.

Lemma sorted_contacts_length :
  forall cs, length (sorted_contacts cs) = length cs.
Proof. intro cs. apply py_sorted_length. Qed.

Lemma selected_entry :
  forall cs z,
    in_range z (length cs) = true ->
    exists c j,
      nth_error (sorted_contacts cs) (index_of z) = Some c /\
      nth_error (sorted_entries cs) (index_of z) = Some (j, c) /\
      nth_error cs j = Some c.
Proof.
  intros cs z H.
  assert (H' : in_range z (length (sorted_entries cs)) = true)
    by now rewrite sorted_entries_length.
  destruct (in_range_nth _ _ z H') as [[j c] He].
  exists c, j. split; [|split].
  - rewrite <- sorted_entries_contacts, nth_error_map, He. reflexivity.
  - exact He.
  - apply sorted_entries_position. now apply nth_error_In with (n := index_of z).
Qed.

Lemma delete_contact_run :
  forall s bad lines,
    contacts s <> [] ->
    Forall (fun line => refused_choice (length (contacts s)) line = true) bad ->
    delete_contact (bad ++ lines) s =
    delete_loop (sorted_contacts (contacts s)) lines
      (emit (listing_chunks (contacts s) ++ delete_retries bad) s).
Proof.
  intros s bad lines Hne Hbad.
  set (listing := sorted_contacts (contacts s)).
  assert (Hlen : length listing = length (contacts s)) by apply py_sorted_length.
  rewrite <- Hlen in Hbad.
  unfold delete_contact. destruct (contacts s) as [|c0 cs] eqn:E; [congruence|].
  fold listing. rewrite (delete_loop_retries listing bad _ _ Hbad).
  rewrite print_names_emit, print_emit, !emit_emit. unfold listing_chunks.
  rewrite <- ?app_assoc. reflexivity.
Qed.

Lemma in_range_nonempty :
  forall (A : Type) (l : list A) z, in_range z (length l) = true -> l <> [].
Proof.
  intros A l z H E. subst l. unfold in_range in H. apply andb_true_iff in H.
  destruct H as [H1 H2]. apply Z.leb_le in H1, H2. simpl in H2. lia.
Qed.

Lemma view_loop_emits :
  forall listing lines s,
    exists out, final_state (view_loop listing lines s) = emit out s.
Proof.
  intros listing lines. induction lines as [|line lines IH]; intro s.
  - eexists. cbn [view_loop final_state]. apply write_emit.
  - cbn [view_loop].
    assert (Again : forall msg,
              exists out,
                final_state
                  (view_loop listing lines
                     (print msg
                        (write (nl ++ lit "Enter the index of the contact to view details: ") s)))
                = emit out s).
    { intro msg. destruct (IH (print msg
        (write (nl ++ lit "Enter the index of the contact to view details: ") s))) as [out H].
      rewrite H, print_emit, write_emit, !emit_emit. eexists. reflexivity. }
    destruct (py_int line) as [z|]; [|apply Again].
    destruct (in_range z (length listing)); [|apply Again].
    destruct (nth_error listing (index_of z)) as [c|].
    + cbn [final_state]. rewrite print_contacts_one, write_emit, emit_emit.
      eexists. reflexivity.
    + cbn [final_state]. eexists. apply write_emit.
Qed.

Lemma delete_confirmed_run :
  forall s bad good answer rest z c,
    Forall (fun line => refused_choice (length (contacts s)) line = true) bad ->
    py_int good = Some z ->
    in_range z (length (contacts s)) = true ->
    nth_error (sorted_contacts (contacts s)) (index_of z) = Some c ->
    str_eqb (lower (strip answer)) (lit "y") = true ->
    delete_contact (bad ++ good :: answer :: rest) s =
    Ret tt rest
      {| contacts := remove_first c (contacts s);
         file := Some (csv_text (remove_first c (contacts s)));
         stdout := stdout s ++ listing_chunks (contacts s) ++ delete_retries bad
                     ++ [delete_prompt; confirm_prompt c; lit "Changes saved." ++ nl;
                         (lit "Contact for " ++ full_name c ++ lit " deleted successfully.")
                           ++ nl] |}.
Proof.
  intros s bad good answer rest z c Hbad Hint Hrange Hc Hyes.
  rewrite (delete_contact_run s bad _ (in_range_nonempty _ _ z Hrange) Hbad).
  cbn [delete_loop]. rewrite Hint.
  rewrite sorted_contacts_length, Hrange.
  rewrite Hc, Hyes.
  unfold save, print, write, set_file, set_contacts, emit.
  cbn [contacts file stdout]. rewrite <- ?app_assoc. reflexivity.
Qed.

(** X10: on an empty collection View, Delete and Edit each write their
    message and return at once: no line of the input is read, nothing is
    listed and the store is as it was. *)
Theorem empty_collection_returns_at_once :
  forall lines s,
    contacts s = [] ->
    view_contacts lines s = Ret tt lines (emit [lit "No contacts to display." ++ nl] s) /\
    delete_contact lines s = Ret tt lines (emit [lit "No contacts to delete." ++ nl] s) /\
    edit_contact lines s = Ret tt lines (emit [lit "No contacts to edit." ++ nl] s).
Proof.
  intros lines s H. unfold view_contacts, delete_contact, edit_contact.
  rewrite H. repeat split.
Qed.

Lemma empty_collection_returns_at_once_witness :
  let s := {| contacts := []; file := Some header_text; stdout := [] |} in
  view_contacts [lit "1"] s = Ret tt [lit "1"] (emit [lit "No contacts to display." ++ nl] s) /\
  delete_contact [lit "1"] s = Ret tt [lit "1"] (emit [lit "No contacts to delete." ++ nl] s) /\
  edit_contact [lit "1"] s = Ret tt [lit "1"] (emit [lit "No contacts to edit." ++ nl] s).
Proof.
  intro s. apply (empty_collection_returns_at_once [lit "1"] s). reflexivity.
Defined.

(** X11: a confirmed Delete removes the contact at the chosen place of
    the sorted listing, and only that one: the collection is the old one
    without its first occurrence of that contact, the others keeping
    their stored order; the new collection is saved and the deletion
    reported with the contact's full name. *)
Theorem delete_removes_selected_only :
  forall s bad good answer rest z,
    Forall (fun line => refused_choice (length (contacts s)) line = true) bad ->
    py_int good = Some z ->
    in_range z (length (contacts s)) = true ->
    str_eqb (lower (strip answer)) (lit "y") = true ->
    exists c before after,
      nth_error (sorted_contacts (contacts s)) (index_of z) = Some c /\
      contacts s = before ++ c :: after /\
      ~ In c before /\
      delete_contact (bad ++ good :: answer :: rest) s =
      Ret tt rest
        {| contacts := before ++ after;
           file := Some (csv_text (before ++ after));
           stdout := stdout s ++ listing_chunks (contacts s) ++ delete_retries bad
                       ++ [delete_prompt; confirm_prompt c; lit "Changes saved." ++ nl;
                           (lit "Contact for " ++ full_name c ++ lit " deleted successfully.")
                             ++ nl] |}.
Proof.
  intros s bad good answer rest z Hbad Hint Hrange Hyes.
  destruct (selected_entry _ z Hrange) as (c & j & Hc & _ & Hj).
  assert (Hin : In c (contacts s)) by now apply nth_error_In with (n := j).
  destruct (remove_first_split c _ Hin) as (before & after & Hcs & Hnot & Hrm).
  exists c, before, after. split; [exact Hc|]. split; [exact Hcs|]. split; [exact Hnot|].
  rewrite (delete_confirmed_run s bad good answer rest z c Hbad Hint Hrange Hc Hyes).
  now rewrite Hrm.
Qed.

Lemma delete_removes_selected_only_witness :
  let bob := {| first_name := lit "Bob"; middle_name := []; last_name := lit "Smith";
                number := lit "0123456789"; email := lit "bob@x.org" |} in
  let amy := {| first_name := lit "Amy"; middle_name := []; last_name := lit "Adams";
                number := lit "1111111111"; email := lit "amy@x.org" |} in
  let cy := {| first_name := lit "Cy"; middle_name := []; last_name := lit "Young";
               number := lit "2222222222"; email := lit "cy@x.org" |} in
  let s := {| contacts := [cy; bob; amy]; file := Some (csv_text [cy; bob; amy]);
              stdout := [] |} in
  exists c before after,
    nth_error (sorted_contacts (contacts s)) 1 = Some c /\
    contacts s = before ++ c :: after /\
    ~ In c before /\
    exists out,
      delete_contact [lit "9"; lit "2"; lit "Y"; lit "left"] s =
      Ret tt [lit "left"]
        {| contacts := before ++ after; file := Some (csv_text (before ++ after));
           stdout := out |}.
Proof.
  intros bob amy cy s.
  destruct (delete_removes_selected_only s [lit "9"] (lit "2") (lit "Y") [lit "left"] 2)
    as (c & before & after & Hc & Hcs & Hnot & Hrun).
  - all_by_compute.
  - vm_compute. reflexivity.
  - vm_compute. reflexivity.
  - vm_compute. reflexivity.
  - exists c, before, after. split; [exact Hc|]. split; [exact Hcs|].
    split; [exact Hnot|]. eexists. exact Hrun.
Defined.

(** X12: one index means one contact in the three commands.  For a number
    within the listing, View shows the details of the contact at that
    place of the sorted listing (the row with its trimmed full name, its
    number and its email, each followed by the spaces that fill its
    column), Delete asks to confirm the deletion of that same contact, and
    Edit works on the position of [contacts] that holds it. *)
Theorem same_index_same_contact :
  forall s line z,
    py_int line = Some z ->
    in_range z (length (contacts s)) = true ->
    exists c j,
      nth_error (sorted_contacts (contacts s)) (index_of z) = Some c /\
      nth_error (contacts s) j = Some c /\
      (forall rest,
         view_contacts (line :: rest) s =
         Ret tt rest
           (emit (listing_chunks (contacts s)
                    ++ [view_prompt;
                        [10%N] ++ table_heading ++ [10%N];
                        detail_row (lit "1.")
                          (strip (first_name c ++ lit " " ++ middle_name c ++ lit " "
                                    ++ last_name c))
                          (number c) (email c) ++ [10%N];
                        [10%N]]) s)) /\
      (forall answer rest,
         str_eqb (lower (strip answer)) (lit "y") = false ->
         delete_contact (line :: answer :: rest) s =
         Ret tt rest
           (emit (listing_chunks (contacts s)
                    ++ [delete_prompt;
                        lit "Are you sure you want to delete "
                          ++ strip (first_name c ++ lit " " ++ middle_name c ++ lit " "
                                      ++ last_name c)
                          ++ lit "'s contact? (y/n): ";
                        lit "Deletion cancelled." ++ nl]) s)) /\
      (forall rest,
         edit_contact (line :: rest) s =
         edit_loop j rest (emit (listing_chunks (contacts s) ++ [edit_prompt]) s)).
Proof.
  intros s line z Hint Hrange.
  destruct (selected_entry _ z Hrange) as (c & j & Hc & He & Hj).
  pose proof (in_range_nonempty _ _ z Hrange) as Hne.
  exists c, j. split; [exact Hc|]. split; [exact Hj|]. split; [|split].
  - intro rest.
    exact (view_contacts_run s [] line rest z c Hne (Forall_nil _) Hint Hrange Hc).
  - intros answer rest Hno.
    change (line :: answer :: rest) with ([] ++ line :: answer :: rest).
    rewrite (delete_contact_run s [] _ Hne (Forall_nil _)).
    cbn [delete_loop delete_retries]. rewrite Hint.
    rewrite sorted_contacts_length, Hrange.
    rewrite Hc, Hno, app_nil_r.
    rewrite print_emit, !write_emit, !emit_emit, <- ?app_assoc. reflexivity.
  - intro rest. rewrite (edit_contact_select s line rest z j c Hint Hrange He).
    reflexivity.
Qed.

Lemma same_index_same_contact_witness :
  let bob := {| first_name := lit "Bob"; middle_name := []; last_name := lit "Smith";
                number := lit "0123456789"; email := lit "bob@x.org" |} in
  let amy := {| first_name := lit "Amy"; middle_name := []; last_name := lit "Adams";
                number := lit "1111111111"; email := lit "amy@x.org" |} in
  let s := {| contacts := [bob; amy]; file := Some (csv_text [bob; amy]); stdout := [] |} in
  exists j,
    nth_error (contacts s) j = Some amy /\
    view_contacts [lit "1"] s =
      Ret tt []
        (emit [nl ++ lit "Contacts:" ++ nl; lit "1. Amy  Adams" ++ nl; lit "2. Bob  Smith" ++ nl;
               view_prompt;
               nl ++ lit "     Name                        Number          Email                         "
                  ++ nl;
               lit "1.   Amy  Adams                  1111111111      amy@x.org                     "
                 ++ nl;
               nl] s) /\
    edit_contact [lit "1"] s =
      edit_loop j [] (emit (listing_chunks (contacts s) ++ [edit_prompt]) s).
Proof.
  intros bob amy s.
  destruct (same_index_same_contact s (lit "1") 1) as (c & j & Hc & Hj & Hv & _ & He).
  - vm_compute. reflexivity.
  - vm_compute. reflexivity.
  - assert (E : c = amy) by (vm_compute in Hc; now injection Hc as <-).
    subst c. exists j. split; [exact Hj|]. split; [|apply He].
    rewrite Hv. vm_compute. reflexivity.
Defined.

(** X13: Edit asks for the index once.  A line that is not a number, or a
    number outside the listing, gets its message and ends the command:
    the lines that follow stay unread and the store is as it was. *)
Theorem edit_refuses_bad_index_once :
  forall s line rest,
    contacts s <> [] ->
    refused_choice (length (contacts s)) line = true ->
    edit_contact (line :: rest) s =
    Ret tt rest
      (emit (listing_chunks (contacts s)
               ++ [edit_prompt;
                   match py_int line with
                   | Some _ => lit "Invalid index." ++ nl
                   | None => lit "Invalid input. Please enter a number." ++ nl
                   end]) s).
Proof.
  intros s line rest Hne Hbad. unfold edit_contact.
  destruct (contacts s) as [|c0 cs] eqn:E; [congruence|].
  rewrite sorted_entries_length, sorted_entries_contacts.
  unfold refused_choice in Hbad.
  destruct (py_int line) as [z|].
  - apply negb_true_iff in Hbad. rewrite Hbad.
    rewrite print_names_emit, !print_emit, write_emit, !emit_emit.
    unfold listing_chunks. rewrite <- ?app_assoc. reflexivity.
  - rewrite print_names_emit, !print_emit, write_emit, !emit_emit.
    unfold listing_chunks. rewrite <- ?app_assoc. reflexivity.
Qed.

Lemma edit_refuses_bad_index_once_witness :
  let bob := {| first_name := lit "Bob"; middle_name := []; last_name := lit "Smith";
                number := lit "0123456789"; email := lit "bob@x.org" |} in
  let s := {| contacts := [bob]; file := Some (csv_text [bob]); stdout := [] |} in
  edit_contact [lit "2"; lit "1"; lit "6"] s =
    Ret tt [lit "1"; lit "6"]
      (emit (listing_chunks [bob] ++ [edit_prompt; lit "Invalid index." ++ nl]) s) /\
  edit_contact [lit "one"; lit "1"; lit "6"] s =
    Ret tt [lit "1"; lit "6"]
      (emit (listing_chunks [bob]
               ++ [edit_prompt; lit "Invalid input. Please enter a number." ++ nl]) s).
Proof.
  intros bob s. split.
  - apply (edit_refuses_bad_index_once s (lit "2") [lit "1"; lit "6"]).
    + discriminate.
    + vm_compute. reflexivity.
  - apply (edit_refuses_bad_index_once s (lit "one") [lit "1"; lit "6"]).
    + discriminate.
    + vm_compute. reflexivity.
Defined.

(** X14: View only writes.  Whatever the input, the state it ends in is
    the state it started in with more output: the collection and the file
    are untouched; it returns with an unread part of its input and is
    left only by [EOFError], when the input runs out. *)
Theorem view_only_writes :
  forall lines s,
    (exists out, final_state (view_contacts lines s) = emit out s) /\
    match view_contacts lines s with
    | Ret _ rest _ => left_of lines rest
    | Exc e _ _ => e = EOFError
    end.
Proof.
  intros lines s. split; [|apply view_contacts_result].
  unfold view_contacts. destruct (contacts s) as [|c0 cs].
  - eexists. cbn [final_state]. apply print_emit.
  - destruct (view_loop_emits (sorted_contacts (c0 :: cs)) lines
                (print_names 1 (sorted_contacts (c0 :: cs)) (print (nl ++ lit "Contacts:") s)))
      as [out H].
    rewrite H, print_names_emit, print_emit, !emit_emit. eexists. reflexivity.
Qed.

(** X15: whatever the input, Delete ends in one of two ways: the
    collection and the file are as they were, or one contact of the
    collection was removed, the collection is one shorter and it was
    saved.  It is left only by [EOFError], and then without a change. *)
Theorem delete_contact_all_or_nothing :
  forall lines s,
    match delete_contact lines s with
    | Ret _ rest s' =>
        left_of lines rest /\
        (unchanged s s' \/
         removed s s' /\ S (length (contacts s')) = length (contacts s))
    | Exc e _ s' => e = EOFError /\ unchanged s s'
    end.
Proof.
  intros lines s. pose proof (delete_contact_spec lines s) as H.
  destruct (delete_contact lines s) as [u rest s' | e rest s']; [|exact H].
  destruct H as [L [U | R]]; (split; [exact L|]); [now left|].
  right. split; [exact R|].
  destruct R as (c & Hin & Hcs & _). rewrite Hcs. now apply remove_first_length.
Qed.
(** ** Edit: the fields *)

Lemma middle_name_check_eq :
  forall v, str_eqb v [] || validate_name v false = validate_name v true.
Proof.
  intro v. unfold validate_name. cbn [andb]. destruct (str_eqb v []); reflexivity.
Qed.



Lemma edit_loop_retries :
  forall j bad lines s,
    j < length (contacts s) ->
    Forall (fun line => refused_edit_option line = true) bad ->
    edit_loop j (bad ++ lines) s = edit_loop j lines (emit (edit_retries bad) s).
Proof.
  intros j bad lines. induction bad as [|line bad IH]; intros s Hj H.
  - simpl. now rewrite emit_nil.
  - inversion H as [|x l Hline Hbad]; subst.
    destruct (nth_error (contacts s) j) as [c|] eqn:Hc;
      [|apply nth_error_None in Hc; lia].
    cbn [app edit_loop edit_retries]. rewrite Hc.
    unfold refused_edit_option in Hline.
    destruct (py_int line) as [z|].
    + apply negb_true_iff, andb_false_iff in Hline.
      assert (E : (z =? 1)%Z = false /\ (z =? 2)%Z = false /\ (z =? 3)%Z = false /\
                  (z =? 4)%Z = false /\ (z =? 5)%Z = false /\ (z =? 6)%Z = false).
      { repeat split; apply Z.eqb_neq; destruct Hline as [H0 | H0];
          apply Z.leb_gt in H0; lia. }
      destruct E as (E1 & E2 & E3 & E4 & E5 & E6).
      rewrite E1, E2, E3, E4, E5, E6, IH; [|exact Hj | exact Hbad].
      rewrite print_menu_emit, print_emit, !emit_emit. reflexivity.
    + rewrite IH; [|exact Hj | exact Hbad].
      rewrite print_menu_emit, print_emit, !emit_emit. reflexivity.
Qed.

(** X16: the choices 1, 2 and 3 of Edit show the current name and read
    one line.  Its trimmed, title-cased form is stored in the chosen
    field of the selected contact and the collection is saved when it is
    a valid name, a blank one being valid for the middle name only;
    otherwise the name is reported as invalid and nothing changes.  In
    both cases the field menu comes next. *)
Theorem edit_name_field :
  forall j o raw more s c k,
    py_int o = Some k ->
    (k = 1 \/ k = 2 \/ k = 3)%Z ->
    nth_error (contacts s) j = Some c ->
    let v := clean_name raw in
    let cs' := set_nth j (name_setter k v c) (contacts s) in
    edit_loop j (o :: raw :: more) s =
    if validate_name v (k =? 2)%Z
    then edit_loop j more
           {| contacts := cs'; file := Some (csv_text cs');
              stdout := stdout s ++ edit_name_chunks k c
                          ++ [lit "Changes saved." ++ nl;
                              (name_title k ++ lit " name updated.") ++ nl] |}
    else edit_loop j more
           (emit (edit_name_chunks k c
                    ++ [(lit "Invalid " ++ name_word k ++ lit " name.") ++ nl]) s).
Proof.
  intros j o raw more s c k Ho Hk Hc v cs'.
  cbn [edit_loop]. rewrite Ho, Hc. cbv zeta. fold (clean_name raw). fold v.
  rewrite print_menu_emit.
  destruct Hk as [-> | [-> | ->]]; cbn [Z.eqb Pos.eqb].
  - destruct (validate_name v false).
    + f_equal. unfold save, assign, print, write, set_file, set_contacts, emit.
      cbn [contacts file stdout]. unfold cs', edit_name_chunks.
      rewrite <- ?app_assoc. reflexivity.
    + f_equal. rewrite !print_emit, write_emit, !emit_emit. unfold edit_name_chunks.
      rewrite <- ?app_assoc. reflexivity.
  - rewrite middle_name_check_eq. destruct (validate_name v true).
    + f_equal. unfold save, assign, print, write, set_file, set_contacts, emit.
      cbn [contacts file stdout]. unfold cs', edit_name_chunks.
      rewrite <- ?app_assoc. reflexivity.
    + f_equal. rewrite !print_emit, write_emit, !emit_emit. unfold edit_name_chunks.
      rewrite <- ?app_assoc. reflexivity.
  - destruct (validate_name v false).
    + f_equal. unfold save, assign, print, write, set_file, set_contacts, emit.
      cbn [contacts file stdout]. unfold cs', edit_name_chunks.
      rewrite <- ?app_assoc. reflexivity.
    + f_equal. rewrite !print_emit, write_emit, !emit_emit. unfold edit_name_chunks.
      rewrite <- ?app_assoc. reflexivity.
Qed.

Lemma edit_name_field_witness :
  let amy := {| first_name := lit "Amy"; middle_name := lit "Jo"; last_name := lit "Adams";
                number := lit "1111111111"; email := lit "amy@x.org" |} in
  let s := {| contacts := [amy]; file := Some (csv_text [amy]); stdout := [] |} in
  (exists out,
     edit_loop 0 [lit "2"; lit "  "; lit "6"] s =
     edit_loop 0 [lit "6"]
       {| contacts := [with_middle_name [] amy];
          file := Some (csv_text [with_middle_name [] amy]); stdout := out |}) /\
  (exists out,
     edit_loop 0 [lit "3"; lit "o'neil"; lit "6"] s = edit_loop 0 [lit "6"] (emit out s)).
Proof.
  intros amy s. split.
  - eexists.
    exact (edit_name_field 0 (lit "2") (lit "  ") [lit "6"] s amy 2
             ltac:(vm_compute; reflexivity) ltac:(right; left; reflexivity) eq_refl).
  - eexists.
    exact (edit_name_field 0 (lit "3") (lit "o'neil") [lit "6"] s amy 3
             ltac:(vm_compute; reflexivity) ltac:(right; right; reflexivity) eq_refl).
Defined.



(** X18: the field menu of Edit answers every line that is not a number
    with "Enter a valid option!" and every number outside 1 to 6 with
    "Invalid option. Try again.", and shows the menu again; at the choice
    6 it saves the collection as it is, reports the end of the editing
    and returns with the rest of the input unread. *)
Theorem edit_refuses_then_finishes :
  forall j bad six more s,
    j < length (contacts s) ->
    Forall (fun line => refused_edit_option line = true) bad ->
    py_int six = Some 6%Z ->
    edit_loop j (bad ++ six :: more) s =
    Ret tt more
      {| contacts := contacts s; file := Some (csv_text (contacts s));
         stdout := stdout s ++ edit_retries bad ++ menu_chunks
                     ++ [lit "Changes saved." ++ nl;
                         lit "Finished editing contact." ++ nl] |}.
Proof.
  intros j bad six more s Hj Hbad H6.
  rewrite (edit_loop_retries j bad _ s Hj Hbad).
  destruct (nth_error (contacts s) j) as [c|] eqn:Hc;
    [|apply nth_error_None in Hc; lia].
  cbn [edit_loop]. rewrite H6, contacts_emit, Hc. cbn [Z.eqb Pos.eqb].
  rewrite print_menu_emit, emit_emit. f_equal.
  unfold save, print, write, set_file, set_contacts, emit.
  cbn [contacts file stdout]. rewrite <- ?app_assoc. reflexivity.
Qed.

Lemma edit_refuses_then_finishes_witness :
  let bob := {| first_name := lit "Bob"; middle_name := []; last_name := lit "Smith";
                number := lit "0123456789"; email := lit "bob@x.org" |} in
  let s := {| contacts := [bob]; file := None; stdout := [] |} in
  exists out,
    edit_loop 0 [lit "x"; lit "7"; lit "0"; lit "6"; lit "left"] s =
    Ret tt [lit "left"]
      {| contacts := [bob]; file := Some (csv_text [bob]); stdout := out |} /\
    times_written (lit "Enter a valid option!" ++ nl) out = 1 /\
    times_written (lit "Invalid option. Try again." ++ nl) out = 2.
Proof.
  intros bob s. eexists. split.
  - apply (edit_refuses_then_finishes 0 [lit "x"; lit "7"; lit "0"] (lit "6") [lit "left"] s).
    + simpl. lia.
    + all_by_compute.
    + vm_compute. reflexivity.
  - split; vm_compute; reflexivity.
Defined.

(** X19: whatever the input, Edit changes at most one contact: the
    collection keeps its length, and at every position but one the
    contact is the one that was there.  Edit returns with an unread part
    of its input and is left only by [EOFError], when the input runs
    out. *)
Theorem edit_changes_one_contact_at_most :
  forall lines s,
    (exists j,
       same_elsewhere j (contacts s) (contacts (final_state (edit_contact lines s)))) /\
    match edit_contact lines s with
    | Ret _ rest _ => left_of lines rest
    | Exc e _ _ => e = EOFError
    end.
Proof.
  intros lines s. split; [|apply edit_contact_result].
  destruct (edit_contact_steps lines s) as [j H].
  exists j. now apply edit_steps_elsewhere.
Qed.

(** X20: each of the four commands keeps a sound store sound, whatever
    the input and also when the input runs out in the middle of the
    command: numbers stay unique, emails stay unique up to letter case,
    every contact keeps valid names, a valid number and a well-formed
    email, and the backing file is the saved text of the collection. *)
Theorem commands_keep_store_sound :
  forall lines s,
    store_ok s ->
    store_ok (final_state (add_contact lines s)) /\
    store_ok (final_state (view_contacts lines s)) /\
    store_ok (final_state (delete_contact lines s)) /\
    store_ok (final_state (edit_contact lines s)).
Proof.
  intros lines s Ok. split; [|split; [|split]].
  - now apply add_contact_store_ok.
  - now apply view_contacts_store_ok.
  - now apply delete_contact_store_ok.
  - now apply edit_contact_store_ok.
Qed.

Lemma commands_keep_store_sound_witness :
  let s := {| contacts := []; file := Some header_text; stdout := [] |} in
  let lines := [lit "amy"; []; lit "adams"; lit "1111111111"; lit "amy@x.org"] in
  store_ok (final_state (add_contact lines s)) /\
  store_ok (final_state (view_contacts lines s)) /\
  store_ok (final_state (delete_contact lines s)) /\
  store_ok (final_state (edit_contact lines s)).
Proof.
  intros s lines. apply (commands_keep_store_sound lines s). apply empty_store_ok.
Defined.
(** ** Text of the fields and of the file *)

Lemma needs_quotes_cases :
  forall c, Csv.needs_quotes c = true -> c = 44%N \/ c = 34%N \/ c = 13%N \/ c = 10%N.
Proof.
  intros c H. unfold Csv.needs_quotes, Csv.delimiter, Csv.quotechar, Csv.lineterminator in H.
  cbn [existsb] in H. rewrite !orb_true_iff, !N.eqb_eq in H.
  destruct H as [[H | H] | [H | [H | H]]]; auto; discriminate.
Qed.

Lemma plain_by_cases :
  forall (P : N -> bool) c,
    P 44%N = false -> P 34%N = false -> P 13%N = false -> P 10%N = false ->
    P c = true -> Csv.needs_quotes c = false.
Proof.
  intros P c H1 H2 H3 H4 H. destruct (Csv.needs_quotes c) eqn:E; [|reflexivity].
  apply needs_quotes_cases in E. destruct E as [-> | [-> | [-> | ->]]]; congruence.
Qed.

Lemma write_field_plain :
  forall f, Forall (fun c => Csv.needs_quotes c = false) f -> Csv.write_field f = f.
Proof.
  intros f H. unfold Csv.write_field.
  assert (E : existsb Csv.needs_quotes f = false).
  { induction H as [|c f Hc Hf IH]; [reflexivity|]. cbn [existsb]. now rewrite Hc, IH. }
  rewrite E. induction H as [|c f Hc Hf IH]; [reflexivity|].
  cbn [flat_map existsb] in *. rewrite Hc in E. cbn [orb] in E. rewrite (IH E).
  unfold Csv.escape_char. destruct (N.eqb_spec c Csv.quotechar) as [-> | _].
  - vm_compute in Hc. discriminate.
  - reflexivity.
Qed.

Lemma name_plain :
  forall v allow,
    validate_name v allow = true -> Forall (fun c => Csv.needs_quotes c = false) v.
Proof.
  intros v allow H. unfold validate_name in H.
  destruct (allow && str_eqb v []) eqn:E.
  - apply andb_true_iff in E. destruct E as [_ E]. apply str_eqb_eq in E. subst v. constructor.
  - unfold isalpha in H. destruct v as [|c v]; [discriminate|].
    rewrite forallb_forall in H. apply Forall_forall. intros x Hx.
    apply (plain_by_cases is_alpha); [vm_compute; reflexivity .. | now apply H].
Qed.

Lemma number_plain :
  forall v, validate_number v false = true -> Forall (fun c => Csv.needs_quotes c = false) v.
Proof.
  intros v H. apply validate_number_iff in H. destruct H as [_ H].
  apply Forall_forall. intros x Hx. rewrite Forall_forall in H.
  apply (plain_by_cases is_digit); [vm_compute; reflexivity .. | now apply H].
Qed.

Lemma email_plain :
  forall v, email_shape v -> Forall (fun c => Csv.needs_quotes c = false) v.
Proof.
  intros v (loc & dom & tld & -> & _ & _ & _ & Hl & Hd & Ht).
  assert (Hchar : forall l, Forall (fun c => email_char c = true) l ->
                            Forall (fun c => Csv.needs_quotes c = false) l).
  { intros l H. apply Forall_forall. intros x Hx. rewrite Forall_forall in H.
    apply (plain_by_cases email_char); [vm_compute; reflexivity .. | now apply H]. }
  assert (Hword : forall l, Forall (fun c => Regex.is_word c = true) l ->
                            Forall (fun c => Csv.needs_quotes c = false) l).
  { intros l H. apply Forall_forall. intros x Hx. rewrite Forall_forall in H.
    apply (plain_by_cases Regex.is_word); [vm_compute; reflexivity .. | now apply H]. }
  apply Forall_app. split; [now apply Hchar|].
  apply Forall_app. split; [repeat constructor|].
  apply Forall_app. split; [now apply Hchar|].
  apply Forall_app. split; [repeat constructor | now apply Hword].
Qed.

Lemma write_row_plain :
  forall c, valid_contact c -> Csv.write_row (contact_row c) = plain_record c.
Proof.
  intros c (Hf & Hm & Hl & Hn & He).
  assert (R : Csv.write_row (contact_row c) =
              Csv.join_fields (contact_row c) ++ Csv.lineterminator).
  { unfold contact_row, Csv.write_row. destruct (first_name c); reflexivity. }
  rewrite R. unfold contact_row. cbn [Csv.join_fields].
  rewrite (write_field_plain _ (name_plain _ _ Hf)), (write_field_plain _ (name_plain _ _ Hm)),
    (write_field_plain _ (name_plain _ _ Hl)), (write_field_plain _ (number_plain _ Hn)),
    (write_field_plain _ (email_plain _ He)).
  unfold plain_record.
  repeat (rewrite <- app_assoc || rewrite <- app_comm_cons). reflexivity.
Qed.

Lemma is_alpha_ascii : forall c, (c < 128)%N -> (is_alpha c = true <-> ascii_letter c).
Proof.
  intros c Hc. unfold ascii_letter.
  pose proof (@ascii_cases
                (fun c => Bool.eqb (is_alpha c)
                            (((65 <=? c) && (c <=? 90)) || ((97 <=? c) && (c <=? 122)))%N)
                ltac:(vm_compute; reflexivity) c Hc) as H.
  simpl in H. apply eqb_prop in H. rewrite H.
  rewrite orb_true_iff, !andb_true_iff, !N.leb_le. reflexivity.
Qed.

Lemma str_ltb_irrefl : forall a, str_ltb a a = false.
Proof.
  intro a. destruct (str_ltb a a) eqn:E; [|reflexivity].
  pose proof (str_ltb_asym _ _ E) as H. congruence.
Qed.

Lemma with_key_insert :
  forall k x l, with_key k (insert_by name_key x l) = with_key k (x :: l).
Proof.
  intros k x l. induction l as [|y l IH]; [reflexivity|].
  cbn [insert_by]. destruct (str_ltb (name_key y) (name_key x)) eqn:L; [|reflexivity].
  unfold with_key in *. cbn [filter] in *. rewrite IH.
  destruct (str_eqb (name_key y) k) eqn:Ey; destruct (str_eqb (name_key x) k) eqn:Ex;
    try reflexivity.
  apply str_eqb_eq in Ey, Ex. rewrite Ey, Ex, str_ltb_irrefl in L. discriminate.
Qed.

Lemma print_rows_emit :
  forall l i s,
    print_rows i l s =
    emit (map (fun e : nat * Contact =>
                 table_row (str_of_nat (fst e) ++ lit ".") (full_name (snd e))
                   (number (snd e)) (email (snd e)) ++ nl)
            (combine (seq i (length l)) l)) s.
Proof.
  induction l as [|c l IH]; intros i s.
  - symmetry. apply emit_nil.
  - cbn [print_rows length seq combine map]. rewrite IH, print_emit, emit_emit. reflexivity.
Qed.

(** X21: for a collection of contacts with valid names, a valid number
    and a well-formed email, the text that is saved holds no quoted field:
    it is the header line followed, for each contact in the stored order,
    by the five fields as they are, separated by commas and ended by a
    carriage return and a line feed. *)
Theorem saved_text_is_plain :
  forall cs,
    Forall valid_contact cs ->
    csv_text cs = header_text ++ flat_map plain_record cs.
Proof.
  intros cs H. unfold csv_text. rewrite header_text_csv. f_equal.
  induction H as [|c cs Hc Hcs IH]; [reflexivity|].
  cbn [flat_map]. now rewrite IH, (write_row_plain c Hc).
Qed.

Lemma saved_text_is_plain_witness :
  let amy := {| first_name := lit "Amy"; middle_name := []; last_name := lit "Adams";
                number := lit "1111111111"; email := lit "amy@x.org" |} in
  csv_text [amy] =
  lit "first_name,middle_name,last_name,number,email" ++ [13; 10]%N
    ++ lit "Amy,,Adams,1111111111,amy@x.org" ++ [13; 10]%N.
Proof.
  intro amy. apply (saved_text_is_plain [amy]).
  constructor; [|constructor].
  split; [vm_compute; reflexivity|]. split; [vm_compute; reflexivity|].
  split; [vm_compute; reflexivity|]. split; [vm_compute; reflexivity|].
  exists (lit "amy"), (lit "x"), (lit "org").
  split; [reflexivity|]. split; [discriminate|]. split; [discriminate|].
  split; [discriminate|]. split; [|split]; all_by_compute.
Defined.

(** X22: on a string of ASCII characters [validate_name] accepts the
    non-empty strings made of the letters A to Z and a to z only, and the
    empty string when a blank is allowed; a space, a digit, a hyphen or an
    apostrophe makes the name invalid. *)
Theorem validate_name_ascii_letters :
  forall name allow_blank,
    Forall (fun c => (c < 128)%N) name ->
    (validate_name name allow_blank = true <->
     (allow_blank = true /\ name = []) \/ (name <> [] /\ Forall ascii_letter name)).
Proof.
  intros name allow Hascii. unfold validate_name.
  destruct name as [|c name].
  - cbn [str_eqb isalpha]. rewrite andb_true_r. destruct allow.
    + split; [intros _; now left | reflexivity].
    + split; [discriminate | intros [[H _] | [H _]]; [discriminate | congruence]].
  - replace (allow && str_eqb (c :: name) []) with false
      by (cbn [str_eqb]; now rewrite andb_false_r).
    unfold isalpha. rewrite forallb_forall. split.
    + intro H. right. split; [discriminate|]. apply Forall_forall. intros x Hx.
      rewrite Forall_forall in Hascii. apply is_alpha_ascii; [now apply Hascii | now apply H].
    + intros [[_ H] | [_ H]]; [discriminate|]. intros x Hx.
      rewrite Forall_forall in Hascii, H. apply is_alpha_ascii; [now apply Hascii | now apply H].
Qed.

Lemma validate_name_ascii_letters_witness :
  validate_name (lit "Amy") false = true /\
  validate_name (lit "Mary Ann") false = false /\
  validate_name (lit "O'Neil") false = false /\
  validate_name [] false = false.
Proof.
  split; [|split; [|split]].
  - apply (validate_name_ascii_letters (lit "Amy") false).
    + vm_compute. repeat (constructor; [reflexivity|]). constructor.
    + right. split; [discriminate|]. unfold ascii_letter. vm_compute.
      constructor; [left; split; discriminate|].
      constructor; [right; split; discriminate|].
      constructor; [right; split; discriminate|]. constructor.
  - vm_compute. reflexivity.
  - vm_compute. reflexivity.
  - vm_compute. reflexivity.
Defined.

(** X23: the sorted listing is stable.  The contacts that have the same
    sort key, the trimmed full name in lower case, appear in the listing
    in the order in which the collection stores them. *)
Theorem sorted_listing_is_stable :
  forall cs k, with_key k (sorted_contacts cs) = with_key k cs.
Proof.
  intros cs k. induction cs as [|c cs IH]; [reflexivity|].
  unfold sorted_contacts in *. cbn [py_sorted]. rewrite with_key_insert.
  unfold with_key in *. cbn [filter]. now rewrite IH.
Qed.

Lemma nth_error_combine_seq :
  forall (l : list Contact) k i c,
    nth_error l i = Some c ->
    nth_error (combine (seq k (length l)) l) i = Some (k + i, c).
Proof.
  induction l as [|x l IH]; intros k i c H; [destruct i; discriminate|].
  destruct i as [|i]; cbn [length seq combine nth_error] in *.
  - injection H as ->. now rewrite Nat.add_0_r.
  - rewrite (IH (S k) i c H). now rewrite Nat.add_succ_r.
Qed.

(** X24: [print_contacts] writes, for a list that is not empty, an empty
    line and the heading, one row for each contact in the order of the
    list, and an empty line; the row of the contact at place [i], counted
    from 1, holds [i] and a dot, the trimmed full name, the number and the
    email, each followed by the spaces that fill its column.  For the
    empty list it writes that there are no contacts.  It changes neither
    the collection nor the file. *)
Theorem print_contacts_table :
  forall l s,
    exists rows,
      print_contacts l s =
      emit (match l with
            | [] => [lit "No contacts to display." ++ [10%N]]
            | _ => [[10%N] ++ table_heading ++ [10%N]] ++ rows ++ [[10%N]]
            end) s /\
      length rows = length l /\
      forall i c,
        nth_error l i = Some c ->
        nth_error rows i =
        Some (detail_row (str_of_nat (S i) ++ lit ".")
                (strip (first_name c ++ lit " " ++ middle_name c ++ lit " " ++ last_name c))
                (number c) (email c) ++ [10%N]).
Proof.
  intros l s.
  exists (map (fun e : nat * Contact =>
                 table_row (str_of_nat (fst e) ++ lit ".") (full_name (snd e))
                   (number (snd e)) (email (snd e)) ++ nl)
            (combine (seq 1 (length l)) l)).
  split; [|split].
  - destruct l as [|c l]; [reflexivity|].
    unfold print_contacts.
    rewrite print_rows_emit, !print_emit, !emit_emit, <- ?app_assoc. reflexivity.
  - now rewrite length_map, length_combine, length_seq, Nat.min_id.
  - intros i c H. rewrite nth_error_map, (nth_error_combine_seq l 1 i c H).
    cbn [option_map fst snd Nat.add].
    unfold table_row, ljust, detail_row, column, full_name. reflexivity.
Qed.
(** ** Commands in sequence *)

Lemma remove_first_last :
  forall c cs, ~ In c cs -> remove_first c (cs ++ [c]) = cs.
Proof.
  intros c cs. induction cs as [|x cs IH]; intro H.
  - cbn [app remove_first]. now rewrite contact_eqb_refl.
  - cbn [app remove_first]. destruct (contact_eqb x c) eqn:E.
    + apply contact_eqb_eq in E. subst x. elim H. now left.
    + rewrite IH; [reflexivity|]. intro Hin. apply H. now right.
Qed.

(** X25: Delete undoes Add.  After an accepted Add, a confirmed Delete at
    the place of the new contact in the sorted listing puts the
    collection back as it was before the Add, in the same order, and
    saves it. *)
Theorem add_then_delete_roundtrip :
  forall s f m l n e rest idx i answer rest',
    validate_name (clean_name f) false = true ->
    validate_name (clean_name m) true = true ->
    validate_name (clean_name l) false = true ->
    name_taken (contacts s) (entered_key f m l) = false ->
    validate_number (strip n) false = true ->
    number_taken (contacts s) (strip n) = false ->
    validate_email (strip e) false = true ->
    email_taken (contacts s) (strip e) = false ->
    nth_error (sorted_contacts (contacts s ++ [new_contact f m l n e])) i =
      Some (new_contact f m l n e) ->
    py_int idx = Some (Z.of_nat (S i)) ->
    str_eqb (lower (strip answer)) (lit "y") = true ->
    exists s1 s2,
      add_contact (f :: m :: l :: n :: e :: rest) s = Ret tt rest s1 /\
      contacts s1 = contacts s ++ [new_contact f m l n e] /\
      delete_contact (idx :: answer :: rest') s1 = Ret tt rest' s2 /\
      contacts s2 = contacts s /\
      file s2 = Some (csv_text (contacts s)).
Proof.
  intros s f m l n e rest idx i answer rest' Hf Hm Hl Hname Hn Hnt He Het Hi Hidx Hyes.
  set (c := new_contact f m l n e) in *.
  pose proof (add_contact_success s f m l n e rest Hf Hm Hl Hname Hn Hnt He Het) as Hadd.
  fold c in Hadd.
  set (s1 := print (lit "Contact '" ++ full_name c ++ lit "' added successfully!")
               (save (set_contacts (contacts s ++ [c])
                        (emit (add_name_prompts
                                 ++ [lit "Enter phone number: "; lit "Enter email: "]) s)))) in *.
  assert (Hcs : contacts s1 = contacts s ++ [c]) by reflexivity.
  assert (Hfresh : ~ In c (contacts s)).
  { intro Hin. apply number_taken_in in Hin. unfold c, new_contact in Hin.
    cbn [number] in Hin. congruence. }
  assert (Hlt : i < length (contacts s1)).
  { rewrite Hcs, <- sorted_contacts_length. apply nth_error_Some. rewrite Hi. discriminate. }
  assert (Hrange : in_range (Z.of_nat (S i)) (length (contacts s1)) = true).
  { unfold in_range. apply andb_true_iff. split; apply Z.leb_le; lia. }
  assert (Hindex : index_of (Z.of_nat (S i)) = i) by (unfold index_of; lia).
  assert (Hsel : nth_error (sorted_contacts (contacts s1)) (index_of (Z.of_nat (S i))) = Some c)
    by (rewrite Hindex, Hcs; exact Hi).
  pose proof (delete_confirmed_run s1 [] idx answer rest' _ c (Forall_nil _) Hidx Hrange
                Hsel Hyes) as Hdel.
  cbn [app] in Hdel.
  eexists. eexists. split; [exact Hadd|]. split; [exact Hcs|].
  split; [exact Hdel|]. cbn [contacts file].
  rewrite Hcs, (remove_first_last c _ Hfresh). split; reflexivity.
Qed.

Lemma add_then_delete_roundtrip_witness :
  let bob := {| first_name := lit "Bob"; middle_name := []; last_name := lit "Smith";
                number := lit "0123456789"; email := lit "bob@x.org" |} in
  let cy := {| first_name := lit "Cy"; middle_name := []; last_name := lit "Young";
               number := lit "2222222222"; email := lit "cy@x.org" |} in
  let s := {| contacts := [cy; bob]; file := Some (csv_text [cy; bob]); stdout := [] |} in
  exists s1 s2,
    add_contact [lit "amy"; []; lit "adams"; lit "1111111111"; lit "amy@x.org"] s =
      Ret tt [] s1 /\
    contacts s1 = [cy; bob] ++ [new_contact (lit "amy") [] (lit "adams") (lit "1111111111")
                                  (lit "amy@x.org")] /\
    delete_contact [lit "1"; lit "y"] s1 = Ret tt [] s2 /\
    contacts s2 = [cy; bob] /\
    file s2 = Some (csv_text [cy; bob]).
Proof.
  intros bob cy s.
  apply (add_then_delete_roundtrip s (lit "amy") [] (lit "adams") (lit "1111111111")
           (lit "amy@x.org") [] (lit "1") 0 (lit "y") []);
    vm_compute; reflexivity.
Defined.

(** X26: Add, View and Delete keep the names unique: when no two contacts
    have the same trimmed full name up to letter case before the command,
    none have after it, whatever the input. *)
Theorem add_view_delete_keep_names_unique :
  forall lines s,
    unique_names (contacts s) ->
    unique_names (contacts (final_state (add_contact lines s))) /\
    unique_names (contacts (final_state (view_contacts lines s))) /\
    unique_names (contacts (final_state (delete_contact lines s))).
Proof.
  intros lines s H. split; [|split].
  - now apply add_contact_unique_names.
  - pose proof (view_contacts_spec lines s) as V.
    destruct (view_contacts lines s) as [u rest s' | e rest s']; cbn [final_state].
    + destruct V as [[-> _] _]. exact H.
    + destruct V as [_ [-> _]]. exact H.
  - now apply delete_contact_unique_names.
Qed.

Lemma add_view_delete_keep_names_unique_witness :
  let bob := {| first_name := lit "Bob"; middle_name := []; last_name := lit "Smith";
                number := lit "0123456789"; email := lit "bob@x.org" |} in
  let s := {| contacts := [bob]; file := Some (csv_text [bob]); stdout := [] |} in
  let lines := [lit "bob"; []; lit "SMITH"; lit "1111111111"; lit "b@x.org"] in
  unique_names (contacts (final_state (add_contact lines s))) /\
  unique_names (contacts (final_state (view_contacts lines s))) /\
  unique_names (contacts (final_state (delete_contact lines s))).
Proof.
  intros bob s lines. apply (add_view_delete_keep_names_unique lines s).
  unfold unique_names. cbn [contacts map]. constructor; [intros [] | constructor].
Defined.
